(** * z.ai2api_deno: tool-call extraction, message preprocessing and model mapping

    A shallow embedding of [app/utils/tools.ts], [app/utils/model_mapper.ts]
    and the chat-completion route of [app/core/openai.ts], together with the
    parts of the JavaScript runtime these files lean on (strings of UTF-16
    code units, backtracking regular expressions, [JSON.parse] and
    [JSON.stringify]).  Definitions come first, the properties after them. *)

From Stdlib Require Import ZArith NArith Bool String Ascii Lia.
From stdpp Require Import gmap list option.

Local Open Scope N_scope.

(** ** JavaScript strings

    A JavaScript string is a sequence of UTF-16 code units; [substring],
    [length], the regular expressions (no [u] flag) and the brace scanner all
    count code units.  String constants of the source are written as Rocq
    string literals (UTF-8 bytes) and decoded by [js]. *)

Abbreviation jsstring := (list N).

Module Utf.

Definition cont (b : N) : bool := (128 <=? b) && (b <? 192).

(** Code points of a UTF-8 byte sequence; an ill-formed byte decodes to
    U+FFFD, as [TextDecoder] does. *)
Fixpoint decode (bs : list N) : list N :=
  match bs with
  | [] => []
  | b0 :: r0 =>
      if b0 <? 128 then b0 :: decode r0
      else if (192 <=? b0) && (b0 <? 224) then
        match r0 with
        | b1 :: r1 =>
            if cont b1 then ((b0 - 192) * 64 + (b1 - 128)) :: decode r1
            else 65533 :: decode r0
        | [] => [65533]
        end
      else if (224 <=? b0) && (b0 <? 240) then
        match r0 with
        | b1 :: b2 :: r2 =>
            if cont b1 && cont b2
            then ((b0 - 224) * 4096 + (b1 - 128) * 64 + (b2 - 128)) :: decode r2
            else 65533 :: decode r0
        | _ => 65533 :: decode r0
        end
      else if (240 <=? b0) && (b0 <? 248) then
        match r0 with
        | b1 :: b2 :: b3 :: r3 =>
            if cont b1 && cont b2 && cont b3
            then ((b0 - 240) * 262144 + (b1 - 128) * 4096
                  + (b2 - 128) * 64 + (b3 - 128)) :: decode r3
            else 65533 :: decode r0
        | _ => 65533 :: decode r0
        end
      else 65533 :: decode r0
  end.

(** UTF-16 code units of a code point. *)
Definition units (cp : N) : list N :=
  if cp <? 65536 then [cp]
  else [55296 + (cp - 65536) / 1024; 56320 + (cp - 65536) mod 1024].

Fixpoint bytes (s : string) : list N :=
  match s with
  | EmptyString => []
  | String a s' => N_of_ascii a :: bytes s'
  end.

End Utf.

Definition js (s : string) : jsstring :=
  concat (map Utf.units (Utf.decode (Utf.bytes s))).

Arguments js : simpl never.

Definition ch (a : ascii) : N := N_of_ascii a.

Arguments ch : simpl never.

(** [s.substring(0, n)] for a number [n] ([NaN] and negative numbers count
    as 0 in [substring]; the configuration holds an integer). *)
Definition substring0 (s : jsstring) (n : Z) : jsstring := take (Z.to_nat n) s.

(** WhiteSpace and LineTerminator code units: what [\s] matches and what
    [String.prototype.trim] removes. *)
Definition is_js_space (c : N) : bool :=
  (c =? 9) || (c =? 10) || (c =? 11) || (c =? 12) || (c =? 13) || (c =? 32)
  || (c =? 160) || (c =? 5760) || ((8192 <=? c) && (c <=? 8202))
  || (c =? 8232) || (c =? 8233) || (c =? 8239) || (c =? 8287)
  || (c =? 12288) || (c =? 65279).

(** [\w] without the [u] and [i] flags. *)
Definition is_word (c : N) : bool :=
  ((48 <=? c) && (c <=? 57)) || ((65 <=? c) && (c <=? 90))
  || (c =? 95) || ((97 <=? c) && (c <=? 122)).

Fixpoint trimStart (s : jsstring) : jsstring :=
  match s with
  | c :: s' => if is_js_space c then trimStart s' else s
  | [] => []
  end.

Definition trimEnd (s : jsstring) : jsstring := rev (trimStart (rev s)).

Definition trim (s : jsstring) : jsstring := trimEnd (trimStart s).

Fixpoint startsWith (p s : jsstring) : bool :=
  match p, s with
  | [], _ => true
  | a :: p', b :: s' => (a =? b) && startsWith p' s'
  | _ :: _, [] => false
  end.

(** [s.includes(p)] *)
Fixpoint includes (p s : jsstring) : bool :=
  startsWith p s || match s with [] => false | _ :: s' => includes p s' end.

Definition jseq (a b : jsstring) : bool := bool_decide (a = b).

(** [a || b] on an optional string: [undefined] and the empty string are
    falsy. *)
Definition or_else (a : option jsstring) (b : jsstring) : jsstring :=
  match a with
  | Some (c :: s) => c :: s
  | _ => b
  end.

(** [a.join(sep)] on an array of strings. *)
Fixpoint join (sep : jsstring) (l : list jsstring) : jsstring :=
  match l with
  | [] => []
  | [x] => x
  | x :: l' => x ++ sep ++ join sep l'
  end.

(** ** Numbers

    [JSON.parse] turns a number literal into the nearest IEEE-754 binary64
    value (ties to even) and [JSON.stringify] prints a finite number with
    [Number::toString]: the shortest decimal that reads back as the same
    value.  Both are computed exactly over [Z]. *)

Module Num.

Local Open Scope Z_scope.

(** Magnitude of a binary64 value: [Finite f p] is [f * 2^p] with
    [2^52 <= f < 2^53], or [0 < f < 2^52] and [p = -1074] (subnormal). *)
Inductive double :=
| Zero
| Finite (f p : Z)
| Infinity.

(** Nearest integer to [a / b], ties to even ([0 <= a], [0 < b]). *)
Definition round_div (a b : Z) : Z :=
  let q := a / b in
  match Z.compare (2 * (a mod b)) b with
  | Lt => q
  | Gt => q + 1
  | Eq => if Z.even q then q else q + 1
  end.

(** Nearest integer to [(num / den) / 2^p]. *)
Definition scaled (num den p : Z) : Z :=
  if 0 <=? p then round_div num (den * 2 ^ p)
  else round_div (num * 2 ^ (- p)) den.

(** [2^k <= num / den] *)
Definition at_least_pow2 (num den k : Z) : bool :=
  if 0 <=? k then den * 2 ^ k <=? num else den <=? num * 2 ^ (- k).

(** The binary64 value nearest to [num / den] ([0 < num], [0 < den]). *)
Definition of_ratio (num den : Z) : double :=
  let k := Z.log2 num - Z.log2 den in
  let e2 := if at_least_pow2 num den k then k else k - 1 in
  let p := Z.max (e2 - 52) (-1074) in
  let q := scaled num den p in
  let '(q, p) := if q =? 2 ^ 53 then (2 ^ 52, p + 1) else (q, p) in
  if q =? 0 then Zero else if 971 <? p then Infinity else Finite q p.

(** The binary64 value nearest to [m * 10^e] ([0 <= m]).  Magnitudes far
    outside the binary64 range are settled without computing the power. *)
Definition of_decimal (m e : Z) : double :=
  if m =? 0 then Zero
  else
    let dl := Z.log2 m * 30103 / 100000 in
    if 310 <? e + dl then Infinity
    else if e + dl + 2 <? -330 then Zero
    else if 0 <=? e then of_ratio (m * 10 ^ e) 1
    else of_ratio m (10 ^ (- e)).

(** [num / den < 10^n] *)
Definition below_pow10 (num den n : Z) : bool :=
  if 0 <=? n then num <? den * 10 ^ n else num * 10 ^ (- n) <? den.

Fixpoint find_n (fuel : nat) (num den n : Z) : Z :=
  match fuel with
  | O => n
  | S fuel' =>
      if below_pow10 num den n then n else find_n fuel' num den (n + 1)
  end.

(** The least [n] with [num / den < 10^n]. *)
Definition decimal_exponent (num den : Z) : Z :=
  let k := Z.log2 num - Z.log2 den in
  find_n 8 num den (k * 30103 / 100000 - 2).

Definition same (x : double) (f p : Z) : bool :=
  match x with
  | Finite f' p' => (f' =? f) && (p' =? p)
  | _ => false
  end.

(** A [k]-digit significand [s] with [s * 10^(n-k)] reading back as
    [Finite f p], the closest to it, if there is one. *)
Definition significand (f p num den n k : Z) : option Z :=
  let '(a, b) := if 0 <=? n - k then (num, den * 10 ^ (n - k))
                 else (num * 10 ^ (k - n), den) in
  let lo := a / b in
  let hi := lo + 1 in
  let oklo := same (of_decimal lo (n - k)) f p in
  let okhi := same (of_decimal hi (n - k)) f p in
  if oklo && okhi then
    match Z.compare (a - lo * b) (hi * b - a) with
    | Lt => Some lo
    | Gt => Some hi
    | Eq => Some (if Z.even lo then lo else hi)
    end
  else if oklo then Some lo
  else if okhi then Some hi
  else None.

Fixpoint shortest (count : nat) (f p num den n k : Z) : Z * Z :=
  match count with
  | O => (f, k)
  | S count' =>
      match significand f p num den n k with
      | Some s => (s, k)
      | None => shortest count' f p num den n (k + 1)
      end
  end.

Fixpoint digits_rev (fuel : nat) (n : Z) : list N :=
  match fuel with
  | O => []
  | S fuel' =>
      if n <? 10 then [Z.to_N (48 + n)]
      else Z.to_N (48 + n mod 10) :: digits_rev fuel' (n / 10)
  end.

(** Decimal digits of [n >= 0]. *)
Definition digits (n : Z) : jsstring :=
  rev (digits_rev (S (Z.to_nat (Z.log2 n))) n).

Fixpoint drop_zeros (l : list N) : list N :=
  match l with
  | 48%N :: l' => drop_zeros l'
  | _ => l
  end.

Definition zeros (n : Z) : jsstring := replicate (Z.to_nat n) 48%N.

(** Number::toString on digits [ds] (no trailing zero) and exponent [n]:
    the value is [0.ds * 10^n]. *)
Definition layout (ds : jsstring) (n : Z) : jsstring :=
  let k := Z.of_nat (length ds) in
  if (k <=? n) && (n <=? 21) then ds ++ zeros (n - k)
  else if (0 <? n) && (n <=? 21) then
    take (Z.to_nat n) ds ++ [46%N] ++ drop (Z.to_nat n) ds
  else if (-6 <? n) && (n <=? 0) then
    [48%N; 46%N] ++ zeros (- n) ++ ds
  else
    let e := n - 1 in
    let sign := if 0 <=? e then 43%N else 45%N in
    let mant := match ds with
                | [d] => [d]
                | d :: ds' => d :: 46%N :: ds'
                | [] => []
                end in
    mant ++ [101%N; sign] ++ digits (Z.abs e).

Definition to_string (neg : bool) (x : double) : jsstring :=
  match x with
  | Zero => [48%N]
  | Infinity => (if neg then [45%N] else []) ++ js "Infinity"
  | Finite f p =>
      let '(num, den) := if 0 <=? p then (f * 2 ^ p, 1) else (f, 2 ^ (- p)) in
      let n := decimal_exponent num den in
      let '(s, k) := shortest 17 f p num den n 1 in
      let ds0 := digits s in
      let ds := rev (drop_zeros (rev ds0)) in
      (if neg then [45%N] else [])
      ++ layout ds (n + Z.of_nat (length ds0) - k)
  end.

End Num.

(** ** Regular expressions

    The two patterns of [tools.ts] are regular-expression literals; they are
    embedded as syntax trees and run by a backtracking matcher with the
    priorities of the ECMAScript semantics: alternatives left to right, a
    greedy star tries another iteration before the continuation, a lazy star
    tries the continuation first, and an iteration that consumes nothing is
    rejected.  Neither pattern has anchors, look-around or back-references. *)

Module Regex.

Inductive citem :=
| One (c : N)          (* a single pattern character *)
| Space                (* \s *)
| Word.                (* \w *)

Inductive regex :=
| Eps                               (* the empty pattern *)
| Lit (c : N)                       (* a pattern character *)
| Dot                               (* . under the s flag *)
| Class (cs : list citem)           (* [...] or a class escape *)
| Seq (r1 r2 : regex)
| Alt (r1 r2 : regex)
| Star (greedy : bool) (r : regex)  (* r* and r*? *)
| Group (n : nat) (r : regex).      (* the n-th capturing parenthesis *)

(** [r+] for a group-free [r] *)
Definition Plus (r : regex) : regex := Seq r (Star true r).

(** A sequence of patterns *)
Definition Cat (rs : list regex) : regex := foldr Seq Eps rs.

(** A run of pattern characters *)
Definition Text (s : jsstring) : regex := Cat (map Lit s).

Definition in_item (i : citem) (c : N) : bool :=
  match i with
  | One x => c =? x
  | Space => is_js_space c
  | Word => is_word c
  end.

Definition in_class (cs : list citem) (c : N) : bool :=
  existsb (fun i => in_item i c) cs.

(** Captures, indexed by group number; index 0 is unused. *)
Definition captures := list (option jsstring).

Section Matcher.
Context {A : Type}.

Definition orElse (x : option A) (y : unit -> option A) : option A :=
  match x with
  | Some a => Some a
  | None => y tt
  end.

(** What remains to be matched after a pattern: it receives the rest of
    the input and the captures so far. *)
Definition continuation := jsstring -> captures -> option A.

Definition matcher := jsstring -> captures -> continuation -> option A.

(** The iterations of a star.  Each iteration consumes a code unit at
    least, so [S (length s)] rounds suffice. *)
Fixpoint iterate (greedy : bool) (body : matcher) (k : continuation)
    (fuel : nat) (s : jsstring) (caps : captures) : option A :=
  match fuel with
  | O => None
  | S fuel' =>
      let again (_ : unit) :=
        body s caps
          (fun s1 c1 =>
             if (length s1 <? length s)%nat
             then iterate greedy body k fuel' s1 c1 else None) in
      if greedy then orElse (again tt) (fun _ => k s caps)
      else orElse (k s caps) again
  end.

Fixpoint rmatch (r : regex) : matcher :=
  fun s caps k =>
    match r with
    | Eps => k s caps
    | Lit c =>
        match s with
        | x :: s' => if x =? c then k s' caps else None
        | [] => None
        end
    | Dot =>
        match s with
        | _ :: s' => k s' caps
        | [] => None
        end
    | Class cs =>
        match s with
        | x :: s' => if in_class cs x then k s' caps else None
        | [] => None
        end
    | Seq r1 r2 => rmatch r1 s caps (fun s1 c1 => rmatch r2 s1 c1 k)
    | Alt r1 r2 => orElse (rmatch r1 s caps k) (fun _ => rmatch r2 s caps k)
    | Group n r1 =>
        rmatch r1 s caps
          (fun s1 c1 =>
             k s1 (<[n := Some (take (length s - length s1) s)]> c1))
    | Star greedy r1 => iterate greedy (rmatch r1) k (S (length s)) s caps
    end.

End Matcher.

(** One match: the text before it, the matched text, the captures and the
    text after it. *)
Record found := {
  before : jsstring;
  matched : jsstring;
  groups : captures;
  after : jsstring
}.

(** Match [r] at the start of [s]. *)
Definition exec_here (ngroups : nat) (r : regex) (s : jsstring)
    : option found :=
  rmatch r s (replicate (S ngroups) None)
    (fun s1 c1 =>
       Some {| before := [];
               matched := take (length s - length s1) s;
               groups := c1;
               after := s1 |}).

(** The leftmost match of [r] in [s]: every start index from 0 to the
    length of [s] is tried in turn. *)
Fixpoint search (ngroups : nat) (r : regex) (s : jsstring) : option found :=
  match exec_here ngroups r s with
  | Some m => Some m
  | None =>
      match s with
      | [] => None
      | c :: s' =>
          match search ngroups r s' with
          | Some m =>
              Some {| before := c :: before m; matched := matched m;
                      groups := groups m; after := after m |}
          | None => None
          end
      end
  end.

(** All matches of a global ([g]) pattern, left to right: the search
    resumes where the previous match ended, one code unit further after an
    empty match.  [before] is the text between the previous match and this
    one. *)
Fixpoint all_matches_from (fuel : nat) (ngroups : nat) (r : regex)
    (s : jsstring) : list found :=
  match fuel with
  | O => []
  | S fuel' =>
      match search ngroups r s with
      | None => []
      | Some m =>
          m :: match matched m, after m with
               | [], [] => []
               | [], _ :: rest => all_matches_from fuel' ngroups r rest
               | _ :: _, rest => all_matches_from fuel' ngroups r rest
               end
      end
  end.

Definition all_matches (ngroups : nat) (r : regex) (s : jsstring)
    : list found :=
  all_matches_from (S (length s)) ngroups r s.

(** [s.matchAll(r)] spread into an array: per match, the array
    [[m[0], m[1], ...]]. *)
Definition matchAll (ngroups : nat) (r : regex) (s : jsstring)
    : list (list (option jsstring)) :=
  map (fun m => <[0%nat := Some (matched m)]> (groups m))
      (all_matches ngroups r s).

(** [s.match(r)] for a global pattern: [null] without a match, otherwise
    the array of the matched texts, without any capture. *)
Definition match_global (ngroups : nat) (r : regex) (s : jsstring)
    : option (list jsstring) :=
  match all_matches ngroups r s with
  | [] => None
  | ms => Some (map matched ms)
  end.

(** [s.replace(r, f)] for a global pattern and a replacer function
    [f(match, p1, ...)]. *)
Fixpoint replace_from (fuel : nat) (ngroups : nat) (r : regex)
    (f : jsstring -> captures -> jsstring) (s : jsstring) : jsstring :=
  match fuel with
  | O => s
  | S fuel' =>
      match search ngroups r s with
      | None => s
      | Some m =>
          before m ++ f (matched m) (groups m)
          ++ match matched m, after m with
             | [], [] => []
             | [], c :: rest => c :: replace_from fuel' ngroups r f rest
             | _ :: _, rest => replace_from fuel' ngroups r f rest
             end
      end
  end.

Definition replace (ngroups : nat) (r : regex)
    (f : jsstring -> captures -> jsstring) (s : jsstring) : jsstring :=
  replace_from (S (length s)) ngroups r f s.

End Regex.

(** ** JSON values, [JSON.parse] and [JSON.stringify] *)

#[warnings="-register-all"] Inductive JValue :=
| JNull
| JBool (b : bool)
| JNumber (neg : bool) (x : Num.double)
| JString (s : jsstring)
| JArray (items : list JValue)
| JObject (props : list (jsstring * JValue)).

(** Properties of an object are kept in creation order. *)
Definition object := list (jsstring * JValue).

Fixpoint obj_get (k : jsstring) (o : object) : option JValue :=
  match o with
  | [] => None
  | (k', v) :: o' => if jseq k' k then Some v else obj_get k o'
  end.

(** [o[k] = v]: an existing property keeps its place. *)
Fixpoint obj_set (k : jsstring) (v : JValue) (o : object) : object :=
  match o with
  | [] => [(k, v)]
  | (k', v') :: o' =>
      if jseq k' k then (k', v) :: o' else (k', v') :: obj_set k v o'
  end.

(** ToBoolean *)
Definition truthy (v : JValue) : bool :=
  match v with
  | JNull => false
  | JBool b => b
  | JNumber _ Num.Zero => false
  | JNumber _ _ => true
  | JString [] => false
  | JString _ => true
  | JArray _ | JObject _ => true
  end.

Module Json.

Definition is_ws (c : N) : bool :=
  (c =? 9) || (c =? 10) || (c =? 13) || (c =? 32).

Fixpoint skip_ws (s : jsstring) : jsstring :=
  match s with
  | c :: s' => if is_ws c then skip_ws s' else s
  | [] => []
  end.

Definition is_digit (c : N) : bool := (48 <=? c) && (c <=? 57).

Definition hex_value (c : N) : option N :=
  if is_digit c then Some (c - 48)
  else if (65 <=? c) && (c <=? 70) then Some (c - 55)
  else if (97 <=? c) && (c <=? 102) then Some (c - 87)
  else None.

Definition hex4 (a b c d : N) : option N :=
  match hex_value a, hex_value b, hex_value c, hex_value d with
  | Some x, Some y, Some z, Some w => Some (x * 4096 + y * 256 + z * 16 + w)
  | _, _, _, _ => None
  end.

Definition escape (e : N) : option N :=
  if e =? 34 then Some 34          (* quotation mark *)
  else if e =? 92 then Some 92     (* reverse solidus *)
  else if e =? 47 then Some 47     (* solidus *)
  else if e =? 98 then Some 8      (* b: backspace *)
  else if e =? 102 then Some 12    (* f: form feed *)
  else if e =? 110 then Some 10    (* n: line feed *)
  else if e =? 114 then Some 13    (* r: carriage return *)
  else if e =? 116 then Some 9     (* t: tab *)
  else None.

(** The characters of a string literal after its opening quote, up to and
    including the closing quote. *)
Fixpoint parse_chars (s : jsstring) : option (jsstring * jsstring) :=
  match s with
  | [] => None
  | c :: s' =>
      if c =? 34 then Some ([], s')
      else if c =? 92 then
        match s' with
        | [] => None
        | e :: s'' =>
            if e =? 117 then
              match s'' with
              | h1 :: h2 :: h3 :: h4 :: s3 =>
                  match hex4 h1 h2 h3 h4 with
                  | Some u =>
                      match parse_chars s3 with
                      | Some (t, rest) => Some (u :: t, rest)
                      | None => None
                      end
                  | None => None
                  end
              | _ => None
              end
            else
              match escape e with
              | Some u =>
                  match parse_chars s'' with
                  | Some (t, rest) => Some (u :: t, rest)
                  | None => None
                  end
              | None => None
              end
        end
      else if c <? 32 then None
      else
        match parse_chars s' with
        | Some (t, rest) => Some (c :: t, rest)
        | None => None
        end
  end.

Fixpoint take_digits (s : jsstring) : jsstring * jsstring :=
  match s with
  | c :: s' =>
      if is_digit c
      then let '(ds, rest) := take_digits s' in (c :: ds, rest)
      else ([], s)
  | [] => ([], [])
  end.

Definition digits_value (ds : jsstring) : Z :=
  fold_left (fun acc d => (acc * 10 + (Z.of_N d - 48))%Z) ds 0%Z.

(** An optional minus sign. *)
Definition number_sign (s : jsstring) : bool * jsstring :=
  match s with
  | 45 :: s' => (true, s')
  | _ => (false, s)
  end.

(** [int]: a single 0, or a digit run without a leading 0. *)
Definition number_int (s : jsstring) : option (jsstring * jsstring) :=
  match s with
  | [] => None
  | d :: s' =>
      if is_digit d then
        if d =? 48 then Some ([d], s')
        else let '(ds, rest) := take_digits s' in Some (d :: ds, rest)
      else None
  end.

(** [frac]: nothing, or a point and at least one digit. *)
Definition number_frac (s : jsstring) : option (jsstring * jsstring) :=
  match s with
  | 46 :: s' =>
      match take_digits s' with
      | ([], _) => None
      | (fs, rest) => Some (fs, rest)
      end
  | _ => Some ([], s)
  end.

(** [exp]: nothing, or [e] or [E], an optional sign and at least one
    digit. *)
Definition number_exp (s : jsstring) : option (Z * jsstring) :=
  match s with
  | c :: s' =>
      if (c =? 101) || (c =? 69) then
        let '(eneg, s1) := match s' with
                           | 45 :: r => (true, r)
                           | 43 :: r => (false, r)
                           | _ => (false, s')
                           end in
        match take_digits s1 with
        | ([], _) => None
        | (es, rest) =>
            let e := digits_value es in
            Some ((if eneg then - e else e)%Z, rest)
        end
      else Some (0%Z, s)
  | [] => Some (0%Z, s)
  end.

(** [-? int frac? exp?] *)
Definition parse_number (s : jsstring) : option (JValue * jsstring) :=
  let '(neg, s1) := number_sign s in
  match number_int s1 with
  | None => None
  | Some (int, s2) =>
      match number_frac s2 with
      | None => None
      | Some (fs, s3) =>
          match number_exp s3 with
          | None => None
          | Some (e, s4) =>
              Some (JNumber neg
                      (Num.of_decimal (digits_value (int ++ fs))
                         (e - Z.of_nat (length fs))%Z),
                    s4)
          end
      end
  end.

Definition parse_word (w : jsstring) (v : JValue) (s : jsstring)
    : option (JValue * jsstring) :=
  if startsWith w s then Some (v, drop (length w) s) else None.

(** A value at the start of [s] (no leading white space), and what follows
    it.  [parse_elements] and [parse_members] start at the first element
    or member, after the white space that follows the opening bracket. *)
Fixpoint parse_value (fuel : nat) (s : jsstring)
    : option (JValue * jsstring) :=
  match fuel with
  | O => None
  | S fuel' =>
      match s with
      | [] => None
      | c :: s' =>
          if c =? 123 then                        (* { *)
            match skip_ws s' with
            | 125 :: rest => Some (JObject [], rest)
            | s1 => parse_members fuel' s1 []
            end
          else if c =? 91 then                    (* [ *)
            match skip_ws s' with
            | 93 :: rest => Some (JArray [], rest)
            | s1 => parse_elements fuel' s1 []
            end
          else if c =? 34 then
            match parse_chars s' with
            | Some (t, rest) => Some (JString t, rest)
            | None => None
            end
          else if c =? 116 then parse_word (js "true") (JBool true) s
          else if c =? 102 then parse_word (js "false") (JBool false) s
          else if c =? 110 then parse_word (js "null") JNull s
          else parse_number s
      end
  end
with parse_elements (fuel : nat) (s : jsstring) (acc : list JValue)
    : option (JValue * jsstring) :=
  match fuel with
  | O => None
  | S fuel' =>
      match parse_value fuel' s with
      | None => None
      | Some (v, s1) =>
          match skip_ws s1 with
          | 44 :: s2 => parse_elements fuel' (skip_ws s2) (acc ++ [v])
          | 93 :: s2 => Some (JArray (acc ++ [v]), s2)
          | _ => None
          end
      end
  end
with parse_members (fuel : nat) (s : jsstring) (acc : object)
    : option (JValue * jsstring) :=
  match fuel with
  | O => None
  | S fuel' =>
      match s with
      | 34 :: s0 =>
          match parse_chars s0 with
          | None => None
          | Some (key, s1) =>
              match skip_ws s1 with
              | 58 :: s2 =>
                  match parse_value fuel' (skip_ws s2) with
                  | None => None
                  | Some (v, s3) =>
                      match skip_ws s3 with
                      | 44 :: s4 =>
                          parse_members fuel' (skip_ws s4) (obj_set key v acc)
                      | 125 :: s4 => Some (JObject (obj_set key v acc), s4)
                      | _ => None
                      end
                  end
              | _ => None
              end
          end
      | _ => None
      end
  end.

(** [JSON.parse(s)]; [None] stands for the [SyntaxError] it throws.  Every
    nested call consumes a code unit at least every second level, so the
    fuel never runs out. *)
Definition parse (s : jsstring) : option JValue :=
  match parse_value (2 * length s + 1) (skip_ws s) with
  | Some (v, rest) =>
      match skip_ws rest with
      | [] => Some v
      | _ :: _ => None
      end
  | None => None
  end.

Definition hex_digit (n : N) : N := if n <? 10 then 48 + n else 87 + n.

(** [\uXXXX] with lower-case digits *)
Definition unicode_escape (c : N) : jsstring :=
  [92; 117; hex_digit (c / 4096); hex_digit (c / 256 mod 16);
   hex_digit (c / 16 mod 16); hex_digit (c mod 16)].

Definition is_high (c : N) : bool := (55296 <=? c) && (c <=? 56319).
Definition is_low (c : N) : bool := (56320 <=? c) && (c <=? 57343).

Definition quote_unit (c : N) : jsstring :=
  if c =? 34 then [92; 34]
  else if c =? 92 then [92; 92]
  else if c =? 8 then [92; 98]
  else if c =? 12 then [92; 102]
  else if c =? 10 then [92; 110]
  else if c =? 13 then [92; 114]
  else if c =? 9 then [92; 116]
  else if c <? 32 then unicode_escape c
  else [c].

(** QuoteJSONString without the quotes: a surrogate outside a pair is
    escaped. *)
Fixpoint quote_units (s : jsstring) : jsstring :=
  match s with
  | [] => []
  | c :: s' =>
      if is_high c then
        match s' with
        | d :: s'' =>
            if is_low d then c :: d :: quote_units s''
            else unicode_escape c ++ quote_units s'
        | [] => unicode_escape c
        end
      else if is_low c then unicode_escape c ++ quote_units s'
      else quote_unit c ++ quote_units s'
  end.

Definition quote (s : jsstring) : jsstring := [34] ++ quote_units s ++ [34].

(** A canonical array index: property keys of this form are enumerated
    first, in numeric order. *)
Definition array_index (k : jsstring) : option N :=
  match k with
  | [] => None
  | d :: ds =>
      if forallb is_digit k && (negb (d =? 48) || bool_decide (ds = []))
      then let n := Z.to_N (digits_value k) in
           if n <? 4294967295 then Some n else None
      else None
  end.

Fixpoint insert_index {A} (n : N) (x : A) (l : list (N * A)) : list (N * A) :=
  match l with
  | [] => [(n, x)]
  | (m, y) :: l' =>
      if n <? m then (n, x) :: l else (m, y) :: insert_index n x l'
  end.

(** Own property keys in enumeration order. *)
Definition enumerate {A} (o : list (jsstring * A)) : list (jsstring * A) :=
  let indexed :=
    foldr (fun kv acc => match array_index kv.1 with
                         | Some n => insert_index n kv acc
                         | None => acc
                         end) [] o in
  map snd indexed
  ++ filter (fun kv => array_index kv.1 = None) o.

(** [JSON.stringify(v)] for a value made by [JSON.parse]. *)
Fixpoint stringify (v : JValue) : jsstring :=
  match v with
  | JNull => js "null"
  | JBool true => js "true"
  | JBool false => js "false"
  | JNumber _ Num.Infinity => js "null"
  | JNumber neg x => Num.to_string neg x
  | JString s => quote s
  | JArray items => [91] ++ join [44] (map stringify items) ++ [93]
  | JObject props =>
      [123]
      ++ join [44]
           (map (fun kv => quote kv.1 ++ [58] ++ kv.2)
              (enumerate (map (fun kv => (kv.1, stringify kv.2)) props)))
      ++ [125]
  end.

End Json.

(** ** Configuration and request types

    [app/core/config.ts] and [app/models/schemas.ts] are not part of the
    embedded files; the configuration is a parameter of everything below and
    the message and tool shapes follow the TypeScript interfaces that
    [tools.ts] declares and uses. *)

Record Config := {
  PRIMARY_MODEL : jsstring;
  THINKING_MODEL : jsstring;
  SEARCH_MODEL : jsstring;
  AIR_MODEL : jsstring;
  PRIMARY_MODEL_NEW : jsstring;
  THINKING_MODEL_NEW : jsstring;
  SEARCH_MODEL_NEW : jsstring;
  TOOL_SUPPORT : bool;
  SCAN_LIMIT : Z;
  SKIP_AUTH_TOKEN : bool;
  AUTH_TOKEN : jsstring
}.

(** An element of a structured message content. *)
Inductive ContentPart :=
| TextPart (text : option jsstring)   (* { type: "text", text } *)
| StringPart (s : jsstring)           (* a bare string *)
| OtherPart.                          (* anything else *)

Inductive Content :=
| NoContent                           (* undefined, null *)
| Plain (s : jsstring)
| Parts (ps : list ContentPart).

Record Message := {
  role : jsstring;
  content : Content;
  name : option jsstring;
  reasoning_content : option jsstring
}.

Record ParamDetails := {
  param_type : option jsstring;
  param_description : option jsstring
}.

Record Parameters := {
  properties : option (list (jsstring * ParamDetails));
  required : option (list jsstring)
}.

Record ToolFunction := {
  function_name : jsstring;
  description : option jsstring;
  parameters : option Parameters
}.

Record Tool := {
  tool_type : jsstring;
  tool_function : option ToolFunction
}.

(** [tool_choice]: absent, a string, or an object
    [{ type, function: { name } }]. *)
Inductive ToolChoice :=
| NoChoice
| ChoiceString (s : jsstring)
| ChoiceObject (type : option jsstring) (fname : option jsstring).

Definition nl : jsstring := [10].

(** A source string whose double quotes are written as apostrophes here. *)
Definition jsq (s : string) : jsstring :=
  map (fun c => if c =? 39 then 34 else c) (js s).

Arguments jsq : simpl never.

(** ** [app/utils/tools.ts] *)

(** [content || ""] *)
Definition or_empty (c : Content) : Content :=
  match c with
  | NoContent => Plain []
  | _ => c
  end.

Definition part_strings (p : ContentPart) : list jsstring :=
  match p with
  | TextPart text => [or_else text []]
  | StringPart s => [s]
  | OtherPart => []
  end.

Definition contentToString (c : Content) : jsstring :=
  match c with
  | Plain s => s
  | Parts ps => join (js " ") (flat_map part_strings ps)
  | NoContent => []
  end.

Definition parameter_line (required : list jsstring)
    (entry : jsstring * ParamDetails) : jsstring :=
  let '(paramName, paramDetails) := entry in
  let paramType := or_else (param_type paramDetails) (js "unknown") in
  let paramDesc := or_else (param_description paramDetails) [] in
  let requirementFlag :=
    if bool_decide (paramName ∈ required)
    then js "**Required**" else js "*Optional*" in
  js "- `" ++ paramName ++ js "` (" ++ paramType ++ js ") - "
  ++ requirementFlag ++ js ": " ++ paramDesc.

Definition tool_definition (tool : Tool) : list jsstring :=
  if negb (jseq (tool_type tool) (js "function")) then []
  else
    match tool_function tool with
    | None => []
    | Some functionSpec =>
        let functionName :=
          or_else (Some (function_name functionSpec)) (js "unknown") in
        let functionDescription := or_else (description functionSpec) [] in
        let toolInfo :=
          [js "## " ++ functionName;
           js "**Purpose**: " ++ functionDescription] in
        let toolInfo :=
          match parameters functionSpec with
          | Some {| properties := Some parameterProperties;
                    required := req |} =>
              match parameterProperties with
              | [] => toolInfo
              | _ :: _ =>
                  toolInfo ++ [js "**Parameters**:"]
                  ++ map (parameter_line (default [] req))
                       parameterProperties
              end
          | _ => toolInfo
          end in
        [join nl toolInfo]
    end.

Definition usage_instructions : jsstring :=
  nl ++ nl ++ js "# USAGE INSTRUCTIONS" ++ nl
  ++ js "When you need to execute a function, respond ONLY with a JSON object containing tool_calls:" ++ nl
  ++ js "```json" ++ nl
  ++ js "{" ++ nl
  ++ jsq "  'tool_calls': [" ++ nl
  ++ js "    {" ++ nl
  ++ jsq "      'id': 'call_xxx'," ++ nl
  ++ jsq "      'type': 'function'," ++ nl
  ++ jsq "      'function': {" ++ nl
  ++ jsq "        'name': 'function_name'," ++ nl
  ++ jsq "        'arguments': '{\'param1\': \'value1\'}'" ++ nl
  ++ js "      }" ++ nl
  ++ js "    }" ++ nl
  ++ js "  ]" ++ nl
  ++ js "}" ++ nl
  ++ js "```" ++ nl
  ++ js "Important: No explanatory text before or after the JSON. The 'arguments' field must be a JSON string, not an object." ++ nl.

Definition generateToolPrompt (tools : list Tool) : jsstring :=
  match tools with
  | [] => []
  | _ :: _ =>
      let toolDefinitions := flat_map tool_definition tools in
      match toolDefinitions with
      | [] => []
      | _ :: _ =>
          nl ++ nl ++ js "# AVAILABLE FUNCTIONS" ++ nl
          ++ join (nl ++ nl ++ js "---" ++ nl) toolDefinitions
          ++ usage_instructions
      end
  end.

Definition with_content (m : Message) (c : jsstring) : Message :=
  {| role := role m; content := Plain c; name := name m;
     reasoning_content := reasoning_content m |}.

Definition is_role (r : string) (m : Message) : bool := jseq (role m) (js r).

(** Append [hint] to the content of the last message if it is a user
    message. *)
Definition hint_last_user (hint : jsstring) (processed : list Message)
    : list Message :=
  match processed !! pred (length processed) with
  | Some lastMsg =>
      if is_role "user" lastMsg then
        <[pred (length processed) :=
            with_content lastMsg
              (contentToString (or_empty (content lastMsg)) ++ hint)]>
          processed
      else processed
  | None => processed
  end.

(** The second loop of [processMessagesWithTools], on one message.  The
    test [typeof toolContent === "object"] of the source can never hold,
    [contentToString] returning a string. *)
Definition normalize_role (m : Message) : Message :=
  if is_role "tool" m || is_role "function" m then
    let toolName := or_else (name m) (js "unknown") in
    let toolContent := contentToString (or_empty (content m)) in
    let content :=
      js "工具 " ++ toolName ++ js " 返回结果:" ++ nl ++ js "```json" ++ nl
      ++ toolContent ++ nl ++ js "```" in
    let content :=
      match trim content with
      | [] => js "工具 " ++ toolName ++ js " 执行完成"
      | _ :: _ => content
      end in
    {| role := js "assistant"; content := Plain content;
       name := None; reasoning_content := None |}
  else with_content m (contentToString (or_empty (content m))).

(** [toolChoice === s] *)
Definition is_choice (s : string) (toolChoice : ToolChoice) : bool :=
  match toolChoice with
  | ChoiceString c => jseq c (js s)
  | _ => false
  end.

Definition processMessagesWithTools (config : Config)
    (messages : list Message) (tools : option (list Tool))
    (toolChoice : ToolChoice) : list Message :=
  let processed :=
    match tools with
    | Some tools' =>
        if TOOL_SUPPORT config
           && negb (is_choice "none" toolChoice)
        then
          let toolsPrompt := generateToolPrompt tools' in
          let hasSystem := existsb (is_role "system") messages in
          let processed :=
            if hasSystem then
              map (fun m =>
                     if is_role "system" m
                     then with_content m
                            (contentToString (or_empty (content m))
                             ++ toolsPrompt)
                     else m) messages
            else
              {| role := js "system";
                 content := Plain (js "你是一个有用的助手。" ++ toolsPrompt);
                 name := None; reasoning_content := None |} :: messages in
          match toolChoice with
          | ChoiceString _ =>
              if is_choice "required" toolChoice
                 || is_choice "auto" toolChoice
              then hint_last_user
                     (nl ++ nl ++ js "请根据需要使用提供的工具函数。")
                     processed
              else processed
          | ChoiceObject (Some type) (Some (c :: fname)) =>
              if jseq type (js "function")
              then hint_last_user
                     (nl ++ nl ++ js "请使用 " ++ (c :: fname)
                      ++ js " 函数来处理这个请求。")
                     processed
              else processed
          | _ => processed
          end
        else messages
    | None => messages
    end in
  map normalize_role processed.

(** *** Tool extraction patterns *)

(** [/```json\s*(\{.*?\})\s*```/gs] *)
Definition TOOL_CALL_FENCE_PATTERN : Regex.regex :=
  Regex.Cat
    [Regex.Text (js "```json");
     Regex.Star true (Regex.Class [Regex.Space]);
     Regex.Group 1
       (Regex.Cat [Regex.Lit (ch "{"); Regex.Star false Regex.Dot;
                   Regex.Lit (ch "}")]);
     Regex.Star true (Regex.Class [Regex.Space]);
     Regex.Text (js "```")].

(** [/调用函数\s*[：:]\s*([\w\-\.]+)\s*(?:参数|arguments)[：:]\s*(\{.*?\})/gs] *)
Definition FUNCTION_CALL_PATTERN : Regex.regex :=
  let colon := Regex.Class (map Regex.One (js "：:")) in
  let spaces := Regex.Star true (Regex.Class [Regex.Space]) in
  Regex.Cat
    [Regex.Text (js "调用函数"); spaces; colon; spaces;
     Regex.Group 1
       (Regex.Plus
          (Regex.Class [Regex.Word; Regex.One (ch "-"); Regex.One (ch ".")]));
     spaces;
     Regex.Alt (Regex.Text (js "参数")) (Regex.Text (js "arguments"));
     colon; spaces;
     Regex.Group 2
       (Regex.Cat [Regex.Lit (ch "{"); Regex.Star false Regex.Dot;
                   Regex.Lit (ch "}")])].

(** *** Exceptions

    A statement either completes normally or throws; a [try] with an
    empty or [continue]-only handler maps every throw to its handler. *)

Inductive Error := TypeError | SyntaxError.

Inductive completion (A : Type) :=
| Returns (a : A)
| Throws (e : Error).
Arguments Returns {A} a.
Arguments Throws {A} e.

Definition bind {A B} (c : completion A) (f : A -> completion B)
    : completion B :=
  match c with
  | Returns a => f a
  | Throws e => Throws e
  end.

(** [try { c } catch { handler }] *)
Definition try_catch {A} (c : completion A) (handler : A) : A :=
  match c with
  | Returns a => a
  | Throws _ => handler
  end.

Fixpoint for_each {A B} (f : A -> completion B) (l : list A)
    : completion (list B) :=
  match l with
  | [] => Returns []
  | x :: l' =>
      bind (f x) (fun y => bind (for_each f l') (fun ys => Returns (y :: ys)))
  end.

(** [JSON.parse(s)] where [s] may be [undefined] *)
Definition JSON_parse (s : option jsstring) : completion JValue :=
  match s with
  | Some s' =>
      match Json.parse s' with
      | Some v => Returns v
      | None => Throws SyntaxError
      end
  | None => Throws SyntaxError
  end.

(** [v[k]] for a property name [k] that no built-in prototype defines, as
    are [tool_calls], [function] and [arguments]: the own property of an
    object, [undefined] ([None]) on any other value but [null], where the
    access throws. *)
Definition get (v : JValue) (k : string) : completion (option JValue) :=
  match v with
  | JNull => Throws TypeError
  | JObject o => Returns (obj_get (js k) o)
  | _ => Returns None
  end.

(** [k in v], likewise *)
Definition has (k : string) (v : JValue) : completion bool :=
  match v with
  | JObject o => Returns (bool_decide (is_Some (obj_get (js k) o)))
  | JArray _ => Returns false
  | _ => Throws TypeError
  end.

Definition is_string (v : JValue) : bool :=
  match v with
  | JString _ => true
  | _ => false
  end.

(** [typeof v === "object"] *)
Definition is_object (v : JValue) : bool :=
  match v with
  | JNull | JArray _ | JObject _ => true
  | _ => false
  end.

(** The body of the loop over [toolCalls]: [tc.function.arguments] is
    replaced by its JSON text when it is truthy and not a string; the
    entry is updated in place. *)
Definition ensure_string_arguments (tc : JValue) : completion JValue :=
  bind (get tc "function") (fun function =>
    match function with
    | Some func =>
        if truthy func then
          bind (get func "arguments") (fun arguments =>
            match arguments, func, tc with
            | Some args, JObject funcProps, JObject tcProps =>
                if truthy args then
                  if is_object args || negb (is_string args) then
                    Returns
                      (JObject
                         (obj_set (js "function")
                            (JObject
                               (obj_set (js "arguments")
                                  (JString (Json.stringify args))
                                  funcProps))
                            tcProps))
                  else Returns tc
                else Returns tc
            | _, _, _ => Returns tc
            end)
        else Returns tc
    | None => Returns tc
    end).

(** The body of the [try] blocks of attempts 1 and 2: the normalized
    [tool_calls] array of the JSON text, or nothing when the text has no
    such array. *)
Definition tool_calls_of (jsonStr : option jsstring)
    : completion (option (list JValue)) :=
  bind (JSON_parse jsonStr) (fun parsedData =>
  bind (get parsedData "tool_calls") (fun toolCalls =>
    match toolCalls with
    | Some (JArray calls) =>
        bind (for_each ensure_string_arguments calls) (fun calls' =>
          Returns (Some calls'))
    | _ => Returns None
    end)).

(** The inner [while] loop of the brace scanner.  [s] is the text from
    index [j] on; the result is the final [j] and [braceCount]. *)
Fixpoint scan_braces (s : jsstring) (j braceCount : nat)
    (inString escapeNext : bool) : nat * nat :=
  match s, braceCount with
  | [], _ => (j, braceCount)
  | _ :: _, O => (j, braceCount)
  | c :: s', S _ =>
      if escapeNext then
        scan_braces s' (S j) braceCount inString false
      else if c =? ch "\" then
        scan_braces s' (S j) braceCount inString true
      else if (c =? 34) && negb escapeNext then
        scan_braces s' (S j) braceCount (negb inString) escapeNext
      else if negb inString then
        if c =? ch "{" then
          scan_braces s' (S j) (S braceCount) inString escapeNext
        else if c =? ch "}" then
          scan_braces s' (S j) (pred braceCount) inString escapeNext
        else scan_braces s' (S j) braceCount inString escapeNext
      else scan_braces s' (S j) braceCount inString escapeNext
  end.

(** Attempt 1: the fenced blocks in turn. *)
Fixpoint extract_fenced (jsonBlocks : list (list (option jsstring)))
    : option (list JValue) :=
  match jsonBlocks with
  | [] => None
  | m :: rest =>
      match try_catch (tool_calls_of (mjoin (m !! 1%nat))) None with
      | Some toolCalls => Some toolCalls
      | None => extract_fenced rest
      end
  end.

(** Attempt 2: [s] is the text from index [i] on; [j] counts from [i]. *)
Fixpoint extract_inline (s : jsstring) : option (list JValue) :=
  match s with
  | [] => None
  | c :: s' =>
      if c =? ch "{" then
        let '(j, braceCount) := scan_braces s' 1 1 false false in
        let found :=
          match braceCount with
          | O => try_catch (tool_calls_of (Some (take j s))) None
          | S _ => None
          end in
        match found with
        | Some toolCalls => Some toolCalls
        | None => extract_inline s'
        end
      else extract_inline s'
  end.

(** Attempt 3.  [now] is [Date.now()].  The pattern is global, so
    [String.prototype.match] yields the array of all matched texts:
    index 1 is the second match, index 2 the third. *)
Definition extract_natural (now : Z) (s : jsstring)
    : completion (option (list JValue)) :=
  match Regex.match_global 2 FUNCTION_CALL_PATTERN s with
  | Some naturalLangMatch =>
      match naturalLangMatch !! 1%nat with
      | None => Throws TypeError
      | Some m1 =>
          let functionName := trim m1 in
          match naturalLangMatch !! 2%nat with
          | None => Throws TypeError
          | Some m2 =>
              let argumentsStr := trim m2 in
              try_catch
                (bind (JSON_parse (Some argumentsStr)) (fun _ =>
                   Returns
                     (Returns
                        (Some
                           [JObject
                              [(js "id",
                                JString
                                  (js "call_"
                                   ++ Num.to_string false
                                        (Num.of_decimal (now * 1000000) 0)));
                               (js "type", JString (js "function"));
                               (js "function",
                                JObject
                                  [(js "name", JString functionName);
                                   (js "arguments",
                                    JString argumentsStr)])]]))))
                (Returns None)
          end
      end
  | None => Returns None
  end.

(** [extractToolInvocations(text)]: [Returns None] is the [null] result. *)
Definition extractToolInvocations (config : Config) (now : Z)
    (text : jsstring)
    : completion (option (list JValue)) :=
  match text with
  | [] => Returns None
  | _ :: _ =>
      let scannableText := substring0 text (SCAN_LIMIT config) in
      let jsonBlocks :=
        Regex.matchAll 1 TOOL_CALL_FENCE_PATTERN scannableText in
      match extract_fenced jsonBlocks with
      | Some toolCalls => Returns (Some toolCalls)
      | None =>
          match extract_inline scannableText with
          | Some toolCalls => Returns (Some toolCalls)
          | None => extract_natural now scannableText
          end
      end
  end.

(** *** Removing tool JSON *)

Definition removeToolCallBlock (match_ : jsstring)
    (jsonContent : option jsstring) : jsstring :=
  try_catch
    (bind (JSON_parse jsonContent) (fun parsedData =>
     bind (has "tool_calls" parsedData) (fun carries =>
       Returns (if carries then [] else match_))))
    match_.

(** The [try] block of step 2 on a candidate text: it parses and the
    parsed object has a [tool_calls] property. *)
Definition carries_tool_calls (src : jsstring) : bool :=
  try_catch
    (bind (JSON_parse (Some src)) (fun parsed => has "tool_calls" parsed))
    false.

(** Step 2 of [removeToolJsonContent]: [s] is [cleanedText] from index
    [i] on, the result is what the loop appends to [result] from there.
    Each round advances [i], so as many rounds as [s] has code units
    suffice. *)
Fixpoint remove_inline (fuel : nat) (s : jsstring) : jsstring :=
  match fuel with
  | O => []
  | S fuel' =>
      match s with
      | [] => []
      | c :: s' =>
          if c =? ch "{" then
            let '(j, braceCount) := scan_braces s' 1 1 false false in
            let skip :=
              match braceCount with
              | O => carries_tool_calls (take j s)
              | S _ => false
              end in
            if skip then remove_inline fuel' (drop j s)
            else c :: remove_inline fuel' s'
          else c :: remove_inline fuel' s'
      end
  end.

Definition removeToolJsonContent (text : jsstring) : jsstring :=
  let cleanedText :=
    Regex.replace 1 TOOL_CALL_FENCE_PATTERN
      (fun match_ groups => removeToolCallBlock match_ (mjoin (groups !! 1%nat)))
      text in
  trim (remove_inline (length cleanedText) cleanedText).

(** *** Thinking prompt *)

Definition thinkingInstruction : jsstring :=
  nl ++ nl
  ++ js "在回答之前，请在 <thinking> 标签中进行思考分析：" ++ nl
  ++ js "- 仔细分析用户的问题和需求" ++ nl
  ++ js "- 考虑可能的解决方案和方法" ++ nl
  ++ js "- 评估答案的准确性和完整性" ++ nl
  ++ js "- 组织回答的结构和逻辑" ++ nl
  ++ nl
  ++ js "然后给出你的最终回答。请确保你的思考过程清晰且有条理。".

(** The loop of [addThinkingPromptToMessages]: the list with its first
    system message treated, or [None] when there is no system message. *)
Fixpoint add_to_first_system (messages : list Message)
    : option (list Message) :=
  match messages with
  | [] => None
  | m :: rest =>
      if is_role "system" m then
        let existingContent := contentToString (or_empty (content m)) in
        if negb (includes (js "<thinking>") existingContent)
        then Some (with_content m (existingContent ++ thinkingInstruction)
                   :: rest)
        else Some (m :: rest)
      else
        match add_to_first_system rest with
        | Some rest' => Some (m :: rest')
        | None => None
        end
  end.

Definition addThinkingPromptToMessages (messages : list Message)
    : list Message :=
  match add_to_first_system messages with
  | Some processedMessages => processedMessages
  | None =>
      {| role := js "system";
         content := Plain (js "你是一个有用的AI助手。" ++ thinkingInstruction);
         name := None; reasoning_content := None |} :: messages
  end.

Definition processMessagesWithThinking (config : Config)
    (messages : list Message) (tools : option (list Tool))
    (toolChoice : ToolChoice) (enableThinking : bool) : list Message :=
  let processedMessages :=
    processMessagesWithTools config messages tools toolChoice in
  if enableThinking then addThinkingPromptToMessages processedMessages
  else processedMessages.


(** ** [app/utils/model_mapper.ts] *)

Module ModelMapper.

Record Features := {
  enable_thinking : option bool;
  web_search : option bool;
  auto_web_search : option bool
}.

Record ModelMapping := {
  displayName : jsstring;
  upstreamModelId : jsstring;
  upstreamModelName : jsstring;
  features : Features;
  mcpServers : option (list jsstring);
  ownedBy : option jsstring;
  isBuiltin : bool;
  description : option jsstring
}.

(** [Partial<ModelMapping>], as [updateFromZAIModels] fills it *)
Record PartialMapping := {
  p_displayName : option jsstring;
  p_upstreamModelId : option jsstring;
  p_upstreamModelName : option jsstring;
  p_features : option Features;
  p_mcpServers : option (list jsstring);
  p_ownedBy : option jsstring;
  p_description : option jsstring
}.

(** [ZAIModel] of [model_fetcher.ts] *)
Record ZAIModel := {
  id : jsstring;
  name : option jsstring;
  display_name : option jsstring;
  owned_by : option jsstring
}.

Definition no_features : Features :=
  {| enable_thinking := None; web_search := None; auto_web_search := None |}.

Definition builtin (display upstreamId upstreamName : jsstring)
    (f : Features) (mcp : option (list jsstring)) (descr : jsstring)
    : ModelMapping :=
  {| displayName := display; upstreamModelId := upstreamId;
     upstreamModelName := upstreamName; features := f; mcpServers := mcp;
     ownedBy := Some (js "z.ai"); isBuiltin := true;
     description := Some descr |}.

Definition thinking : Features :=
  {| enable_thinking := Some true; web_search := None;
     auto_web_search := None |}.

Definition searching : Features :=
  {| enable_thinking := None; web_search := Some true;
     auto_web_search := Some true |}.

(** The object literal [BUILTIN_MODEL_MAPPINGS]: its computed keys are
    defined in source order, a later one replacing an equal earlier one. *)
Definition BUILTIN_MODEL_MAPPINGS (config : Config)
    : gmap jsstring ModelMapping :=
  <[SEARCH_MODEL_NEW config :=
      builtin (SEARCH_MODEL_NEW config) (js "GLM-4-6-API-V1")
        (js "GLM-4.6-Search") searching (Some [js "deep-web-search"])
        (js "GLM-4.6 搜索增强模型")]>
 (<[THINKING_MODEL_NEW config :=
      builtin (THINKING_MODEL_NEW config) (js "GLM-4-6-API-V1")
        (js "GLM-4.6-Thinking") thinking None (js "GLM-4.6 思维链模型")]>
 (<[PRIMARY_MODEL_NEW config :=
      builtin (PRIMARY_MODEL_NEW config) (js "GLM-4-6-API-V1")
        (js "GLM-4.6") no_features None (js "GLM-4.6 基础模型")]>
 (<[AIR_MODEL config :=
      builtin (AIR_MODEL config) (js "0727-106B-API") (js "GLM-4.5-Air")
        no_features None (js "GLM-4.5 轻量级模型")]>
 (<[SEARCH_MODEL config :=
      builtin (SEARCH_MODEL config) (js "0727-360B-API")
        (js "GLM-4.5-Search") searching (Some [js "deep-web-search"])
        (js "GLM-4.5 搜索增强模型")]>
 (<[THINKING_MODEL config :=
      builtin (THINKING_MODEL config) (js "0727-360B-API")
        (js "GLM-4.5-Thinking") thinking None (js "GLM-4.5 思维链模型")]>
 (<[PRIMARY_MODEL config :=
      builtin (PRIMARY_MODEL config) (js "0727-360B-API") (js "GLM-4.5")
        no_features None (js "GLM-4.5 基础模型")]> ∅)))))).

(** The state of the [ModelMappingManager] instance. *)
Record Manager := {
  dynamicMappings : gmap jsstring ModelMapping;
  lastUpdateTime : Z
}.

Definition initial : Manager :=
  {| dynamicMappings := ∅; lastUpdateTime := 0 |}.

Definition UPDATE_INTERVAL : Z := 5 * 60 * 1000.

(** [{ ...BUILTIN_MODEL_MAPPINGS, ...this.dynamicMappings }]: the later
    spread wins on a common key. *)
Definition getMappings (config : Config) (st : Manager)
    : gmap jsstring ModelMapping :=
  dynamicMappings st ∪ BUILTIN_MODEL_MAPPINGS config.

Definition addDynamicMapping (modelId : jsstring) (mapping : PartialMapping)
    (st : Manager) : Manager :=
  let fullMapping :=
    {| displayName := or_else (p_displayName mapping) modelId;
       upstreamModelId := or_else (p_upstreamModelId mapping) modelId;
       upstreamModelName := or_else (p_upstreamModelName mapping) modelId;
       features := default no_features (p_features mapping);
       mcpServers := Some (default [] (p_mcpServers mapping));
       ownedBy := Some (or_else (p_ownedBy mapping) (js "z.ai"));
       isBuiltin := false;
       description :=
         Some (or_else (p_description mapping)
                 (js "动态模型: " ++ modelId)) |} in
  {| dynamicMappings := <[modelId := fullMapping]> (dynamicMappings st);
     lastUpdateTime := lastUpdateTime st |}.

(** Property names that every plain object inherits from
    [Object.prototype] (Deno removes the [__proto__] accessor): indexing
    an object with one of them yields a function, not [undefined]. *)
Definition inherited_names : list jsstring :=
  map js ["constructor"; "hasOwnProperty"; "isPrototypeOf";
          "propertyIsEnumerable"; "toLocaleString"; "toString"; "valueOf";
          "__defineGetter__"; "__defineSetter__"; "__lookupGetter__";
          "__lookupSetter__"]%string.

(** The value of [o[k]] for a record [o] of mappings. *)
Inductive Indexed :=
| Own (m : ModelMapping)
| Inherited
| Undefined.

Definition index (o : gmap jsstring ModelMapping) (k : jsstring) : Indexed :=
  match o !! k with
  | Some m => Own m
  | None => if bool_decide (k ∈ inherited_names) then Inherited else Undefined
  end.

Definition is_defined (x : Indexed) : bool :=
  match x with
  | Undefined => false
  | _ => true
  end.

(** The body of the [for] loop of [updateFromZAIModels]. *)
Definition consider (config : Config) (mappedUpstreamIds : gset jsstring)
    (st : Manager) (model : ZAIModel) : Manager :=
  let modelId := id model in
  if bool_decide (modelId ∈ mappedUpstreamIds) then st
  else if is_defined (index (BUILTIN_MODEL_MAPPINGS config) modelId) then st
  else
    let shown := or_else (name model) (or_else (display_name model) modelId) in
    addDynamicMapping modelId
      {| p_displayName := Some shown;
         p_upstreamModelId := Some modelId;
         p_upstreamModelName := Some shown;
         p_features := None;
         p_mcpServers := None;
         p_ownedBy := Some (or_else (owned_by model) (js "z.ai"));
         p_description :=
           Some (js "Z.AI模型: " ++ or_else (name model) modelId) |}
      st.

(** [now] is [Date.now()].  The [upstreamModelMap] that the source builds
    is never read. *)
Definition updateFromZAIModels (config : Config) (now : Z)
    (zaiModels : list ZAIModel) (st : Manager) : Manager :=
  if (now - lastUpdateTime st <? UPDATE_INTERVAL)%Z then st
  else
    let mappedUpstreamIds : gset jsstring :=
      map_fold (fun _ mapping acc => {[upstreamModelId mapping]} ∪ acc)
        ∅ (BUILTIN_MODEL_MAPPINGS config) in
    let cleared :=
      {| dynamicMappings := ∅; lastUpdateTime := lastUpdateTime st |} in
    let filled :=
      foldl (consider config mappedUpstreamIds) cleared zaiModels in
    {| dynamicMappings := dynamicMappings filled; lastUpdateTime := now |}.

(** [allMappings[modelId] || null] *)
Definition getMappingByModelId (config : Config) (st : Manager)
    (modelId : jsstring) : Indexed :=
  index (getMappings config st) modelId.

Definition clearDynamicMappings (st : Manager) : Manager :=
  {| dynamicMappings := ∅; lastUpdateTime := 0 |}.

Record UpstreamConfig := {
  c_upstreamModelId : jsstring;
  c_upstreamModelName : jsstring;
  c_features : Features;
  c_mcpServers : list jsstring
}.

(** [getUpstreamConfig]: [None] is [null]; [Some None] is the object with
    [undefined] fields that an inherited function yields. *)
Definition getUpstreamConfig (config : Config) (st : Manager)
    (requestedModelId : jsstring) : option (option UpstreamConfig) :=
  match getMappingByModelId config st requestedModelId with
  | Undefined => None
  | Inherited => Some None
  | Own mapping =>
      Some (Some {| c_upstreamModelId := upstreamModelId mapping;
                    c_upstreamModelName := upstreamModelName mapping;
                    c_features := features mapping;
                    c_mcpServers := default [] (mcpServers mapping) |})
  end.

End ModelMapper.

(** ** The [/chat/completions] route of [app/core/openai.ts]

    The handler up to the point where the upstream is called.  Schema
    validation, id generation, the clock and the upstream token are
    external: the handler receives the validated request, the generated
    ids and the formatted date. *)

Module Route.

Record OpenAIRequest := {
  model : jsstring;
  messages : list Message;
  stream : bool;
  tools : option (list Tool);
  tool_choice : ToolChoice
}.

Record UpstreamMessage := {
  m_role : jsstring;
  m_content : jsstring;
  m_reasoning_content : option jsstring
}.

Record UpstreamFeatures := {
  enable_thinking : bool;
  web_search : bool;
  auto_web_search : bool
}.

Record ModelItem := {
  item_id : jsstring;
  item_name : jsstring;
  item_owned_by : jsstring
}.

Record UpstreamRequest := {
  u_stream : bool;
  u_chat_id : jsstring;
  u_id : jsstring;
  u_model : jsstring;
  u_messages : list UpstreamMessage;
  u_features : UpstreamFeatures;
  u_title_generation : bool;
  u_tags_generation : bool;
  u_mcp_servers : list jsstring;
  u_model_item : ModelItem;
  u_tool_servers : list jsstring;
  u_variables : list (jsstring * jsstring)
}.

(** What the handler does with a request. *)
Inductive Outcome :=
| Respond (status : Z) (error : jsstring)
| InternalError   (* status 500 with the text of the caught error *)
| CallUpstream (upstreamReq : UpstreamRequest) (hasTools : bool)
    (streaming : bool).

Definition authorized (config : Config) (authorization : option jsstring)
    : option Outcome :=
  if SKIP_AUTH_TOKEN config then None
  else
    match authorization with
    | Some (c :: a) =>
        if startsWith (js "Bearer ") (c :: a) then
          let apiKey := drop 7 (c :: a) in
          if jseq apiKey (AUTH_TOKEN config) then None
          else Some (Respond 401 (js "Invalid API key"))
        else Some (Respond 401 (js "Missing or invalid Authorization header"))
    | _ => Some (Respond 401 (js "Missing or invalid Authorization header"))
    end.

Definition to_upstream_message (msg : Message) : UpstreamMessage :=
  {| m_role := role msg;
     m_content := contentToString (content msg);
     m_reasoning_content := reasoning_content msg |}.

Definition chat_completions (config : Config) (st : ModelMapper.Manager)
    (authorization : option jsstring) (request : OpenAIRequest)
    (chatId msgId datetime : jsstring) : Outcome :=
  match authorized config authorization with
  | Some refusal => refusal
  | None =>
      let processedMessages :=
        processMessagesWithThinking config (messages request)
          (tools request) (tool_choice request) true in
      let upstreamMessages := map to_upstream_message processedMessages in
      match ModelMapper.getUpstreamConfig config st (model request) with
      | None =>
          Respond 400 (js "Unsupported model: " ++ model request)
      | Some None =>
          (* [features] is [undefined]: reading [features.web_search]
             throws, the outer [catch] answers *)
          InternalError
      | Some (Some upstreamConfig) =>
          let features := ModelMapper.c_features upstreamConfig in
          let upstreamReq :=
            {| u_stream := true;
               u_chat_id := chatId;
               u_id := msgId;
               u_model := ModelMapper.c_upstreamModelId upstreamConfig;
               u_messages := upstreamMessages;
               u_features :=
                 {| enable_thinking := true;
                    web_search :=
                      default false (ModelMapper.web_search features);
                    auto_web_search :=
                      default false (ModelMapper.auto_web_search features) |};
               u_title_generation := false;
               u_tags_generation := false;
               u_mcp_servers := ModelMapper.c_mcpServers upstreamConfig;
               u_model_item :=
                 {| item_id := ModelMapper.c_upstreamModelId upstreamConfig;
                    item_name :=
                      ModelMapper.c_upstreamModelName upstreamConfig;
                    item_owned_by := js "openai" |};
               u_tool_servers := [];
               u_variables :=
                 [(js "{{USER_NAME}}", js "User");
                  (js "{{USER_LOCATION}}", js "Unknown");
                  (js "{{CURRENT_DATETIME}}", datetime)] |} in
          let hasTools :=
            TOOL_SUPPORT config
            && match tools request with
               | Some (_ :: _) => true
               | _ => false
               end
            && negb (is_choice "none" (tool_choice request)) in
          CallUpstream upstreamReq hasTools (stream request)
      end
  end.

End Route.

(** ** The other methods and exports of [app/utils/model_mapper.ts] *)

Module ModelQueries.

Import ModelMapper.

(** [hasModel]: [getMappingByModelId(modelId) !== null] *)
Definition hasModel (config : Config) (st : Manager) (modelId : jsstring)
    : bool :=
  is_defined (getMappingByModelId config st modelId).

(** [keyof ModelMapping['features']] *)
Inductive Feature := EnableThinking | WebSearch | AutoWebSearch.

Definition feature (f : Features) (name : Feature) : option bool :=
  match name with
  | EnableThinking => enable_thinking f
  | WebSearch => web_search f
  | AutoWebSearch => auto_web_search f
  end.

(** [mapping?.features[feature] === true]: an inherited function has no
    [features], and indexing [undefined] throws. *)
Definition modelSupportsFeature (config : Config) (st : Manager)
    (modelId : jsstring) (name : Feature) : completion bool :=
  match getMappingByModelId config st modelId with
  | Undefined => Returns false
  | Inherited => Throws TypeError
  | Own mapping =>
      Returns match feature (features mapping) name with
              | Some true => true
              | _ => false
              end
  end.

(** [mapping?.mcpServers || []] *)
Definition getModelMcpServers (config : Config) (st : Manager)
    (modelId : jsstring) : list jsstring :=
  match getMappingByModelId config st modelId with
  | Own mapping => default [] (mcpServers mapping)
  | _ => []
  end.

(** *** Property order

    [Object.keys] and [Object.entries] list the own keys of an object with
    the array indices first, in numeric order, and the other keys in the
    order of their creation.  The maps above do not record that order; it
    is kept here beside them. *)

(** The keys of an object built by defining [l] in turn: a key defined
    again keeps its place. *)
Definition creation_order (l : list jsstring) : list jsstring :=
  foldl (fun acc k => if bool_decide (k ∈ acc) then acc else acc ++ [k]) [] l.

(** [Object.keys(o)] for an object whose keys were created in the order
    [created]. *)
Definition own_keys (created : list jsstring) : list jsstring :=
  map fst (Json.enumerate (map (fun k => (k, tt)) created)).

(** Creation order of the keys of [BUILTIN_MODEL_MAPPINGS]. *)
Definition BUILTIN_KEYS (config : Config) : list jsstring :=
  creation_order
    [PRIMARY_MODEL config; THINKING_MODEL config; SEARCH_MODEL config;
     AIR_MODEL config; PRIMARY_MODEL_NEW config; THINKING_MODEL_NEW config;
     SEARCH_MODEL_NEW config].

(** The manager together with the creation order of the keys of
    [dynamicMappings]. *)
Record Ordered := {
  state : Manager;
  dynamicKeys : list jsstring
}.

Definition initial_ordered : Ordered :=
  {| state := initial; dynamicKeys := [] |}.

(** The set [mappedUpstreamIds] of [updateFromZAIModels]. *)
Definition mappedUpstreamIds (config : Config) : gset jsstring :=
  map_fold (fun _ mapping acc => {[upstreamModelId mapping]} ∪ acc)
    ∅ (BUILTIN_MODEL_MAPPINGS config).

(** The models that the loop of [updateFromZAIModels] does not skip. *)
Definition mapped (config : Config) (model : ZAIModel) : bool :=
  negb (bool_decide (id model ∈ mappedUpstreamIds config))
  && negb (is_defined (index (BUILTIN_MODEL_MAPPINGS config) (id model))).

(** [updateFromZAIModels] with the key order: a refresh that runs creates
    the keys of the models it maps, in the order of the list. *)
Definition updateOrdered (config : Config) (now : Z)
    (zaiModels : list ZAIModel) (om : Ordered) : Ordered :=
  {| state := updateFromZAIModels config now zaiModels (state om);
     dynamicKeys :=
       if (now - lastUpdateTime (state om) <? UPDATE_INTERVAL)%Z
       then dynamicKeys om
       else creation_order (map id (filter (mapped config) zaiModels)) |}.

(** The keys of [{ ...BUILTIN_MODEL_MAPPINGS, ...this.dynamicMappings }] in
    the order of [Object.keys]: the spread defines the keys of each
    object in its own enumeration order. *)
Definition getAvailableModelIds (config : Config) (om : Ordered)
    : list jsstring :=
  own_keys
    (creation_order
       (own_keys (BUILTIN_KEYS config) ++ own_keys (dynamicKeys om))).

Record ZAIModelInfo := {
  info_name : jsstring;
  info_created_at : Z;
  info_user_id : jsstring;
  info_description : option jsstring;
  info_isBuiltin : bool;
  info_upstreamModelId : jsstring;
  info_upstreamModelName : jsstring
}.

(** A [ZAIModel] as [mappingsToZAIModels] and [getDefaultModels] build
    it. *)
Record ListedModel := {
  l_id : jsstring;
  l_name : jsstring;
  l_display_name : option jsstring;
  l_created : Z;
  l_owned_by : jsstring;
  l_info : option ZAIModelInfo
}.

Definition to_listed (currentTime : Z) (modelId : jsstring)
    (mapping : ModelMapping) : ListedModel :=
  {| l_id := modelId;
     l_name := displayName mapping;
     l_display_name := Some (displayName mapping);
     l_created := currentTime;
     l_owned_by := or_else (ownedBy mapping) (js "z.ai");
     l_info :=
       Some {| info_name := displayName mapping;
               info_created_at := currentTime;
               info_user_id := or_else (ownedBy mapping) (js "z.ai");
               info_description := description mapping;
               info_isBuiltin := isBuiltin mapping;
               info_upstreamModelId := upstreamModelId mapping;
               info_upstreamModelName := upstreamModelName mapping |} |}.

(** [mappingsToZAIModels]; [now] is [Date.now()]. *)
Definition mappingsToZAIModels (config : Config) (now : Z) (om : Ordered)
    : list ListedModel :=
  let allMappings := getMappings config (state om) in
  let currentTime := (now / 1000)%Z in
  omap (fun modelId =>
          to_listed currentTime modelId <$> allMappings !! modelId)
    (getAvailableModelIds config om).

End ModelQueries.

(** ** [app/utils/model_fetcher.ts] and the [/models] route

    The network is outside: [latestModels] is what [fetchLatestModels]
    resolved to, the empty list after any failure. *)

Module ModelFetcher.

Import ModelMapper ModelQueries.

(** [getDefaultModels]; [now] is [Date.now()]. *)
Definition getDefaultModels (config : Config) (now : Z) : list ListedModel :=
  let currentTime := (now / 1000)%Z in
  map (fun modelId =>
         {| l_id := modelId; l_name := modelId; l_display_name := None;
            l_created := currentTime; l_owned_by := js "z.ai";
            l_info := None |})
    [PRIMARY_MODEL config; THINKING_MODEL config; SEARCH_MODEL config;
     AIR_MODEL config; PRIMARY_MODEL_NEW config; THINKING_MODEL_NEW config;
     SEARCH_MODEL_NEW config].

(** [getAvailableModels]: [nowUpdate] and [nowList] are the readings of the
    clock in [updateFromZAIModels] and in [mappingsToZAIModels]. *)
Definition getAvailableModels (config : Config) (nowUpdate nowList : Z)
    (latestModels : list ZAIModel) (om : Ordered)
    : list ListedModel * Ordered :=
  let om' :=
    match latestModels with
    | [] => om
    | _ :: _ => updateOrdered config nowUpdate latestModels om
    end in
  (mappingsToZAIModels config nowList om', om').

End ModelFetcher.

Module ModelsRoute.

Import ModelQueries.

(** An entry of the [/models] response; its [object] is always ["model"]. *)
Record ModelEntry := {
  e_id : jsstring;
  e_created : Z;
  e_owned_by : jsstring
}.

(** The [/models] handler.  [available] is the outcome of
    [getAvailableModels], [None] when its promise was rejected; [later i]
    is the clock when entry [i] of the answer is built and [nowFallback]
    the clock in the [catch] block. *)
Definition models (config : Config) (available : option (list ListedModel))
    (later : nat -> Z) (nowFallback : Z) : list ModelEntry :=
  match available with
  | Some availableModels =>
      imap (fun i model =>
              {| e_id := l_id model;
                 e_created :=
                   if (l_created model =? 0)%Z then (later i / 1000)%Z
                   else l_created model;
                 e_owned_by := or_else (Some (l_owned_by model)) (js "z.ai") |})
        availableModels
  | None =>
      let currentTime := (nowFallback / 1000)%Z in
      map (fun modelId =>
             {| e_id := modelId; e_created := currentTime;
                e_owned_by := js "z.ai" |})
        [PRIMARY_MODEL config; THINKING_MODEL config; SEARCH_MODEL config;
         AIR_MODEL config; PRIMARY_MODEL_NEW config; THINKING_MODEL_NEW config;
         SEARCH_MODEL_NEW config]
  end.

End ModelsRoute.

(** ** A sample configuration

    The model names that the upstream service documents, used where a
    concrete configuration is needed. *)

Definition sample_config : Config :=
  {| PRIMARY_MODEL := js "GLM-4.5";
     THINKING_MODEL := js "GLM-4.5-Thinking";
     SEARCH_MODEL := js "GLM-4.5-Search";
     AIR_MODEL := js "GLM-4.5-Air";
     PRIMARY_MODEL_NEW := js "GLM-4.6";
     THINKING_MODEL_NEW := js "GLM-4.6-Thinking";
     SEARCH_MODEL_NEW := js "GLM-4.6-Search";
     TOOL_SUPPORT := true;
     SCAN_LIMIT := 200000;
     SKIP_AUTH_TOKEN := true;
     AUTH_TOKEN := js "sk-your-key" |}.

Definition message (r : string) (c : jsstring) : Message :=
  {| role := js r; content := Plain c; name := None;
     reasoning_content := None |}.

(** ** Vocabulary of the properties *)

(** A run of refreshes: [calls] lists, per call of [updateFromZAIModels],
    the value of [Date.now()] and the observed models. *)
Definition refreshes (config : Config)
    (calls : list (Z * list ModelMapper.ZAIModel)) (st : ModelMapper.Manager)
    : ModelMapper.Manager :=
  foldl (fun st call =>
           ModelMapper.updateFromZAIModels config call.1 call.2 st)
    st calls.

(** The dynamic mappings hold no key of the builtin set and no upstream
    model id of a builtin mapping. *)
Definition disjoint_from_builtin (config : Config)
    (st : ModelMapper.Manager) : Prop :=
  forall k x, ModelMapper.BUILTIN_MODEL_MAPPINGS config !! k = Some x ->
    ModelMapper.dynamicMappings st !! k = None
    /\ ModelMapper.dynamicMappings st !! ModelMapper.upstreamModelId x = None.

(** [tc.function.arguments], when [tc] and [tc.function] are objects that
    have these properties. *)
Definition arguments_of (tc : JValue) : option JValue :=
  match tc with
  | JObject tcProps =>
      match obj_get (js "function") tcProps with
      | Some (JObject funcProps) => obj_get (js "arguments") funcProps
      | _ => None
      end
  | _ => None
  end.

(** The formatted block that quotes a tool result. *)
Definition tool_result_block (toolName toolContent : jsstring) : jsstring :=
  js "工具 " ++ toolName ++ js " 返回结果:" ++ nl ++ js "```json" ++ nl
  ++ toolContent ++ nl ++ js "```".

(** The placeholder of the source for an empty tool result. *)
Definition tool_executed (toolName : jsstring) : jsstring :=
  js "工具 " ++ toolName ++ js " 执行完成".

(** Some upstream message carries the whole thinking instruction. *)
Definition carries_instruction (ms : list Route.UpstreamMessage) : bool :=
  existsb (fun m => includes thinkingInstruction (Route.m_content m)) ms.

(** Some upstream system message contains the [<thinking>] marker. *)
Definition has_marked_system (ms : list Route.UpstreamMessage) : bool :=
  existsb (fun m => jseq (Route.m_role m) (js "system")
                    && includes (js "<thinking>") (Route.m_content m)) ms.

(** Code units that the brace scanner passes over, outside a string,
    without a change of state. *)
Definition plain (c : N) : bool :=
  negb ((c =? 92) || (c =? 34) || (c =? 123) || (c =? 125)).

(** [w] leaves the scanner, outside a string, as it found it. *)
Definition balanced (w : jsstring) : Prop :=
  forall rest j braceCount,
    scan_braces (w ++ rest) j (S braceCount) false false
    = scan_braces rest (j + length w) (S braceCount) false false.

(** [w] takes the scanner from inside a string to outside of it. *)
Definition closes_string (w : jsstring) : Prop :=
  forall rest j braceCount,
    scan_braces (w ++ rest) j (S braceCount) true false
    = scan_braces rest (j + length w) (S braceCount) false false.

(** [s] is [rest] after a balanced text. *)
Definition scans_over (s rest : jsstring) : Prop :=
  exists w, s = w ++ rest /\ balanced w.



(** [p] occurs in [s] at one of the first [n] indices. *)
Fixpoint occurs_within (p : jsstring) (n : nat) (s : jsstring) : bool :=
  match n with
  | O => false
  | S n' =>
      startsWith p s
      || match s with
         | [] => false
         | _ :: s' => occurs_within p n' s'
         end
  end.




(** [c] occurs in every text that [r] matches. *)
Fixpoint requires (c : N) (r : Regex.regex) : bool :=
  match r with
  | Regex.Lit x => x =? c
  | Regex.Seq r1 r2 => requires c r1 || requires c r2
  | Regex.Alt r1 r2 => requires c r1 && requires c r2
  | Regex.Group _ r1 => requires c r1
  | _ => false
  end.

(** The system message that [processMessagesWithTools] puts in front when
    the request has none. *)
Definition tool_persona (toolsPrompt : jsstring) : Message :=
  {| role := js "system";
     content := Plain (js "你是一个有用的助手。" ++ toolsPrompt);
     name := None; reasoning_content := None |}.

(** The messages of the tool branch before the tool-choice hint. *)
Definition with_tool_prompt (toolsPrompt : jsstring)
    (messages : list Message) : list Message :=
  if existsb (is_role "system") messages then
    map (fun m =>
           if is_role "system" m
           then with_content m
                  (contentToString (or_empty (content m)) ++ toolsPrompt)
           else m) messages
  else tool_persona toolsPrompt :: messages.

(** A sample function tool. *)
Definition sample_function : ToolFunction :=
  {| function_name := js "get_weather";
     description := Some (js "Current weather");
     parameters := None |}.

Definition sample_tool : Tool :=
  {| tool_type := js "function"; tool_function := Some sample_function |}.

(** A mapping as the refresh builds it for the key [k]: outside the
    builtin set, onto the model itself, without features or servers. *)
Definition dynamic_entry (config : Config) (k : jsstring)
    (m : ModelMapper.ModelMapping) : Prop :=
  ModelMapper.BUILTIN_MODEL_MAPPINGS config !! k = None
  /\ (k ∉ ModelMapper.inherited_names)
  /\ ModelMapper.upstreamModelId m = k
  /\ ModelMapper.isBuiltin m = false
  /\ ModelMapper.features m = ModelMapper.no_features
  /\ ModelMapper.mcpServers m = Some [].

(** A run of refreshes of the manager with its key order. *)
Definition refreshes_ordered (config : Config)
    (calls : list (Z * list ModelMapper.ZAIModel))
    (om : ModelQueries.Ordered) : ModelQueries.Ordered :=
  foldl (fun om call => ModelQueries.updateOrdered config call.1 call.2 om)
    om calls.

(** The recorded key order lists the keys of the dynamic mappings. *)
Definition keys_agree (om : ModelQueries.Ordered) : Prop :=
  forall k,
    k ∈ ModelQueries.dynamicKeys om
    <-> is_Some (ModelMapper.dynamicMappings (ModelQueries.state om) !! k).

(** Every capture is a contiguous piece of [whole]. *)
Definition pieces_of (whole : jsstring) (caps : Regex.captures) : Prop :=
  forall i x, caps !! i = Some (Some x) ->
    exists before after, whole = before ++ x ++ after.






(** * Properties *)

(** ** Strings *)

Lemma jseq_true (a b : jsstring) : jseq a b = true <-> a = b.
Proof. unfold jseq. apply bool_decide_eq_true. Qed.

Lemma jseq_refl (a : jsstring) : jseq a a = true.
Proof. by apply jseq_true. Qed.

Lemma startsWith_app (p s : jsstring) : startsWith p (p ++ s) = true.
Proof.
  induction p as [|c p IH]; simpl; [done|].
  by rewrite N.eqb_refl, IH.
Qed.

Lemma includes_app_r (p s1 s2 : jsstring) :
  includes p s2 = true -> includes p (s1 ++ s2) = true.
Proof.
  intros H. induction s1 as [|c s1 IH]; simpl; [done|].
  rewrite IH. apply orb_true_r.
Qed.

Lemma startsWith_app_l (p s1 s2 : jsstring) :
  startsWith p s1 = true -> startsWith p (s1 ++ s2) = true.
Proof.
  revert s1. induction p as [|a p IH]; intros s1 H; [done|].
  destruct s1 as [|c s1]; [done|]. simpl in *.
  apply andb_true_iff in H as [-> H]. simpl. by apply IH.
Qed.

Lemma includes_app_l (p s1 s2 : jsstring) :
  includes p s1 = true -> includes p (s1 ++ s2) = true.
Proof.
  induction s1 as [|c s1 IH]; simpl; intros H.
  - apply orb_true_iff in H as [H|H]; [|done].
    destruct p; [|done]. by destruct s2.
  - apply orb_true_iff in H as [H|H]; apply orb_true_iff.
    + left. by apply (startsWith_app_l p (c :: s1) s2).
    + right. by apply IH.
Qed.

Lemma trimStart_nonspace (c : N) (s : jsstring) :
  is_js_space c = false -> trimStart (c :: s) = c :: s.
Proof. intros H. simpl. by rewrite H. Qed.

Lemma trimEnd_nonspace (d : N) (s : jsstring) :
  is_js_space d = false -> trimEnd (s ++ [d]) = s ++ [d].
Proof.
  intros Hd. unfold trimEnd. rewrite rev_unit.
  rewrite (trimStart_nonspace d _ Hd). simpl. by rewrite rev_involutive.
Qed.

(** A string that starts and ends with a non-space code unit is its own
    trim. *)
Lemma trim_fixed (c d : N) (s : jsstring) :
  is_js_space c = false -> is_js_space d = false ->
  trim (c :: s ++ [d]) = c :: s ++ [d].
Proof.
  intros Hc Hd. unfold trim.
  rewrite (trimStart_nonspace c _ Hc).
  by apply (trimEnd_nonspace d (c :: s)).
Qed.

(** ** Message preprocessing *)

Lemma contentToString_or_empty (c : Content) :
  contentToString (or_empty c) = contentToString c.
Proof. by destruct c. Qed.

Lemma tool_result_block_shape (toolName toolContent : jsstring) :
  exists s, tool_result_block toolName toolContent = 24037 :: s ++ [96].
Proof.
  exists ([20855; 32] ++ toolName ++ js " 返回结果:" ++ nl ++ js "```json"
          ++ nl ++ toolContent ++ nl ++ [96; 96]).
  unfold tool_result_block.
  change (js "工具 ") with ([24037] ++ [20855; 32]).
  change (js "```") with ([96; 96] ++ [96]).
  by rewrite <- !app_assoc.
Qed.

(** The quote block is never blank, so the placeholder branch of the
    source is dead. *)
Lemma tool_result_block_trim (toolName toolContent : jsstring) :
  trim (tool_result_block toolName toolContent)
  = tool_result_block toolName toolContent.
Proof.
  destruct (tool_result_block_shape toolName toolContent) as [s ->].
  by apply trim_fixed.
Qed.

Lemma normalize_role_tool (m : Message) :
  is_role "tool" m || is_role "function" m = true ->
  normalize_role m
  = message "assistant"
      (tool_result_block (or_else (name m) (js "unknown"))
         (contentToString (content m))).
Proof.
  intros H. unfold normalize_role. rewrite H.
  rewrite contentToString_or_empty.
  fold (tool_result_block (or_else (name m) (js "unknown"))
          (contentToString (content m))).
  rewrite tool_result_block_trim.
  destruct (tool_result_block_shape (or_else (name m) (js "unknown"))
              (contentToString (content m))) as [s ->].
  done.
Qed.

Lemma normalize_role_other (m : Message) :
  is_role "tool" m || is_role "function" m = false ->
  normalize_role m = with_content m (contentToString (content m)).
Proof.
  intros H. unfold normalize_role. rewrite H.
  by rewrite contentToString_or_empty.
Qed.

(** X25. When the [tools] argument is absent, tool support is switched
    off, or the tool choice is "none", [processMessagesWithTools] only
    normalizes roles: the result has one message per input message, in
    order; a tool or function message becomes the assistant message quoting
    its result, and any other message keeps its role and fields with its
    content coerced to a string.  No system message, tool catalog or
    tool-choice directive is added. *)
Theorem processMessagesWithTools_without_tools (config : Config)
    (messages : list Message) (tools : option (list Tool))
    (toolChoice : ToolChoice) :
  tools = None \/ TOOL_SUPPORT config = false
  \/ toolChoice = ChoiceString (js "none") ->
  processMessagesWithTools config messages tools toolChoice
  = map normalize_role messages
  /\ length (processMessagesWithTools config messages tools toolChoice)
     = length messages
  /\ forall (i : nat) (m : Message),
       messages !! i = Some m ->
       processMessagesWithTools config messages tools toolChoice !! i
       = Some (if is_role "tool" m || is_role "function" m
               then message "assistant"
                      (tool_result_block (or_else (name m) (js "unknown"))
                         (contentToString (content m)))
               else with_content m (contentToString (content m))).
Proof.
  intros H.
  assert (Heq : processMessagesWithTools config messages tools toolChoice
                = map normalize_role messages).
  { unfold processMessagesWithTools.
    destruct tools as [tools'|]; [|done].
    destruct H as [H|[H|H]]; [done| |].
    - by rewrite H.
    - rewrite H. unfold is_choice. rewrite jseq_refl.
      by rewrite andb_false_r. }
  rewrite Heq. split; [done|]. split; [apply length_map|].
  intros i m Hi. rewrite list_lookup_fmap, Hi. simpl. f_equal.
  destruct (is_role "tool" m || is_role "function" m) eqn:E.
  - by apply normalize_role_tool.
  - by apply normalize_role_other.
Qed.

Lemma processMessagesWithTools_without_tools_witness :
  (@None (list Tool) = None \/ TOOL_SUPPORT sample_config = false
   \/ NoChoice = ChoiceString (js "none"))
  /\ processMessagesWithTools sample_config
       [message "user" (js "hi"); message "tool" (js "42")] None NoChoice
     = map normalize_role [message "user" (js "hi"); message "tool" (js "42")].
Proof.
  split; [by left|].
  apply (processMessagesWithTools_without_tools sample_config
           [message "user" (js "hi"); message "tool" (js "42")] None NoChoice).
  by left.
Defined.

(** An empty [tools] array counts as supplied: it is truthy, so the tool
    branch runs and, without a system message, synthesizes one. *)
Lemma processMessagesWithTools_empty_tools :
  processMessagesWithTools sample_config [message "user" (js "hi")]
    (Some []) NoChoice
  = [message "system" (js "你是一个有用的助手。"); message "user" (js "hi")].
Proof. by vm_compute. Qed.

(** C9. A tool or function message is rewritten to an assistant message
    that quotes the tool name and result, but when the coerced content is
    empty the content is still the quote block, with an empty body, and
    not the "tool executed" placeholder: the source tests the formatted
    block, which is never blank, instead of the tool content. *)
Theorem tool_message_with_empty_content (config : Config) (m : Message) :
  is_role "tool" m || is_role "function" m = true ->
  contentToString (content m) = [] ->
  processMessagesWithTools config [m] None NoChoice
  = [message "assistant"
       (tool_result_block (or_else (name m) (js "unknown")) [])]
  /\ tool_result_block (or_else (name m) (js "unknown")) []
     <> tool_executed (or_else (name m) (js "unknown")).
Proof.
  intros Hrole Hempty. split.
  - unfold processMessagesWithTools. cbn [map].
    by rewrite normalize_role_tool, Hempty.
  - unfold tool_result_block, tool_executed. intros H.
    apply app_inv_head in H. apply app_inv_head in H.
    vm_compute in H. discriminate.
Qed.

Lemma tool_message_with_empty_content_witness :
  is_role "tool"
    {| role := js "tool"; content := Plain [];
       name := Some (js "get_weather"); reasoning_content := None |}
  || is_role "function"
       {| role := js "tool"; content := Plain [];
          name := Some (js "get_weather"); reasoning_content := None |}
  = true
  /\ processMessagesWithTools sample_config
       [{| role := js "tool"; content := Plain [];
           name := Some (js "get_weather"); reasoning_content := None |}]
       None NoChoice
     = [message "assistant"
          (tool_result_block
             (or_else
                (name {| role := js "tool"; content := Plain [];
                         name := Some (js "get_weather");
                         reasoning_content := None |})
                (js "unknown")) [])].
Proof.
  assert (H : is_role "tool"
                {| role := js "tool"; content := Plain [];
                   name := Some (js "get_weather");
                   reasoning_content := None |}
              || is_role "function"
                   {| role := js "tool"; content := Plain [];
                      name := Some (js "get_weather");
                      reasoning_content := None |}
              = true) by (by vm_compute).
  split; [exact H|].
  exact (proj1 (tool_message_with_empty_content sample_config
                  {| role := js "tool"; content := Plain [];
                     name := Some (js "get_weather");
                     reasoning_content := None |} H eq_refl)).
Defined.

Lemma marker_in_instruction :
  includes (js "<thinking>") thinkingInstruction = true.
Proof. by vm_compute. Qed.

Lemma add_to_first_system_fixed (messages result : list Message) :
  add_to_first_system messages = Some result ->
  add_to_first_system result = Some result.
Proof.
  revert result. induction messages as [|m rest IH]; intros result; [done|].
  simpl. destruct (is_role "system" m) eqn:Hsys.
  - destruct (includes (js "<thinking>") (contentToString (or_empty (content m))))
      eqn:Hinc; simpl; intros [= <-]; simpl.
    + by rewrite Hsys, Hinc.
    + unfold is_role in *. simpl. rewrite Hsys.
      by rewrite includes_app_r by apply marker_in_instruction.
  - destruct (add_to_first_system rest) as [rest'|]; [|done].
    intros [= <-]. simpl. rewrite Hsys. by rewrite (IH rest').
Qed.

Lemma add_to_first_system_marked (m : Message) (rest : list Message) :
  is_role "system" m = true ->
  includes (js "<thinking>") (contentToString (content m)) = true ->
  add_to_first_system (m :: rest) = Some (m :: rest).
Proof.
  intros Hsys Hinc. cbn [add_to_first_system].
  by rewrite Hsys, contentToString_or_empty, Hinc.
Qed.

(** C6. [addThinkingPromptToMessages] is idempotent: after one application
    the first system message contains the [<thinking>] marker, so a second
    application changes nothing. *)
Theorem addThinkingPromptToMessages_idempotent (messages : list Message) :
  addThinkingPromptToMessages (addThinkingPromptToMessages messages)
  = addThinkingPromptToMessages messages.
Proof.
  unfold addThinkingPromptToMessages at 2 3.
  destruct (add_to_first_system messages) as [result|] eqn:E.
  - unfold addThinkingPromptToMessages.
    by rewrite (add_to_first_system_fixed _ _ E).
  - unfold addThinkingPromptToMessages.
    rewrite add_to_first_system_marked; [done|by vm_compute|].
    cbn [content contentToString].
    by rewrite includes_app_r by apply marker_in_instruction.
Qed.

(** ** Model mapping *)

Section ModelMappingProperties.

Import ModelMapper.

Lemma updateFromZAIModels_fresh (config : Config) (now : Z)
    (zaiModels : list ZAIModel) (st : Manager) :
  (now - lastUpdateTime st < UPDATE_INTERVAL)%Z ->
  updateFromZAIModels config now zaiModels st = st.
Proof.
  intros H. unfold updateFromZAIModels.
  by rewrite (proj2 (Z.ltb_lt _ _) H).
Qed.

Lemma updateFromZAIModels_time (config : Config) (now : Z)
    (zaiModels : list ZAIModel) (st : Manager) :
  (UPDATE_INTERVAL <= now - lastUpdateTime st)%Z ->
  lastUpdateTime (updateFromZAIModels config now zaiModels st) = now.
Proof.
  intros H. unfold updateFromZAIModels.
  by rewrite (proj2 (Z.ltb_ge _ _) H).
Qed.

(** C4. A refresh that comes less than five minutes (300000 ms) after a
    refresh that replaced the dynamic mappings is a no-op, whatever models
    it is given: the manager, with its dynamic mappings and its
    [lastUpdateTime], is left as it was. *)
Theorem updateFromZAIModels_within_ttl (config : Config) (st : Manager)
    (now1 now2 : Z) (models1 models2 : list ZAIModel) :
  (UPDATE_INTERVAL <= now1 - lastUpdateTime st)%Z ->
  (now2 - now1 < 5 * 60 * 1000)%Z ->
  let st1 := updateFromZAIModels config now1 models1 st in
  let st2 := updateFromZAIModels config now2 models2 st1 in
  st2 = st1
  /\ dynamicMappings st2 = dynamicMappings st1
  /\ lastUpdateTime st2 = lastUpdateTime st1.
Proof.
  intros H1 H2 st1 st2.
  assert (st2 = st1) as ->; [|done].
  subst st2. apply updateFromZAIModels_fresh.
  subst st1. by rewrite updateFromZAIModels_time.
Qed.

Lemma updateFromZAIModels_within_ttl_witness :
  (UPDATE_INTERVAL <= 1000000 - lastUpdateTime initial)%Z
  /\ (1200000 - 1000000 < 5 * 60 * 1000)%Z
  /\ updateFromZAIModels sample_config 1200000 []
       (updateFromZAIModels sample_config 1000000
          [{| id := js "glm-x"; name := None; display_name := None;
              owned_by := None |}] initial)
     = updateFromZAIModels sample_config 1000000
         [{| id := js "glm-x"; name := None; display_name := None;
             owned_by := None |}] initial.
Proof.
  split; [by vm_compute|]. split; [by vm_compute|].
  apply (updateFromZAIModels_within_ttl sample_config initial 1000000 1200000
           [{| id := js "glm-x"; name := None; display_name := None;
               owned_by := None |}] []); by vm_compute.
Defined.

Lemma mapped_ids_complete (m : gmap jsstring ModelMapping) (k : jsstring)
    (x : ModelMapping) :
  m !! k = Some x ->
  upstreamModelId x
  ∈ map_fold (fun _ mapping (acc : gset jsstring) =>
                {[upstreamModelId mapping]} ∪ acc) ∅ m.
Proof.
  revert k x.
  apply (map_fold_weak_ind
           (fun (r : gset jsstring) (m : gmap jsstring ModelMapping) =>
              forall k x, m !! k = Some x -> upstreamModelId x ∈ r)).
  - intros k x H. by rewrite lookup_empty in H.
  - intros i y m' r Hi IH k x H.
    destruct (decide (i = k)) as [->|Hne].
    + rewrite lookup_insert_eq in H. injection H as ->. set_solver.
    + rewrite lookup_insert_ne in H by done. specialize (IH k x H). set_solver.
Qed.

Lemma consider_disjoint (config : Config) (st : Manager) (model : ZAIModel) :
  disjoint_from_builtin config st ->
  disjoint_from_builtin config
    (consider config
       (map_fold (fun _ mapping (acc : gset jsstring) =>
                    {[upstreamModelId mapping]} ∪ acc) ∅
          (BUILTIN_MODEL_MAPPINGS config)) st model).
Proof.
  intros Hst. unfold consider. cbv zeta.
  case_bool_decide as Hmapped; [done|].
  unfold index.
  destruct (BUILTIN_MODEL_MAPPINGS config !! ModelMapper.id model) as [own|] eqn:Hown;
    [done|].
  case_bool_decide; [done|]. simpl.
  intros k x Hk. unfold addDynamicMapping. simpl.
  destruct (Hst k x Hk) as [H1 H2].
  split.
  - rewrite lookup_insert_ne; [done|]. intros <-. congruence.
  - rewrite lookup_insert_ne; [done|]. intros Heq. apply Hmapped.
    rewrite Heq. by eapply mapped_ids_complete.
Qed.

Lemma updateFromZAIModels_disjoint (config : Config) (now : Z)
    (zaiModels : list ZAIModel) (st : Manager) :
  disjoint_from_builtin config st ->
  disjoint_from_builtin config (updateFromZAIModels config now zaiModels st).
Proof.
  intros Hst. unfold updateFromZAIModels.
  destruct (now - lastUpdateTime st <? UPDATE_INTERVAL)%Z; [done|].
  set (ids := map_fold _ _ _).
  set (cleared := {| dynamicMappings := ∅; lastUpdateTime := lastUpdateTime st |}).
  assert (Hc : disjoint_from_builtin config cleared).
  { intros k x _. simpl. by rewrite !lookup_empty. }
  clearbody cleared. clear Hst.
  revert cleared Hc. induction zaiModels as [|model rest IH]; intros cleared Hc.
  - done.
  - simpl. apply IH. by apply consider_disjoint.
Qed.

Lemma refreshes_disjoint (config : Config)
    (calls : list (Z * list ZAIModel)) (st : Manager) :
  disjoint_from_builtin config st ->
  disjoint_from_builtin config (refreshes config calls st).
Proof.
  revert st. induction calls as [|call calls IH]; intros st Hst; [done|].
  simpl. apply IH. by apply updateFromZAIModels_disjoint.
Qed.

(** C2. After any run of refreshes of the initial manager, whatever the
    observed models and times, a builtin model id resolves to exactly its
    builtin mapping, and the dynamic set holds neither that id nor the
    upstream model id of the builtin mapping. *)
Theorem builtin_mapping_never_shadowed (config : Config)
    (calls : list (Z * list ZAIModel)) (modelId : jsstring)
    (mapping : ModelMapping) :
  BUILTIN_MODEL_MAPPINGS config !! modelId = Some mapping ->
  let st := refreshes config calls initial in
  getMappingByModelId config st modelId = Own mapping
  /\ dynamicMappings st !! modelId = None
  /\ dynamicMappings st !! upstreamModelId mapping = None.
Proof.
  intros Hb st.
  assert (Hd : disjoint_from_builtin config st).
  { apply refreshes_disjoint. intros k x _. simpl. by rewrite !lookup_empty. }
  destruct (Hd modelId mapping Hb) as [H1 H2].
  split; [|done].
  unfold getMappingByModelId, index, getMappings.
  by rewrite lookup_union_r, Hb.
Qed.

Lemma builtin_mapping_never_shadowed_witness :
  BUILTIN_MODEL_MAPPINGS sample_config !! js "GLM-4.5-Search"
  = Some (builtin (js "GLM-4.5-Search") (js "0727-360B-API")
            (js "GLM-4.5-Search") searching (Some [js "deep-web-search"])
            (js "GLM-4.5 搜索增强模型"))
  /\ getMappingByModelId sample_config
       (refreshes sample_config
          [(1000000%Z,
            [{| id := js "GLM-4.5-Search"; name := Some (js "shadow");
                display_name := None; owned_by := None |};
             {| id := js "0727-360B-API"; name := None;
                display_name := None; owned_by := None |};
             {| id := js "glm-x"; name := None; display_name := None;
                owned_by := None |}])]
          initial)
       (js "GLM-4.5-Search")
     = Own (builtin (js "GLM-4.5-Search") (js "0727-360B-API")
              (js "GLM-4.5-Search") searching (Some [js "deep-web-search"])
              (js "GLM-4.5 搜索增强模型")).
Proof.
  split; [by vm_compute|].
  apply (builtin_mapping_never_shadowed sample_config
           [(1000000%Z,
             [{| id := js "GLM-4.5-Search"; name := Some (js "shadow");
                 display_name := None; owned_by := None |};
              {| id := js "0727-360B-API"; name := None;
                 display_name := None; owned_by := None |};
              {| id := js "glm-x"; name := None; display_name := None;
                 owned_by := None |}])]
           (js "GLM-4.5-Search")).
  by vm_compute.
Defined.

End ModelMappingProperties.

(** ** The chat-completion route *)

Lemma startsWith_refl (p : jsstring) : startsWith p p = true.
Proof.
  induction p as [|c p IH]; simpl; [done|]. by rewrite N.eqb_refl, IH.
Qed.

Lemma includes_refl (p : jsstring) : includes p p = true.
Proof. destruct p; simpl; [done|]. by rewrite N.eqb_refl, startsWith_refl. Qed.

Lemma includes_suffix (p s : jsstring) : includes p (s ++ p) = true.
Proof. apply includes_app_r, includes_refl. Qed.

(** After the injection some system message contains the marker. *)
Lemma addThinkingPromptToMessages_marked (messages : list Message) :
  existsb (fun m => is_role "system" m
                    && includes (js "<thinking>") (contentToString (content m)))
    (addThinkingPromptToMessages messages) = true.
Proof.
  unfold addThinkingPromptToMessages.
  destruct (add_to_first_system messages) as [result|] eqn:E.
  - revert result E. induction messages as [|m rest IH]; intros result; [done|].
    simpl. destruct (is_role "system" m) eqn:Hsys.
    + rewrite contentToString_or_empty.
      destruct (includes (js "<thinking>") (contentToString (content m)))
        eqn:Hinc; simpl; intros [= <-]; simpl.
      * by rewrite Hsys, Hinc.
      * unfold is_role in *. simpl. rewrite Hsys.
        by rewrite includes_app_r by apply marker_in_instruction.
    + destruct (add_to_first_system rest) as [rest'|]; [|done].
      intros [= <-]. simpl. rewrite Hsys. simpl. by apply IH.
  - cbn [existsb content contentToString].
    replace (is_role "system" _) with true by (by vm_compute).
    by rewrite includes_app_r by apply marker_in_instruction.
Qed.

(** The instruction itself is added unless the first system message
    already contains the marker. *)
Lemma addThinkingPromptToMessages_instruction (messages : list Message) :
  match find (is_role "system") messages with
  | Some m => includes (js "<thinking>") (contentToString (content m)) = false
  | None => True
  end ->
  existsb (fun m => includes thinkingInstruction (contentToString (content m)))
    (addThinkingPromptToMessages messages) = true.
Proof.
  unfold addThinkingPromptToMessages.
  destruct (add_to_first_system messages) as [result|] eqn:E.
  - revert result E. induction messages as [|m rest IH]; intros result; [done|].
    simpl. destruct (is_role "system" m) eqn:Hsys.
    + rewrite contentToString_or_empty. intros E Hinc. rewrite Hinc in E.
      simpl in E. injection E as <-. cbn [existsb with_content content contentToString].
      by rewrite includes_suffix.
    + destruct (add_to_first_system rest) as [rest'|]; [|done].
      intros [= <-] Hf. simpl. rewrite (IH rest'); [|done|done].
      apply orb_true_r.
  - intros _. cbn [existsb content contentToString].
    by rewrite includes_suffix.
Qed.

Lemma existsb_mapped {A B} (f : B -> bool) (g : A -> B) (l : list A) :
  existsb f (map g l) = existsb (fun x => f (g x)) l.
Proof. induction l as [|x l IH]; simpl; [done|]. by rewrite IH. Qed.

Lemma to_upstream_marked (ms : list Message) :
  has_marked_system (map Route.to_upstream_message ms)
  = existsb (fun m => is_role "system" m
                      && includes (js "<thinking>")
                           (contentToString (content m))) ms.
Proof. unfold has_marked_system. by rewrite existsb_mapped. Qed.

Lemma to_upstream_instruction (ms : list Message) :
  carries_instruction (map Route.to_upstream_message ms)
  = existsb (fun m => includes thinkingInstruction
                        (contentToString (content m))) ms.
Proof. unfold carries_instruction. by rewrite existsb_mapped. Qed.

Lemma authorized_refusal (config : Config) (authorization : option jsstring)
    (refusal : Route.Outcome) :
  Route.authorized config authorization = Some refusal ->
  exists error, refusal = Route.Respond 401 error.
Proof.
  unfold Route.authorized. intros H.
  repeat (match type of H with
          | context [if ?b then _ else _] => destruct b
          | context [match ?x with _ => _ end] => destruct x
          end; try done);
    injection H as <-; eauto.
Qed.

(** C10, as amended. Every request that reaches the upstream call has
    [enable_thinking] set in its features, whatever the mapping says, while
    [web_search] and [auto_web_search] are the mapping's (false when
    unset); its messages are the preprocessed messages after the thinking
    injection, so some system message contains the [<thinking>] marker,
    and the instruction itself is in the list unless the first system
    message of the preprocessed list already contained the marker. *)
Theorem chat_completions_enables_thinking (config : Config)
    (st : ModelMapper.Manager) (authorization : option jsstring)
    (request : Route.OpenAIRequest) (chatId msgId datetime : jsstring)
    (upstreamReq : Route.UpstreamRequest) (hasTools streaming : bool) :
  Route.chat_completions config st authorization request chatId msgId datetime
  = Route.CallUpstream upstreamReq hasTools streaming ->
  let processed :=
    processMessagesWithTools config (Route.messages request)
      (Route.tools request) (Route.tool_choice request) in
  Route.enable_thinking (Route.u_features upstreamReq) = true
  /\ (exists mapping,
        ModelMapper.getMappingByModelId config st (Route.model request)
        = ModelMapper.Own mapping
        /\ Route.web_search (Route.u_features upstreamReq)
           = default false
               (ModelMapper.web_search (ModelMapper.features mapping))
        /\ Route.auto_web_search (Route.u_features upstreamReq)
           = default false
               (ModelMapper.auto_web_search (ModelMapper.features mapping)))
  /\ Route.u_messages upstreamReq
     = map Route.to_upstream_message (addThinkingPromptToMessages processed)
  /\ has_marked_system (Route.u_messages upstreamReq) = true
  /\ (match find (is_role "system") processed with
      | Some m =>
          includes (js "<thinking>") (contentToString (content m)) = false
      | None => True
      end ->
      carries_instruction (Route.u_messages upstreamReq) = true).
Proof.
  intros H processed. unfold Route.chat_completions in H.
  destruct (Route.authorized config authorization) as [refusal|] eqn:Hauth.
  { apply authorized_refusal in Hauth as [error ->]. done. }
  unfold ModelMapper.getUpstreamConfig in H.
  destruct (ModelMapper.getMappingByModelId config st (Route.model request))
    as [mapping| |] eqn:Hmap; [|done|done].
  injection H as <- _ _. cbn [Route.u_features Route.enable_thinking
    Route.web_search Route.auto_web_search Route.u_messages
    ModelMapper.c_features].
  unfold processMessagesWithThinking. fold processed.
  split; [done|]. split; [by exists mapping|]. split; [done|].
  split.
  - rewrite to_upstream_marked. apply addThinkingPromptToMessages_marked.
  - intros Hf. rewrite to_upstream_instruction.
    by apply addThinkingPromptToMessages_instruction.
Qed.

Lemma chat_completions_enables_thinking_witness :
  exists upstreamReq,
    Route.chat_completions sample_config ModelMapper.initial None
      {| Route.model := js "GLM-4.5"; Route.messages := [message "user" (js "hi")];
         Route.stream := false; Route.tools := None;
         Route.tool_choice := NoChoice |}
      (js "chat-1") (js "msg-1") (js "2025-01-01 00:00:00")
    = Route.CallUpstream upstreamReq false false
    /\ Route.enable_thinking (Route.u_features upstreamReq) = true
    /\ carries_instruction (Route.u_messages upstreamReq) = true.
Proof.
  eexists. split; [by vm_compute|].
  pose proof (chat_completions_enables_thinking sample_config
                ModelMapper.initial None
                {| Route.model := js "GLM-4.5";
                   Route.messages := [message "user" (js "hi")];
                   Route.stream := false; Route.tools := None;
                   Route.tool_choice := NoChoice |}
                (js "chat-1") (js "msg-1") (js "2025-01-01 00:00:00")
                _ false false eq_refl) as (H1 & _ & _ & _ & H5).
  split; [exact H1|]. apply H5. by vm_compute.
Defined.

(** C10 fails as stated: a request whose system message already mentions
    the marker reaches the upstream call without the thinking instruction
    in any of its messages. *)
Lemma chat_completions_without_instruction :
  exists upstreamReq,
    Route.chat_completions sample_config ModelMapper.initial None
      {| Route.model := js "GLM-4.5";
         Route.messages :=
           [message "system" (js "Never print <thinking> tags.");
            message "user" (js "hi")];
         Route.stream := false; Route.tools := None;
         Route.tool_choice := NoChoice |}
      (js "chat-1") (js "msg-1") (js "2025-01-01 00:00:00")
    = Route.CallUpstream upstreamReq false false
    /\ Route.enable_thinking (Route.u_features upstreamReq) = true
    /\ Route.u_messages upstreamReq
       = [{| Route.m_role := js "system";
             Route.m_content := js "Never print <thinking> tags.";
             Route.m_reasoning_content := None |};
          {| Route.m_role := js "user"; Route.m_content := js "hi";
             Route.m_reasoning_content := None |}]
    /\ carries_instruction (Route.u_messages upstreamReq) = false.
Proof. eexists. split; [by vm_compute|]. by vm_compute. Qed.

(** ** The matcher *)

Section MatcherProperties.
Context {A : Type}.

(** A pattern hands a suffix of its input to its continuation. *)
Lemma iterate_suffix (greedy : bool) (body : @Regex.matcher A)
    (k : Regex.continuation) :
  (forall s caps k' a, body s caps k' = Some a ->
     exists s' caps', s' `suffix_of` s /\ k' s' caps' = Some a) ->
  forall fuel s caps a,
    Regex.iterate greedy body k fuel s caps = Some a ->
    exists s' caps', s' `suffix_of` s /\ k s' caps' = Some a.
Proof.
  intros Hbody. induction fuel as [|fuel IH]; intros s caps a H; [done|].
  cbn [Regex.iterate] in H.
  assert (Hagain :
    body s caps
      (fun s1 c1 => if (length s1 <? length s)%nat
                    then Regex.iterate greedy body k fuel s1 c1 else None)
    = Some a ->
    exists s' caps', s' `suffix_of` s /\ k s' caps' = Some a).
  { intros E. apply Hbody in E as (s1 & c1 & Hs1 & E).
    destruct (length s1 <? length s)%nat; [|done].
    apply IH in E as (s' & caps' & Hs' & E).
    exists s', caps'. split; [by etrans|done]. }
  destruct greedy; unfold Regex.orElse in H.
  - destruct (body s caps _) eqn:E.
    + injection H as ->. by apply Hagain.
    + by exists s, caps.
  - destruct (k s caps) eqn:E.
    + injection H as ->. by exists s, caps.
    + by apply Hagain.
Qed.

Lemma rmatch_suffix (r : Regex.regex) (s : jsstring) (caps : Regex.captures)
    (k : Regex.continuation) (a : A) :
  Regex.rmatch r s caps k = Some a ->
  exists s' caps', s' `suffix_of` s /\ k s' caps' = Some a.
Proof.
  revert s caps k a.
  induction r as [|c| |cs|r1 IH1 r2 IH2|r1 IH1 r2 IH2|greedy r IH|n r IH];
    intros s caps k a H; cbn [Regex.rmatch] in H.
  - by exists s, caps.
  - destruct s as [|x s1]; [done|]. destruct (x =? c); [|done].
    exists s1, caps. split; [by apply suffix_cons_r|done].
  - destruct s as [|x s1]; [done|].
    exists s1, caps. split; [by apply suffix_cons_r|done].
  - destruct s as [|x s1]; [done|]. destruct (Regex.in_class cs x); [|done].
    exists s1, caps. split; [by apply suffix_cons_r|done].
  - apply IH1 in H as (s1 & c1 & Hs1 & H).
    apply IH2 in H as (s2 & c2 & Hs2 & H).
    exists s2, c2. split; [by etrans|done].
  - unfold Regex.orElse in H. destruct (Regex.rmatch r1 s caps k) eqn:E.
    + injection H as ->. by apply IH1 in E.
    + by apply IH2 in H.
  - eapply iterate_suffix; [|exact H]. intros. by eapply IH.
  - apply IH in H as (s1 & c1 & Hs1 & H). eexists s1, _. by split.
Qed.

End MatcherProperties.

Lemma take_suffix_cons (c : N) (s s' : jsstring) :
  s' `suffix_of` s ->
  exists t, take (length (c :: s) - length s') (c :: s) = c :: t.
Proof.
  intros H. apply suffix_length in H.
  replace (length (c :: s) - length s')%nat with (S (length s - length s'))
    by (simpl; lia).
  by eexists.
Qed.

(** A match of a pattern that begins with a literal begins with it. *)
Lemma exec_here_first (ngroups : nat) (c : N) (r1 r2 : Regex.regex)
    (s : jsstring) (m : Regex.found) :
  Regex.exec_here ngroups (Regex.Seq (Regex.Seq (Regex.Lit c) r1) r2) s
  = Some m ->
  exists t, Regex.matched m = c :: t.
Proof.
  unfold Regex.exec_here. cbn [Regex.rmatch].
  destruct s as [|x s1]; [done|].
  destruct (x =? c) eqn:Hx; [|done]. apply N.eqb_eq in Hx as ->.
  intros H. apply rmatch_suffix in H as (s2 & c2 & Hs2 & H).
  apply rmatch_suffix in H as (s3 & c3 & Hs3 & H).
  injection H as <-. cbn [Regex.matched].
  apply take_suffix_cons. by etrans.
Qed.

Lemma search_first (ngroups : nat) (c : N) (r1 r2 : Regex.regex)
    (s : jsstring) (m : Regex.found) :
  Regex.search ngroups (Regex.Seq (Regex.Seq (Regex.Lit c) r1) r2) s = Some m ->
  exists t, Regex.matched m = c :: t.
Proof.
  revert m. induction s as [|x s IH]; intros m; cbn [Regex.search].
  - destruct (Regex.exec_here _ _ _) eqn:E; [|done].
    intros [= <-]. by eapply exec_here_first.
  - destruct (Regex.exec_here _ _ _) eqn:E.
    + intros [= <-]. by eapply exec_here_first.
    + destruct (Regex.search _ _ s) as [m'|]; [|done].
      intros [= <-]. cbn [Regex.matched]. by apply IH.
Qed.

Lemma all_matches_first (ngroups : nat) (c : N) (r1 r2 : Regex.regex)
    (fuel : nat) (s : jsstring) :
  Forall (fun m => exists t, Regex.matched m = c :: t)
    (Regex.all_matches_from fuel ngroups
       (Regex.Seq (Regex.Seq (Regex.Lit c) r1) r2) s).
Proof.
  revert s. induction fuel as [|fuel IH]; intros s; cbn [Regex.all_matches_from];
    [done|].
  destruct (Regex.search _ _ _) as [m|] eqn:E; [|done].
  constructor; [by eapply search_first|].
  destruct (Regex.matched m), (Regex.after m); try done; apply IH.
Qed.

Lemma FUNCTION_CALL_PATTERN_head :
  exists r1 r2,
    FUNCTION_CALL_PATTERN
    = Regex.Seq (Regex.Seq (Regex.Lit 35843) r1) r2.
Proof. eexists _, _. by vm_compute. Qed.

Lemma trimStart_keeps_last (c : N) (l : jsstring) :
  is_js_space c = false -> exists l', trimStart (l ++ [c]) = l' ++ [c].
Proof.
  intros Hc. induction l as [|x l IH]; simpl.
  - rewrite Hc. by exists [].
  - destruct (is_js_space x); [done|]. by exists (x :: l).
Qed.

Lemma trim_keeps_first (c : N) (s : jsstring) :
  is_js_space c = false -> exists t, trim (c :: s) = c :: t.
Proof.
  intros Hc. unfold trim. rewrite trimStart_nonspace by done.
  unfold trimEnd. simpl rev.
  destruct (trimStart_keeps_last c (rev s) Hc) as [l' ->].
  rewrite rev_unit. by eexists.
Qed.

(** A text that starts with a code unit that begins no JSON value. *)
Lemma parse_rejects (c : N) (s : jsstring) :
  Json.is_ws c = false -> Json.is_digit c = false ->
  c <> 123 -> c <> 91 -> c <> 34 -> c <> 116 -> c <> 102 -> c <> 110 ->
  c <> 45 ->
  Json.parse (c :: s) = None.
Proof.
  intros Hws Hd H1 H2 H3 H4 H5 H6 H7. unfold Json.parse.
  cbn [Json.skip_ws]. rewrite Hws.
  replace (2 * length (c :: s) + 1)%nat with (S (2 * length (c :: s)))
    by lia.
  cbn [Json.parse_value].
  repeat (match goal with
          | |- context [c =? ?n] =>
              rewrite (proj2 (N.eqb_neq c n)) by done
          end).
  unfold Json.parse_number, Json.number_sign.
  assert ((match c :: s with
           | 45 :: s' => (true, s')
           | _ => (false, c :: s)
           end) = (false, c :: s)) as ->.
  { destruct c as [|p]; [done|].
    do 6 (destruct p as [p|p|]; try done). }
  cbn [Json.number_int]. by rewrite Hd.
Qed.

(** ** Tool extraction *)

Lemma match_global_first (s : jsstring) (ms : list jsstring) :
  Regex.match_global 2 FUNCTION_CALL_PATTERN s = Some ms ->
  Forall (fun m => exists t, m = 35843 :: t) ms.
Proof.
  unfold Regex.match_global, Regex.all_matches.
  destruct FUNCTION_CALL_PATTERN_head as (r1 & r2 & ->).
  pose proof (all_matches_first 2 35843 r1 r2 (S (length s)) s) as H.
  assert (H' : Forall (fun m => exists t, m = 35843 :: t)
                 (map Regex.matched
                    (Regex.all_matches_from (S (length s)) 2
                       (Regex.Seq (Regex.Seq (Regex.Lit 35843) r1) r2) s))).
  { induction H; constructor; auto. }
  destruct (Regex.all_matches_from _ _ _ _) as [|m l]; [done|].
  by intros [= <-].
Qed.

(** The fallback by the number of matches: the pattern is global, so
    [match] returns the matched texts without their captures.  With one or
    two matches an element read as a capture is [undefined] and its [trim]
    throws; with three or more the "arguments" are the third matched text,
    which starts with the phrase and is no JSON. *)
Lemma extract_natural_cases (now : Z) (s : jsstring) :
  extract_natural now s
  = match Regex.match_global 2 FUNCTION_CALL_PATTERN s with
    | None => Returns None
    | Some (_ :: _ :: _ :: _) => Returns None
    | Some _ => Throws TypeError
    end.
Proof.
  unfold extract_natural.
  destruct (Regex.match_global 2 FUNCTION_CALL_PATTERN s) as [ms|] eqn:E;
    [|done].
  apply match_global_first in E.
  destruct ms as [|m0 [|m1 [|m2 ms]]]; cbn [lookup list_lookup]; try done.
  inversion_clear E as [|? ? _ E1]. inversion_clear E1 as [|? ? _ E2].
  inversion_clear E2 as [|? ? [t ->] _].
  destruct (trim_keeps_first 35843 t eq_refl) as [t' ->].
  unfold JSON_parse. by rewrite parse_rejects.
Qed.

(** C7. The natural-language fallback never yields a tool call: on every
    text it returns [null] or throws a [TypeError], the latter whenever the
    phrase occurs once or twice. *)
Theorem natural_language_fallback_never_succeeds (now : Z) (text : jsstring) :
  (extract_natural now text = Returns None
   \/ extract_natural now text = Throws TypeError)
  /\ forall m0 ms,
       Regex.match_global 2 FUNCTION_CALL_PATTERN text = Some (m0 :: ms) ->
       (length ms < 2)%nat ->
       extract_natural now text = Throws TypeError.
Proof.
  rewrite extract_natural_cases. split.
  - destruct (Regex.match_global 2 FUNCTION_CALL_PATTERN text)
      as [[|m0 [|m1 [|m2 ms]]]|]; auto.
  - intros m0 ms -> Hlen.
    destruct ms as [|m1 [|m2 ms]]; [done|done|]. simpl in Hlen. lia.
Qed.

Lemma natural_language_fallback_never_succeeds_witness :
  Regex.match_global 2 FUNCTION_CALL_PATTERN
    (jsq "调用函数: get_weather 参数: {'city': 'NYC'}")
  = Some [jsq "调用函数: get_weather 参数: {'city': 'NYC'}"]
  /\ extract_natural 1700000000000
       (jsq "调用函数: get_weather 参数: {'city': 'NYC'}")
     = Throws TypeError.
Proof.
  assert (E : Regex.match_global 2 FUNCTION_CALL_PATTERN
                (jsq "调用函数: get_weather 参数: {'city': 'NYC'}")
              = Some [jsq "调用函数: get_weather 参数: {'city': 'NYC'}"])
    by (by vm_compute).
  split; [exact E|].
  apply (proj2 (natural_language_fallback_never_succeeds 1700000000000 _)
           _ [] E).
  simpl. lia.
Defined.

(** C1. [extractToolInvocations] throws a [TypeError] on every text
    without a [tool_calls] object, fenced or inline, in which the
    natural-language phrase occurs once or twice within the scan limit: the
    statement that reads the captures stands outside the [try] block. *)
Theorem extractToolInvocations_throws (config : Config) (now : Z)
    (text m0 : jsstring) (ms : list jsstring) :
  text <> [] ->
  extract_fenced
    (Regex.matchAll 1 TOOL_CALL_FENCE_PATTERN
       (substring0 text (SCAN_LIMIT config))) = None ->
  extract_inline (substring0 text (SCAN_LIMIT config)) = None ->
  Regex.match_global 2 FUNCTION_CALL_PATTERN
    (substring0 text (SCAN_LIMIT config)) = Some (m0 :: ms) ->
  (length ms < 2)%nat ->
  extractToolInvocations config now text = Throws TypeError.
Proof.
  intros Htext Hfenced Hinline Hmatch Hlen. unfold extractToolInvocations.
  destruct text as [|c text]; [done|].
  rewrite Hfenced, Hinline, extract_natural_cases, Hmatch.
  destruct ms as [|m1 [|m2 ms]]; [done|done|]. simpl in Hlen. lia.
Qed.

Lemma extractToolInvocations_throws_witness :
  extractToolInvocations sample_config 1700000000000
    (js "调用函数: get_weather 参数: {}")
  = Throws TypeError.
Proof.
  apply (extractToolInvocations_throws sample_config 1700000000000
           (js "调用函数: get_weather 参数: {}")
           (js "调用函数: get_weather 参数: {}") []).
  - by vm_compute.
  - by vm_compute.
  - by vm_compute.
  - by vm_compute.
  - simpl. lia.
Defined.

(** The same defect on the text of C7: a phrase with valid JSON arguments. *)
Lemma extractToolInvocations_natural_language :
  extractToolInvocations sample_config 1700000000000
    (jsq "调用函数: get_weather 参数: {'city': 'NYC'}")
  = Throws TypeError.
Proof. by vm_compute. Qed.

Lemma obj_get_set (k : jsstring) (v : JValue) (o : object) :
  obj_get k (obj_set k v o) = Some v.
Proof.
  induction o as [|[k' v'] o IH]; simpl.
  - by rewrite jseq_refl.
  - destruct (jseq k' k) eqn:E; simpl; by rewrite E.
Qed.

Lemma for_each_Forall2 {A B} (f : A -> completion B) (l : list A)
    (l' : list B) :
  for_each f l = Returns l' -> Forall2 (fun x y => f x = Returns y) l l'.
Proof.
  revert l'. induction l as [|x l IH]; intros l'; simpl.
  - intros [= <-]. constructor.
  - destruct (f x) as [y|] eqn:E; [|done]. simpl.
    destruct (for_each f l) as [ys|]; [|done]. simpl.
    intros [= <-]. constructor; [done|]. by apply IH.
Qed.

(** What the loop body does to one entry of [tool_calls]. *)
Lemma ensure_string_arguments_spec (raw tc : JValue) :
  ensure_string_arguments raw = Returns tc ->
  (forall a, arguments_of raw = Some a -> truthy a = true ->
     arguments_of tc
     = Some (if is_string a then a else JString (Json.stringify a)))
  /\ (forall a, arguments_of tc = Some a -> truthy a = true ->
        is_string a = true).
Proof.
  unfold ensure_string_arguments, get, bind.
  destruct raw as [|b|neg x|s|items|tcProps]; try (by intros [= <-]).
  destruct (obj_get (js "function") tcProps) as [func|] eqn:Hf;
    [|intros [= <-]; simpl; by rewrite Hf].
  destruct (truthy func) eqn:Ht;
    [|intros [= <-]; simpl; rewrite Hf; by destruct func].
  destruct func as [|b|neg x|s|items|funcProps];
    try (intros [= <-]; simpl; by rewrite Hf).
  destruct (obj_get (js "arguments") funcProps) as [args|] eqn:Ha;
    [|intros [= <-]; simpl; by rewrite Hf, Ha].
  destruct (truthy args) eqn:Hta.
  - destruct (is_object args || negb (is_string args)) eqn:Hk.
    + intros [= <-]. simpl. rewrite Hf, Ha, !obj_get_set.
      split.
      * intros a [= <-] _.
        by destruct args.
      * by intros a [= <-] _.
    + intros [= <-]. simpl. rewrite Hf, Ha.
      apply orb_false_iff in Hk as [_ Hk]. apply negb_false_iff in Hk.
      split; intros a [= <-] _; by rewrite ?Hk.
  - intros [= <-]. simpl. rewrite Hf, Ha.
    split; intros a [= <-]; congruence.
Qed.

Lemma tool_calls_of_result (jsonStr : option jsstring) (calls : list JValue) :
  tool_calls_of jsonStr = Returns (Some calls) ->
  exists src props raws,
    jsonStr = Some src
    /\ Json.parse src = Some (JObject props)
    /\ obj_get (js "tool_calls") props = Some (JArray raws)
    /\ Forall2 (fun raw tc => ensure_string_arguments raw = Returns tc)
         raws calls.
Proof.
  unfold tool_calls_of, JSON_parse, bind, get.
  destruct jsonStr as [src|]; [|done].
  destruct (Json.parse src) as [parsedData|] eqn:Hp; [|done].
  destruct parsedData as [|b|neg x|s|items|props]; try done.
  destruct (obj_get (js "tool_calls") props) as [toolCalls|] eqn:Hg; [|done].
  destruct toolCalls as [|b|neg x|s|raws|o]; try done.
  destruct (for_each ensure_string_arguments raws) as [calls'|] eqn:Hfe;
    [|done].
  intros [= <-]. exists src, props, raws.
  repeat split; try done. by apply for_each_Forall2.
Qed.

Lemma try_tool_calls_of (jsonStr : option jsstring) (calls : list JValue) :
  try_catch (tool_calls_of jsonStr) None = Some calls ->
  tool_calls_of jsonStr = Returns (Some calls).
Proof.
  unfold try_catch. destruct (tool_calls_of jsonStr) as [r|]; [|done].
  by intros ->.
Qed.

(** C3 fails as stated: an entry whose [arguments] is [null] is returned
    with [arguments] still [null], not a string. *)
Lemma extractToolInvocations_keeps_null_arguments :
  extractToolInvocations sample_config 0
    (jsq "{'tool_calls': [{'function': {'name': 'f', 'arguments': null}}]}")
  = Returns
      (Some [JObject
               [(js "function",
                 JObject [(js "name", JString (js "f"));
                          (js "arguments", JNull)])]])
  /\ arguments_of
       (JObject
          [(js "function",
            JObject [(js "name", JString (js "f")); (js "arguments", JNull)])])
     = Some JNull
  /\ is_string JNull = false.
Proof. by vm_compute. Qed.

(** ** The brace scanner and the JSON grammar *)

Lemma scan_escaped (c : N) (s : jsstring) (j n : nat) (inString : bool) :
  scan_braces (c :: s) j (S n) inString true
  = scan_braces s (S j) (S n) inString false.
Proof. done. Qed.

Lemma scan_backslash (s : jsstring) (j n : nat) (inString : bool) :
  scan_braces (92 :: s) j (S n) inString false
  = scan_braces s (S j) (S n) inString true.
Proof. done. Qed.

Lemma scan_quote (s : jsstring) (j n : nat) (inString : bool) :
  scan_braces (34 :: s) j (S n) inString false
  = scan_braces s (S j) (S n) (negb inString) false.
Proof. done. Qed.

Lemma scan_in_string (c : N) (s : jsstring) (j n : nat) :
  c <> 92 -> c <> 34 ->
  scan_braces (c :: s) j (S n) true false
  = scan_braces s (S j) (S n) true false.
Proof.
  intros H1 H2. cbn [scan_braces]. change (ch "\") with 92.
  by rewrite (proj2 (N.eqb_neq c 92)), (proj2 (N.eqb_neq c 34)).
Qed.

Lemma scan_plain (c : N) (s : jsstring) (j n : nat) :
  plain c = true ->
  scan_braces (c :: s) j (S n) false false
  = scan_braces s (S j) (S n) false false.
Proof.
  unfold plain. intros H. apply negb_true_iff in H.
  repeat (apply orb_false_iff in H as [H ?]).
  cbn [scan_braces]. change (ch "\") with 92. change (ch "{") with 123.
  change (ch "}") with 125.
  by repeat (match goal with E : (c =? _) = false |- _ => rewrite E; clear E end).
Qed.

Lemma scan_open (s : jsstring) (j n : nat) :
  scan_braces (123 :: s) j (S n) false false
  = scan_braces s (S j) (S (S n)) false false.
Proof. done. Qed.

Lemma scan_close (s : jsstring) (j n : nat) :
  scan_braces (125 :: s) j (S n) false false
  = scan_braces s (S j) n false false.
Proof. done. Qed.

Lemma scan_done (s : jsstring) (j : nat) (inString escapeNext : bool) :
  scan_braces s j 0 inString escapeNext = (j, 0%nat).
Proof. by destruct s. Qed.

Lemma balanced_nil : balanced [].
Proof. intros rest j n. cbn [app length]. by rewrite Nat.add_0_r. Qed.

Lemma balanced_app (u v : jsstring) :
  balanced u -> balanced v -> balanced (u ++ v).
Proof.
  intros Hu Hv rest j n. rewrite <- app_assoc, Hu, Hv, length_app.
  by rewrite Nat.add_assoc.
Qed.

Lemma balanced_plain (c : N) : plain c = true -> balanced [c].
Proof.
  intros H rest j n. cbn [app length]. rewrite scan_plain by done.
  by rewrite Nat.add_1_r.
Qed.

Lemma balanced_cons (c : N) (w : jsstring) :
  plain c = true -> balanced w -> balanced (c :: w).
Proof. intros. apply (balanced_app [c] w); [by apply balanced_plain|done]. Qed.

Lemma balanced_all_plain (w : jsstring) :
  forallb plain w = true -> balanced w.
Proof.
  induction w as [|c w IH]; simpl; [intros; apply balanced_nil|].
  intros H. apply andb_true_iff in H as [Hc Hw].
  apply balanced_cons; auto.
Qed.

Lemma balanced_braces (w : jsstring) : balanced w -> balanced (123 :: w ++ [125]).
Proof.
  intros Hw rest j n. cbn [app length]. rewrite scan_open, <- app_assoc, Hw. cbn [app length].
  rewrite scan_close, length_app. cbn [app length]. f_equal. lia.
Qed.

Lemma balanced_string (w : jsstring) : closes_string w -> balanced (34 :: w).
Proof.
  intros Hw rest j n. cbn [app length]. rewrite scan_quote. cbn [app length]. rewrite Hw.
  f_equal. lia.
Qed.

Lemma scans_over_refl (s : jsstring) : scans_over s s.
Proof. exists []. split; [done|apply balanced_nil]. Qed.

Lemma scans_over_trans (s1 s2 s3 : jsstring) :
  scans_over s1 s2 -> scans_over s2 s3 -> scans_over s1 s3.
Proof.
  intros (u & -> & Hu) (v & -> & Hv). exists (u ++ v).
  split; [by rewrite app_assoc|by apply balanced_app].
Qed.

Lemma scans_over_cons (c : N) (s rest : jsstring) :
  plain c = true -> scans_over s rest -> scans_over (c :: s) rest.
Proof.
  intros Hc (w & -> & Hw). exists (c :: w). split; [done|].
  by apply balanced_cons.
Qed.

Lemma skip_ws_scans (s : jsstring) : scans_over s (Json.skip_ws s).
Proof.
  induction s as [|c s IH]; simpl; [apply scans_over_refl|].
  destruct (Json.is_ws c) eqn:E; [|apply scans_over_refl].
  apply scans_over_cons; [|done].
  unfold Json.is_ws in E. unfold plain.
  repeat (apply orb_true_iff in E as [E|E]); apply N.eqb_eq in E as ->; done.
Qed.

Lemma hex_value_plain (c : N) (v : N) :
  Json.hex_value c = Some v -> c <> 92 /\ c <> 34.
Proof.
  unfold Json.hex_value, Json.is_digit. intros H.
  split; intros ->; by vm_compute in H.
Qed.

Lemma parse_chars_closes (s t rest : jsstring) :
  Json.parse_chars s = Some (t, rest) ->
  exists w, s = w ++ rest /\ closes_string w.
Proof.
  revert t rest. induction s as [s IH] using (induction_ltof1 _ (@length N)).
  unfold ltof in IH. intros t rest. destruct s as [|c s]; [done|].
  cbn [Json.parse_chars].
  destruct (c =? 34) eqn:E34.
  { apply N.eqb_eq in E34 as ->. intros [= <- <-]. exists [34].
    split; [done|]. intros X j k. cbn [app length]. rewrite scan_quote. simpl.
    f_equal. lia. }
  destruct (c =? 92) eqn:E92.
  { apply N.eqb_eq in E92 as ->. destruct s as [|e s]; [done|].
    destruct (e =? 117) eqn:E117.
    - destruct s as [|h1 [|h2 [|h3 [|h4 s3]]]]; try done.
      unfold Json.hex4.
      destruct (Json.hex_value h1) eqn:H1; [|done].
      destruct (Json.hex_value h2) eqn:H2; [|done].
      destruct (Json.hex_value h3) eqn:H3; [|done].
      destruct (Json.hex_value h4) eqn:H4; [|done].
      destruct (Json.parse_chars s3) as [[t' rest']|] eqn:E; [|done].
      intros [= <- <-].
      apply IH in E as (w & -> & Hw); [|cbn [length]; lia].
      exists (92 :: e :: h1 :: h2 :: h3 :: h4 :: w). split; [done|].
      intros X j k. cbn [app length]. rewrite scan_backslash, scan_escaped.
      apply hex_value_plain in H1 as [? ?]. apply hex_value_plain in H2 as [? ?].
      apply hex_value_plain in H3 as [? ?]. apply hex_value_plain in H4 as [? ?].
      rewrite !scan_in_string by done. rewrite Hw. f_equal. lia.
    - destruct (Json.escape e); [|done].
      destruct (Json.parse_chars s) as [[t' rest']|] eqn:E; [|done].
      intros [= <- <-].
      apply IH in E as (w & -> & Hw); [|cbn [length]; lia].
      exists (92 :: e :: w). split; [done|].
      intros X j k. cbn [app length]. rewrite scan_backslash, scan_escaped, Hw.
      f_equal. lia. }
  destruct (c <? 32); [done|].
  destruct (Json.parse_chars s) as [[t' rest']|] eqn:E; [|done].
  intros [= <- <-].
  apply IH in E as (w & -> & Hw); [|cbn [length]; lia].
  exists (c :: w). split; [done|].
  intros X j k. cbn [app length]. apply N.eqb_neq in E34, E92.
  rewrite scan_in_string by done. rewrite Hw. f_equal. lia.
Qed.

Lemma digit_plain (c : N) : Json.is_digit c = true -> plain c = true.
Proof.
  unfold Json.is_digit, plain. intros H. apply andb_true_iff in H as [H1 H2].
  apply N.leb_le in H1, H2. apply negb_true_iff.
  repeat (apply orb_false_iff; split); apply N.eqb_neq; lia.
Qed.

Lemma take_digits_scans (s ds rest : jsstring) :
  Json.take_digits s = (ds, rest) -> scans_over s rest.
Proof.
  revert ds rest. induction s as [|c s IH]; intros ds rest; simpl.
  - intros [= <- <-]. apply scans_over_refl.
  - destruct (Json.is_digit c) eqn:E.
    + destruct (Json.take_digits s) as [ds' rest']. intros [= <- <-].
      apply scans_over_cons; [by apply digit_plain|]. by eapply IH.
    + intros [= <- <-]. apply scans_over_refl.
Qed.

Ltac char_cases x :=
  destruct x as [|x]; [|do 7 (try destruct x as [x|x|])].

Lemma number_sign_scans (s s1 : jsstring) (neg : bool) :
  Json.number_sign s = (neg, s1) -> scans_over s s1.
Proof.
  unfold Json.number_sign. destruct s as [|c s];
    [intros [= <- <-]; apply scans_over_refl|].
  destruct (decide (c = 45)) as [->|Hne].
  - intros [= <- <-]. apply scans_over_cons; [done|apply scans_over_refl].
  - char_cases c; try done; intros [= <- <-]; apply scans_over_refl.
Qed.

Lemma number_int_scans (s ds rest : jsstring) :
  Json.number_int s = Some (ds, rest) -> scans_over s rest.
Proof.
  unfold Json.number_int. destruct s as [|d s]; [done|].
  destruct (Json.is_digit d) eqn:Hd; [|done]. apply digit_plain in Hd.
  destruct (d =? 48).
  - intros [= <- <-]. apply scans_over_cons; [done|apply scans_over_refl].
  - destruct (Json.take_digits s) as [ds' rest'] eqn:E. intros [= <- <-].
    apply scans_over_cons; [done|]. by eapply take_digits_scans.
Qed.

Lemma number_frac_scans (s fs rest : jsstring) :
  Json.number_frac s = Some (fs, rest) -> scans_over s rest.
Proof.
  unfold Json.number_frac. destruct s as [|c s];
    [intros [= <- <-]; apply scans_over_refl|].
  destruct (decide (c = 46)) as [->|Hne].
  - destruct (Json.take_digits s) as [[|f fs'] rest'] eqn:E; [done|].
    intros [= <- <-]. apply scans_over_cons; [done|].
    by eapply take_digits_scans.
  - char_cases c; try done; intros [= <- <-]; apply scans_over_refl.
Qed.

Lemma exponent_sign_scans (s s1 : jsstring) (eneg : bool) :
  (match s with
   | 45 :: r => (true, r)
   | 43 :: r => (false, r)
   | _ => (false, s)
   end) = (eneg, s1) ->
  scans_over s s1.
Proof.
  destruct s as [|x s']; [intros [= <- <-]; apply scans_over_refl|].
  destruct (decide (x = 45)) as [->|H45].
  { intros [= <- <-]. apply scans_over_cons; [done|apply scans_over_refl]. }
  destruct (decide (x = 43)) as [->|H43].
  { intros [= <- <-]. apply scans_over_cons; [done|apply scans_over_refl]. }
  char_cases x; try done; intros [= <- <-]; apply scans_over_refl.
Qed.

Lemma number_exp_scans (s rest : jsstring) (e : Z) :
  Json.number_exp s = Some (e, rest) -> scans_over s rest.
Proof.
  unfold Json.number_exp. destruct s as [|c s];
    [intros [= <- <-]; apply scans_over_refl|].
  destruct ((c =? 101) || (c =? 69)) eqn:Hc;
    [|intros [= <- <-]; apply scans_over_refl].
  assert (Hp : plain c = true).
  { apply orb_true_iff in Hc as [Hc|Hc]; apply N.eqb_eq in Hc as ->; done. }
  destruct (match s with
            | 45 :: r => (true, r)
            | 43 :: r => (false, r)
            | _ => (false, s)
            end) as [eneg s1] eqn:Es.
  apply exponent_sign_scans in Es.
  destruct (Json.take_digits s1) as [[|d es] rest'] eqn:E; [done|].
  intros [= <- <-]. apply scans_over_cons; [done|].
  eapply scans_over_trans; [exact Es|]. by eapply take_digits_scans.
Qed.

Lemma parse_number_scans (s rest : jsstring) (v : JValue) :
  Json.parse_number s = Some (v, rest) -> scans_over s rest.
Proof.
  unfold Json.parse_number.
  destruct (Json.number_sign s) as [neg s1] eqn:E1.
  destruct (Json.number_int s1) as [[int s2]|] eqn:E2; [|done].
  destruct (Json.number_frac s2) as [[fs s3]|] eqn:E3; [|done].
  destruct (Json.number_exp s3) as [[e s4]|] eqn:E4; [|done].
  intros [= <- <-].
  apply number_sign_scans in E1. apply number_int_scans in E2.
  apply number_frac_scans in E3. apply number_exp_scans in E4.
  eauto using scans_over_trans.
Qed.

Lemma startsWith_prefix (p s : jsstring) :
  startsWith p s = true -> s = p ++ drop (length p) s.
Proof.
  revert s. induction p as [|a p IH]; intros s; [done|].
  destruct s as [|b s]; [done|]. simpl.
  intros H. apply andb_true_iff in H as [Hab H]. apply N.eqb_eq in Hab as ->.
  f_equal. by apply IH.
Qed.

Lemma parse_word_scans (w s rest : jsstring) (v v' : JValue) :
  forallb plain w = true ->
  Json.parse_word w v s = Some (v', rest) -> scans_over s rest.
Proof.
  intros Hw. unfold Json.parse_word.
  destruct (startsWith w s) eqn:E; [|done]. intros [= <- <-].
  exists w. split; [by apply startsWith_prefix|by apply balanced_all_plain].
Qed.

(** The text that the parser consumes for a value is balanced; the text
    between the brackets of an array or object is. *)
Lemma parse_scans (fuel : nat) :
  (forall s v rest, Json.parse_value fuel s = Some (v, rest) ->
     scans_over s rest
     /\ forall s', s = 123 :: s' -> scans_over s' (125 :: rest))
  /\ (forall s acc v rest, Json.parse_elements fuel s acc = Some (v, rest) ->
        scans_over s (93 :: rest))
  /\ (forall s acc v rest, Json.parse_members fuel s acc = Some (v, rest) ->
        scans_over s (125 :: rest)).
Proof.
  induction fuel as [|fuel (IHv & IHe & IHm)]; [done|].
  split; [|split].
  - intros s v rest. cbn [Json.parse_value].
    destruct s as [|c s1]; [done|].
    destruct (c =? 123) eqn:E123.
    { apply N.eqb_eq in E123 as ->. intros H.
      assert (Hin : scans_over s1 (125 :: rest)).
      { pose proof (skip_ws_scans s1) as Hws.
        destruct (Json.skip_ws s1) as [|x s2] eqn:Es.
        - eapply scans_over_trans; [exact Hws|]. by apply IHm in H.
        - destruct (decide (x = 125)) as [->|Hne].
          + by injection H as <- <-.
          + eapply scans_over_trans; [exact Hws|].
            apply (IHm (x :: s2) [] v rest).
            char_cases x; done. }
      split; [|by intros s' [= <-]].
      destruct Hin as (w & -> & Hw). exists (123 :: w ++ [125]).
      split; [cbn [app]; by rewrite <- app_assoc|by apply balanced_braces]. }
    assert (Hother : scans_over (c :: s1) rest ->
              scans_over (c :: s1) rest
              /\ forall s', c :: s1 = 123 :: s' -> scans_over s' (125 :: rest)).
    { intros Hs. split; [done|]. intros s' [= -> _]. done. }
    destruct (c =? 91) eqn:E91.
    { apply N.eqb_eq in E91 as ->. intros H. apply Hother.
      apply scans_over_cons; [done|].
      pose proof (skip_ws_scans s1) as Hws.
      assert (Hin : scans_over s1 (93 :: rest)).
      { destruct (Json.skip_ws s1) as [|x s2] eqn:Es.
        - eapply scans_over_trans; [exact Hws|]. by apply IHe in H.
        - destruct (decide (x = 93)) as [->|Hne].
          + by injection H as <- <-.
          + eapply scans_over_trans; [exact Hws|].
            apply (IHe (x :: s2) [] v rest).
            char_cases x; done. }
      eapply scans_over_trans; [exact Hin|].
      apply scans_over_cons; [done|apply scans_over_refl]. }
    destruct (c =? 34) eqn:E34.
    { apply N.eqb_eq in E34 as ->.
      destruct (Json.parse_chars s1) as [[t rest']|] eqn:E; [|done].
      intros [= <- <-]. apply Hother.
      apply parse_chars_closes in E as (w & -> & Hw).
      exists (34 :: w). split; [done|by apply balanced_string]. }
    destruct (c =? 116).
    { intros H. apply Hother. by eapply parse_word_scans; [|exact H]. }
    destruct (c =? 102).
    { intros H. apply Hother. by eapply parse_word_scans; [|exact H]. }
    destruct (c =? 110).
    { intros H. apply Hother. by eapply parse_word_scans; [|exact H]. }
    intros H. apply Hother. by eapply parse_number_scans.
  - intros s acc v rest. cbn [Json.parse_elements].
    destruct (Json.parse_value fuel s) as [[v1 s1]|] eqn:E; [|done].
    apply IHv in E as [E _].
    pose proof (skip_ws_scans s1) as Hws.
    destruct (Json.skip_ws s1) as [|x s2] eqn:Es; [done|].
    destruct (decide (x = 44)) as [->|H44].
    { intros H. apply IHe in H.
      eapply scans_over_trans; [exact E|].
      eapply scans_over_trans; [exact Hws|].
      apply scans_over_cons; [done|].
      eapply scans_over_trans; [apply skip_ws_scans|exact H]. }
    destruct (decide (x = 93)) as [->|H93].
    { intros [= <- <-]. by eapply scans_over_trans. }
    intros H. exfalso. char_cases x; done.
  - intros s acc v rest. cbn [Json.parse_members].
    destruct s as [|q s0]; [done|].
    destruct (decide (q = 34)) as [->|Hq];
      [|intros H; exfalso; char_cases q; done].
    destruct (Json.parse_chars s0) as [[key s1]|] eqn:Ek; [|done].
    apply parse_chars_closes in Ek as (wk & -> & Hwk).
    pose proof (skip_ws_scans s1) as Hws1.
    destruct (Json.skip_ws s1) as [|x s2] eqn:Es1; [done|].
    destruct (decide (x = 58)) as [->|Hx];
      [|intros H; exfalso; char_cases x; done].
    destruct (Json.parse_value fuel (Json.skip_ws s2)) as [[v1 s3]|] eqn:Ev;
      [|done].
    apply IHv in Ev as [Ev _].
    pose proof (skip_ws_scans s3) as Hws3.
    assert (Hpre : scans_over (34 :: wk ++ s1) s3).
    { eapply scans_over_trans.
      { exists (34 :: wk). split; [done|by apply balanced_string]. }
      eapply scans_over_trans; [exact Hws1|].
      apply scans_over_cons; [done|].
      eapply scans_over_trans; [apply skip_ws_scans|exact Ev]. }
    destruct (Json.skip_ws s3) as [|y s4] eqn:Es3; [done|].
    destruct (decide (y = 44)) as [->|H44].
    { intros H. apply IHm in H.
      eapply scans_over_trans; [exact Hpre|].
      eapply scans_over_trans; [exact Hws3|].
      apply scans_over_cons; [done|].
      eapply scans_over_trans; [apply skip_ws_scans|exact H]. }
    destruct (decide (y = 125)) as [->|H125].
    { intros [= <- <-]. by eapply scans_over_trans. }
    intros H. exfalso. char_cases y; done.
Qed.

Lemma scans_over_length (s rest : jsstring) :
  scans_over s rest -> (length rest <= length s)%nat.
Proof. intros (w & -> & _). rewrite length_app. lia. Qed.

Lemma skip_ws_length (s : jsstring) :
  (length (Json.skip_ws s) <= length s)%nat.
Proof. apply scans_over_length, skip_ws_scans. Qed.

Lemma parse_chars_length (s t rest : jsstring) :
  Json.parse_chars s = Some (t, rest) -> (length rest <= length s)%nat.
Proof.
  intros H. apply parse_chars_closes in H as (w & -> & _).
  rewrite length_app. lia.
Qed.

(** A parse that succeeds with some fuel succeeds with any fuel above twice
    the length of the text. *)
Lemma parse_fuel (n : nat) :
  (forall s v rest, Json.parse_value n s = Some (v, rest) ->
     forall m, (2 * length s + 1 <= m)%nat ->
     Json.parse_value m s = Some (v, rest))
  /\ (forall s acc v rest, Json.parse_elements n s acc = Some (v, rest) ->
        forall m, (2 * length s + 2 <= m)%nat ->
        Json.parse_elements m s acc = Some (v, rest))
  /\ (forall s acc v rest, Json.parse_members n s acc = Some (v, rest) ->
        forall m, (2 * length s + 2 <= m)%nat ->
        Json.parse_members m s acc = Some (v, rest)).
Proof.
  induction n as [|n (IHv & IHe & IHm)]; [done|].
  split; [|split].
  - intros s v rest H m Hm. destruct m as [|m]; [lia|].
    cbn [Json.parse_value] in H |- *.
    destruct s as [|c s1]; [done|]. cbn [length] in Hm.
    pose proof (skip_ws_length s1) as Hws.
    destruct (c =? 123).
    { destruct (Json.skip_ws s1) as [|x s2] eqn:Es.
      - apply IHm; [done|simpl; lia].
      - destruct (decide (x = 125)) as [->|Hne]; [done|].
        enough (Json.parse_members m (x :: s2) [] = Some (v, rest))
          by (char_cases x; done).
        apply IHm; [char_cases x; done|lia]. }
    destruct (c =? 91).
    { destruct (Json.skip_ws s1) as [|x s2] eqn:Es.
      - apply IHe; [done|simpl; lia].
      - destruct (decide (x = 93)) as [->|Hne]; [done|].
        enough (Json.parse_elements m (x :: s2) [] = Some (v, rest))
          by (char_cases x; done).
        apply IHe; [char_cases x; done|lia]. }
    done.
  - intros s acc v rest H m Hm. destruct m as [|m]; [lia|].
    cbn [Json.parse_elements] in H |- *.
    destruct (Json.parse_value n s) as [[v1 s1]|] eqn:E; [|done].
    pose proof (scans_over_length _ _ (proj1 (proj1 (parse_scans n) _ _ _ E)))
      as Hs1.
    rewrite (IHv _ _ _ E m) by lia.
    pose proof (skip_ws_length s1) as Hws.
    destruct (Json.skip_ws s1) as [|x s2] eqn:Es; [done|].
    cbn [length] in Hws.
    destruct (decide (x = 44)) as [->|H44].
    { pose proof (skip_ws_length s2). apply IHe; [done|lia]. }
    destruct (decide (x = 93)) as [->|H93]; [done|].
    exfalso. char_cases x; done.
  - intros s acc v rest H m Hm. destruct m as [|m]; [lia|].
    cbn [Json.parse_members] in H |- *.
    destruct s as [|q s0]; [done|].
    destruct (decide (q = 34)) as [->|Hq]; [|exfalso; char_cases q; done].
    cbn [length] in Hm.
    destruct (Json.parse_chars s0) as [[key s1]|] eqn:Ek; [|done].
    apply parse_chars_length in Ek.
    pose proof (skip_ws_length s1) as Hws1.
    destruct (Json.skip_ws s1) as [|x s2] eqn:Es1; [done|].
    cbn [length] in Hws1.
    destruct (decide (x = 58)) as [->|Hx]; [|exfalso; char_cases x; done].
    pose proof (skip_ws_length s2) as Hws2.
    destruct (Json.parse_value n (Json.skip_ws s2)) as [[v1 s3]|] eqn:Ev;
      [|done].
    pose proof (scans_over_length _ _ (proj1 (proj1 (parse_scans n) _ _ _ Ev)))
      as Hs3.
    rewrite (IHv _ _ _ Ev m) by lia.
    pose proof (skip_ws_length s3) as Hws3.
    destruct (Json.skip_ws s3) as [|y s4] eqn:Es3; [done|].
    cbn [length] in Hws3.
    destruct (decide (y = 44)) as [->|H44].
    { pose proof (skip_ws_length s4). apply IHm; [done|lia]. }
    destruct (decide (y = 125)) as [->|H125]; [done|].
    exfalso. char_cases y; done.
Qed.

(** The fuel of [Json.parse] is enough: a text that parses with any amount
    of fuel parses with the amount [Json.parse] gives. *)
Lemma parse_fuel_enough (n : nat) (s : jsstring) (v : JValue)
    (rest : jsstring) :
  Json.parse_value n (Json.skip_ws s) = Some (v, rest) ->
  Json.skip_ws rest = [] ->
  Json.parse s = Some v.
Proof.
  intros H Hrest. unfold Json.parse.
  pose proof (skip_ws_length s).
  rewrite (proj1 (parse_fuel n) _ _ _ H) by lia. by rewrite Hrest.
Qed.

Lemma skip_ws_all (s : jsstring) :
  Json.skip_ws s = [] -> forallb Json.is_ws s = true.
Proof.
  induction s as [|c s IH]; simpl; [done|].
  destruct (Json.is_ws c); [done|]. done.
Qed.

(** The scanner, started after the opening brace of a JSON object text,
    stops right after its closing brace. *)
Lemma scan_object (body post : jsstring) (v : JValue) :
  Json.parse (123 :: body ++ [125]) = Some v ->
  scan_braces (body ++ [125] ++ post) 1 1 false false
  = (S (S (length body)), 0%nat).
Proof.
  unfold Json.parse. cbn [Json.skip_ws]. change (Json.is_ws 123) with false.
  cbv iota.
  destruct (Json.parse_value _ _) as [[v' rest]|] eqn:E; [|done].
  destruct (Json.skip_ws rest) eqn:Hrest; [|done]. intros _.
  apply skip_ws_all in Hrest.
  destruct (parse_scans (2 * length (123 :: body ++ [125]) + 1)) as (Hv & _ & _).
  apply Hv in E as [_ E]. specialize (E _ eq_refl).
  destruct E as (w & Hw & Hbal).
  assert (rest = []) as ->.
  { destruct rest as [|r0 rest'] using rev_ind; [done|]. exfalso.
    rewrite forallb_app in Hrest. apply andb_true_iff in Hrest as [_ Hx].
    simpl in Hx. rewrite andb_true_r in Hx.
    change (w ++ 125 :: rest' ++ [r0]) with (w ++ (125 :: rest') ++ [r0]) in Hw.
    rewrite app_assoc in Hw. apply app_inj_tail in Hw as [_ <-]. done. }
  apply app_inj_tail in Hw as [-> _].
  rewrite Hbal. cbn [app]. rewrite scan_close, scan_done. done.
Qed.






Section FencePattern.
Context {A : Type}.

Lemma rmatch_Text (p s : jsstring) (caps : Regex.captures)
    (k : @Regex.continuation A) :
  Regex.rmatch (Regex.Text p) s caps k
  = if startsWith p s then k (drop (length p) s) caps else None.
Proof.
  revert s. induction p as [|a p IH]; intros s; [by destruct s|].
  change (Regex.Text (a :: p)) with (Regex.Seq (Regex.Lit a) (Regex.Text p)).
  cbn [Regex.rmatch]. destruct s as [|x s]; [done|].
  cbn [startsWith length drop]. rewrite (N.eqb_sym a x).
  destruct (x =? a); [|done]. apply IH.
Qed.

Lemma in_class_space (c : N) :
  Regex.in_class [Regex.Space] c = is_js_space c.
Proof. unfold Regex.in_class. simpl. apply orb_false_r. Qed.

(** A greedy [\s*] runs to the end of the white space when what follows
    matches there. *)
Lemma iterate_spaces (k : @Regex.continuation A) (ws s : jsstring)
    (caps : Regex.captures) (a : A) (fuel : nat) :
  forallb is_js_space ws = true ->
  match s with
  | c :: _ => is_js_space c = false
  | [] => True
  end ->
  k s caps = Some a ->
  (length (ws ++ s) < fuel)%nat ->
  Regex.iterate true (Regex.rmatch (Regex.Class [Regex.Space])) k fuel
    (ws ++ s) caps = Some a.
Proof.
  intros Hws Hs Hk. revert fuel.
  induction ws as [|c ws IH]; intros fuel Hfuel.
  - destruct fuel as [|fuel]; [simpl in Hfuel; lia|].
    cbn [app Regex.iterate Regex.rmatch].
    destruct s as [|c s]; cbn [Regex.orElse]; [done|].
    rewrite in_class_space, Hs. by cbn [Regex.orElse].
  - destruct fuel as [|fuel]; [simpl in Hfuel; lia|].
    cbn [forallb] in Hws. apply andb_true_iff in Hws as [Hc Hws].
    cbn [app Regex.iterate Regex.rmatch].
    rewrite in_class_space, Hc.
    replace (length (ws ++ s) <? length (c :: ws ++ s))%nat with true
      by (symmetry; apply Nat.ltb_lt; simpl; lia).
    rewrite IH; [done|done|]. simpl in Hfuel. lia.
Qed.

(** A greedy [\s*] followed by a literal text fails when the text does not
    follow the white space. *)
Lemma iterate_spaces_fails (p : jsstring) (k : @Regex.continuation A)
    (t : jsstring) (caps : Regex.captures) (fuel : nat) :
  match p with
  | c :: _ => is_js_space c = false
  | [] => False
  end ->
  startsWith p (trimStart t) = false ->
  Regex.iterate true (Regex.rmatch (Regex.Class [Regex.Space]))
    (fun s1 c1 => Regex.rmatch (Regex.Text p) s1 c1 k) fuel t caps = None.
Proof.
  intros Hp. revert fuel. induction t as [|c t IH]; intros fuel Ht.
  - destruct fuel as [|fuel]; [done|].
    cbn [Regex.iterate Regex.rmatch Regex.orElse].
    rewrite rmatch_Text. by destruct p.
  - destruct fuel as [|fuel]; [done|].
    cbn [Regex.iterate Regex.rmatch]. rewrite in_class_space.
    cbn [trimStart] in Ht. destruct (is_js_space c) eqn:Hc.
    + destruct (length t <? length (c :: t))%nat;
        [rewrite IH by done|]; cbn [Regex.orElse]; rewrite rmatch_Text;
        destruct p as [|a p]; try done; cbn [startsWith];
        destruct (a =? c) eqn:E; try done;
        apply N.eqb_eq in E as ->; congruence.
    + cbn [Regex.orElse]. by rewrite rmatch_Text, Ht.
Qed.

(** A lazy [.*?] stops at the first place where what follows matches. *)
Lemma iterate_lazy_dot (k : @Regex.continuation A) (w s : jsstring)
    (caps : Regex.captures) (a : A) (fuel : nat) :
  (forall w1 w2, w = w1 ++ w2 -> w2 <> [] -> k (w2 ++ s) caps = None) ->
  k s caps = Some a ->
  (length (w ++ s) < fuel)%nat ->
  Regex.iterate false (Regex.rmatch Regex.Dot) k fuel (w ++ s) caps = Some a.
Proof.
  intros Hfail Hk. revert fuel.
  induction w as [|c w IH]; intros fuel Hfuel.
  - destruct fuel as [|fuel]; [simpl in Hfuel; lia|].
    cbn [app Regex.iterate]. by rewrite Hk.
  - destruct fuel as [|fuel]; [simpl in Hfuel; lia|].
    cbn [app Regex.iterate Regex.rmatch].
    pose proof (Hfail [] (c :: w) eq_refl ltac:(done)) as Hf.
    cbn [app] in Hf. rewrite Hf. cbn [Regex.orElse].
    replace (length (w ++ s) <? length (c :: w ++ s))%nat with true
      by (symmetry; apply Nat.ltb_lt; simpl; lia).
    apply IH; [|simpl in Hfuel; lia].
    intros w1 w2 -> Hw2. by apply (Hfail (c :: w1) w2).
Qed.

End FencePattern.

Lemma fence_shape :
  TOOL_CALL_FENCE_PATTERN
  = Regex.Seq (Regex.Text (js "```json"))
      (Regex.Seq (Regex.Star true (Regex.Class [Regex.Space]))
         (Regex.Seq
            (Regex.Group 1
               (Regex.Seq (Regex.Lit 123)
                  (Regex.Seq (Regex.Star false Regex.Dot)
                     (Regex.Seq (Regex.Lit 125) Regex.Eps))))
            (Regex.Seq (Regex.Star true (Regex.Class [Regex.Space]))
               (Regex.Seq (Regex.Text (js "```")) Regex.Eps)))).
Proof. reflexivity. Qed.

Lemma no_close_inside (u r rest : jsstring) :
  includes (js "```") (u ++ r ++ [125]) = false ->
  startsWith (js "```") (trimStart (r ++ 125 :: rest)) = false.
Proof.
  revert u. induction r as [|c r IH]; intros u Hu; [done|].
  cbn [app trimStart]. destruct (is_js_space c) eqn:Hc.
  - apply (IH (u ++ [c])). by rewrite <- app_assoc.
  - destruct (startsWith (js "```") (c :: r ++ 125 :: rest)) eqn:E; [|done].
    exfalso. change (js "```") with [96; 96; 96] in *.
    assert (Hr : exists r', c :: r = 96 :: 96 :: 96 :: r').
    { cbn [startsWith] in E. apply andb_true_iff in E as [E1 E].
      apply N.eqb_eq in E1 as <-.
      destruct r as [|a [|b r']]; cbn [app startsWith] in E.
      - done.
      - apply andb_true_iff in E as [_ E]. done.
      - apply andb_true_iff in E as [E2 E]. apply andb_true_iff in E as [E3 _].
        apply N.eqb_eq in E2 as <-. apply N.eqb_eq in E3 as <-. by eexists. }
    destruct Hr as [r' Hr].
    change (c :: r ++ [125]) with ((c :: r) ++ [125]) in Hu.
    rewrite Hr in Hu. rewrite includes_app_r in Hu; [done|].
    cbn [app includes startsWith]. done.
Qed.

Lemma exec_fence (ws1 obj body ws2 post : jsstring) :
  obj = 123 :: body ++ [125] ->
  forallb is_js_space ws1 = true -> forallb is_js_space ws2 = true ->
  includes (js "```") obj = false ->
  exists m,
    Regex.exec_here 1 TOOL_CALL_FENCE_PATTERN
      (js "```json" ++ ws1 ++ obj ++ ws2 ++ js "```" ++ post) = Some m
    /\ Regex.before m = []
    /\ Regex.matched m = js "```json" ++ ws1 ++ obj ++ ws2 ++ js "```"
    /\ Regex.groups m !! 1%nat = Some (Some obj)
    /\ Regex.after m = post.
Proof.
  intros Hobj Hws1 Hws2 Hclose.
  unfold Regex.exec_here. rewrite fence_shape. cbn [Regex.rmatch].
  rewrite rmatch_Text, startsWith_app, drop_app_length.
  eexists. split.
  { apply iterate_spaces; [done|by rewrite Hobj| |lia].
    rewrite Hobj at 1. cbn [app]. rewrite N.eqb_refl.
    rewrite <- app_assoc.
    apply iterate_lazy_dot; [| |lia].
    - intros w1 w2 Hbody Hw2. destruct w2 as [|x w2]; [done|].
      cbn [app]. destruct (x =? 125) eqn:Hx; [|done].
      apply N.eqb_eq in Hx as ->.
      apply (iterate_spaces_fails (js "```")); [done|].
      apply (no_close_inside (123 :: w1 ++ [125]) w2).
      rewrite Hobj, Hbody in Hclose. cbn [app].
      by rewrite <- !app_assoc in *.
    - cbn [app]. rewrite N.eqb_refl.
      apply iterate_spaces; [done|done| |lia].
      rewrite rmatch_Text, startsWith_app, drop_app_length. reflexivity. }
  cbn [Regex.before Regex.matched Regex.groups Regex.after].
  split; [done|]. split; [|split; [|done]].
  - replace (js "```json" ++ ws1 ++ obj ++ ws2 ++ js "```" ++ post)
      with ((js "```json" ++ ws1 ++ obj ++ ws2 ++ js "```") ++ post)
      by (by rewrite <- !app_assoc).
    rewrite length_app, Nat.add_sub. apply take_app_length.
  - rewrite (length_app obj), Nat.add_sub, take_app_length. done.
Qed.

Lemma search_none (r : Regex.regex) (s : jsstring) :
  includes (js "```json") s = false ->
  Regex.search 1 (Regex.Seq (Regex.Text (js "```json")) r) s = None.
Proof.
  induction s as [|c s IH]; cbn [includes Regex.search]; intros H;
    apply orb_false_iff in H as [H1 H2];
    unfold Regex.exec_here; cbn [Regex.rmatch]; rewrite rmatch_Text, H1.
  - done.
  - by rewrite IH.
Qed.


(** The leftmost match is the fenced block when the opener does not occur
    before it. *)
Lemma search_fence (pre ws1 obj body ws2 post : jsstring) :
  obj = 123 :: body ++ [125] ->
  forallb is_js_space ws1 = true -> forallb is_js_space ws2 = true ->
  includes (js "```") obj = false ->
  occurs_within (js "```json") (length pre)
    (pre ++ js "```json" ++ ws1 ++ obj ++ ws2 ++ js "```" ++ post) = false ->
  exists m,
    Regex.search 1 TOOL_CALL_FENCE_PATTERN
      (pre ++ js "```json" ++ ws1 ++ obj ++ ws2 ++ js "```" ++ post) = Some m
    /\ Regex.before m = pre
    /\ Regex.matched m = js "```json" ++ ws1 ++ obj ++ ws2 ++ js "```"
    /\ Regex.groups m !! 1%nat = Some (Some obj)
    /\ Regex.after m = post.
Proof.
  intros Hobj Hws1 Hws2 Hclose.
  destruct (exec_fence ws1 obj body ws2 post Hobj Hws1 Hws2 Hclose)
    as (m & Hm & Hb & Hmat & Hg & Ha).
  induction pre as [|c pre IH]; cbn [length occurs_within app]; intros Hocc.
  - exists m. repeat split; try done.
    destruct (js "```json" ++ ws1 ++ obj ++ ws2 ++ js "```" ++ post);
      cbn [Regex.search]; by rewrite Hm.
  - apply orb_false_iff in Hocc as [H1 H2].
    destruct (IH H2) as (m' & Hm' & Hb' & Hmat' & Hg' & Ha').
    eexists. split.
    { cbn [Regex.search]. unfold Regex.exec_here at 1. rewrite fence_shape.
      cbn [Regex.rmatch]. rewrite rmatch_Text, H1.
      rewrite <- fence_shape, Hm'. reflexivity. }
    cbn [Regex.before Regex.matched Regex.groups Regex.after].
    by rewrite Hb'.
Qed.






(** ** Tool extraction and removal on plain and tool-bearing texts *)

Section Requires.
Context {A : Type}.

Lemma rmatch_requires (c : N) (r : Regex.regex) (s : jsstring)
    (caps : Regex.captures) (k : @Regex.continuation A) (a : A) :
  requires c r = true -> Regex.rmatch r s caps k = Some a -> c ∈ s.
Proof.
  revert s caps k a.
  induction r as [|x| |cs|r1 IH1 r2 IH2|r1 IH1 r2 IH2|greedy r IH|n r IH];
    intros s caps k a Hreq H; cbn [requires] in Hreq; try done;
    cbn [Regex.rmatch] in H.
  - destruct s as [|y s1]; [done|]. apply N.eqb_eq in Hreq as ->.
    destruct (y =? c) eqn:E; [|done]. apply N.eqb_eq in E as ->. left.
  - apply orb_true_iff in Hreq as [Hreq|Hreq].
    + by eapply IH1.
    + apply rmatch_suffix in H as (s1 & c1 & [u ->] & H).
      apply elem_of_app. right. by eapply IH2.
  - apply andb_true_iff in Hreq as [Hr1 Hr2]. unfold Regex.orElse in H.
    destruct (Regex.rmatch r1 s caps k) eqn:E.
    + by eapply IH1.
    + by eapply IH2.
  - by eapply IH.
Qed.

End Requires.

Lemma search_requires (c : N) (ngroups : nat) (r : Regex.regex)
    (s : jsstring) :
  requires c r = true -> c ∉ s -> Regex.search ngroups r s = None.
Proof.
  intros Hreq. induction s as [|x s IH]; intros Hc; cbn [Regex.search].
  - destruct (Regex.exec_here ngroups r []) eqn:E; [|done].
    exfalso. apply Hc. by eapply rmatch_requires.
  - destruct (Regex.exec_here ngroups r (x :: s)) eqn:E.
    { exfalso. apply Hc. by eapply rmatch_requires. }
    rewrite IH; [done|]. intros H. apply Hc. by right.
Qed.

Lemma fence_requires_brace : requires (ch "{") TOOL_CALL_FENCE_PATTERN = true.
Proof. reflexivity. Qed.

Lemma phrase_requires_brace : requires (ch "{") FUNCTION_CALL_PATTERN = true.
Proof. reflexivity. Qed.

Lemma extract_inline_no_brace (s : jsstring) :
  ch "{" ∉ s -> extract_inline s = None.
Proof.
  induction s as [|c s IH]; intros H; cbn [extract_inline]; [done|].
  destruct (c =? ch "{") eqn:E.
  - apply N.eqb_eq in E as ->. exfalso. apply H. left.
  - apply IH. intros Hin. apply H. by right.
Qed.

Lemma remove_inline_no_brace (fuel : nat) (s : jsstring) :
  ch "{" ∉ s -> (length s <= fuel)%nat -> remove_inline fuel s = s.
Proof.
  revert fuel. induction s as [|c s IH]; intros fuel H Hfuel.
  - by destruct fuel.
  - destruct fuel as [|fuel]; [simpl in Hfuel; lia|].
    cbn [remove_inline]. destruct (c =? ch "{") eqn:E.
    + apply N.eqb_eq in E as ->. exfalso. apply H. left.
    + f_equal. apply IH; [|simpl in Hfuel; lia].
      intros Hin. apply H. by right.
Qed.

Lemma not_elem_of_take (c : N) (n : nat) (s : jsstring) :
  c ∉ s -> c ∉ take n s.
Proof.
  intros H Hin. apply H. rewrite <- (take_drop n s). apply elem_of_app.
  by left.
Qed.

(** X1. A text without an opening brace holds no tool call:
    [extractToolInvocations] returns [null] on it, whatever else it holds
    (fence markers, the natural-language phrase), and does not throw. *)
Theorem extractToolInvocations_without_brace (config : Config) (now : Z)
    (text : jsstring) :
  ch "{" ∉ text ->
  extractToolInvocations config now text = Returns None.
Proof.
  intros H. unfold extractToolInvocations.
  destruct text as [|c text]; [done|].
  set (scannableText := substring0 (c :: text) (SCAN_LIMIT config)).
  assert (Hs : ch "{" ∉ scannableText) by (by apply not_elem_of_take).
  unfold Regex.matchAll, Regex.all_matches.
  cbn [Regex.all_matches_from].
  rewrite (search_requires (ch "{")) by (done || apply fence_requires_brace).
  cbn [map extract_fenced]. rewrite extract_inline_no_brace by done.
  unfold extract_natural, Regex.match_global, Regex.all_matches.
  cbn [Regex.all_matches_from].
  by rewrite (search_requires (ch "{"))
    by (done || apply phrase_requires_brace).
Qed.

Lemma extractToolInvocations_without_brace_witness :
  extractToolInvocations sample_config 0
    (js "The weather in Paris is sunny, 21 degrees.")
  = Returns None.
Proof.
  apply (extractToolInvocations_without_brace sample_config 0
           (js "The weather in Paris is sunny, 21 degrees.")).
  apply (bool_decide_unpack _). by vm_compute.
Defined.

(** X5. A text without an opening brace has nothing to remove:
    [removeToolJsonContent] returns it trimmed. *)
Theorem removeToolJsonContent_without_brace (text : jsstring) :
  ch "{" ∉ text -> removeToolJsonContent text = trim text.
Proof.
  intros H. unfold removeToolJsonContent, Regex.replace.
  cbn [Regex.replace_from].
  rewrite (search_requires (ch "{")) by (done || apply fence_requires_brace).
  by rewrite remove_inline_no_brace.
Qed.

Lemma removeToolJsonContent_without_brace_witness :
  removeToolJsonContent (js "  ```json is a fence opener.  ")
  = js "```json is a fence opener.".
Proof.
  rewrite (removeToolJsonContent_without_brace
             (js "  ```json is a fence opener.  ")).
  - by vm_compute.
  - apply (bool_decide_unpack _). by vm_compute.
Defined.

(** X2. Only the first [SCAN_LIMIT] code units of the text count:
    [extractToolInvocations] gives for a text what it gives for that
    prefix, so a tool call past the limit is never found. *)
Theorem extractToolInvocations_scan_limit (config : Config) (now : Z)
    (text : jsstring) :
  extractToolInvocations config now text
  = extractToolInvocations config now (substring0 text (SCAN_LIMIT config)).
Proof.
  unfold extractToolInvocations at 1.
  destruct text as [|c text]; [unfold substring0; by rewrite take_nil|].
  destruct (substring0 (c :: text) (SCAN_LIMIT config)) as [|c' s'] eqn:E.
  - by vm_compute.
  - unfold extractToolInvocations.
    assert (substring0 (c' :: s') (SCAN_LIMIT config) = c' :: s') as ->; [|done].
    rewrite <- E. unfold substring0. rewrite take_take. f_equal. lia.
Qed.

Lemma tool_calls_of_object (obj : jsstring) (props : object)
    (raws calls : list JValue) :
  Json.parse obj = Some (JObject props) ->
  obj_get (js "tool_calls") props = Some (JArray raws) ->
  for_each ensure_string_arguments raws = Returns calls ->
  tool_calls_of (Some obj) = Returns (Some calls).
Proof.
  intros Hp Hg Hf. unfold tool_calls_of, JSON_parse. rewrite Hp.
  cbn [bind get]. rewrite Hg. cbn [bind]. by rewrite Hf.
Qed.

Lemma includes_take (p s : jsstring) (n : nat) :
  includes p s = false -> includes p (take n s) = false.
Proof.
  intros H. destruct (includes p (take n s)) eqn:E; [|done].
  rewrite <- (take_drop n s), includes_app_l in H; done.
Qed.

Lemma matchAll_none (s : jsstring) :
  includes (js "```json") s = false ->
  Regex.matchAll 1 TOOL_CALL_FENCE_PATTERN s = [].
Proof.
  intros H. unfold Regex.matchAll, Regex.all_matches.
  cbn [Regex.all_matches_from]. rewrite fence_shape.
  by rewrite search_none.
Qed.

Lemma extract_inline_object (pre body post : jsstring)
    (calls : list JValue) (v : JValue) :
  ch "{" ∉ pre ->
  Json.parse (123 :: body ++ [125]) = Some v ->
  tool_calls_of (Some (123 :: body ++ [125])) = Returns (Some calls) ->
  extract_inline (pre ++ (123 :: body ++ [125]) ++ post) = Some calls.
Proof.
  intros Hpre Hparse Hcalls. induction pre as [|c pre IH].
  - cbn [app extract_inline]. change (123 =? ch "{") with true. cbv iota.
    rewrite <- app_assoc. rewrite (scan_object body post v) by done.
    replace (take (S (S (length body))) (123 :: body ++ [125] ++ post))
      with (123 :: body ++ [125]).
    + by rewrite Hcalls.
    + cbn [take]. f_equal. rewrite app_assoc.
      rewrite take_app_length'; [done|]. rewrite length_app. simpl. lia.
  - cbn [app extract_inline]. destruct (c =? ch "{") eqn:E.
    + apply N.eqb_eq in E as ->. exfalso. apply Hpre. left.
    + apply IH. intros Hin. apply Hpre. by right.
Qed.

Lemma extractToolInvocations_nonempty (config : Config) (now : Z)
    (text : jsstring) :
  text <> [] ->
  extractToolInvocations config now text
  = match extract_fenced
            (Regex.matchAll 1 TOOL_CALL_FENCE_PATTERN
               (substring0 text (SCAN_LIMIT config))) with
    | Some toolCalls => Returns (Some toolCalls)
    | None =>
        match extract_inline (substring0 text (SCAN_LIMIT config)) with
        | Some toolCalls => Returns (Some toolCalls)
        | None => extract_natural now (substring0 text (SCAN_LIMIT config))
        end
    end.
Proof. by destruct text. Qed.

(** The normalization of an entry throws on [null] only. *)
Lemma ensure_string_arguments_returns (tc : JValue) :
  tc <> JNull -> exists tc', ensure_string_arguments tc = Returns tc'.
Proof.
  intros Htc. unfold ensure_string_arguments, get, bind.
  destruct tc as [|b|neg x|s|items|tcProps]; try done; try by eexists.
  destruct (obj_get (js "function") tcProps) as [func|]; [|by eexists].
  destruct (truthy func) eqn:Ht; [|by eexists].
  destruct func as [|b|neg x|s|items|funcProps]; try done; try by eexists.
  destruct (obj_get (js "arguments") funcProps) as [args|]; [|by eexists].
  destruct (truthy args); [|by eexists].
  destruct (is_object args || negb (is_string args)); by eexists.
Qed.

Lemma for_each_returns (raws : list JValue) :
  Forall (fun tc => tc <> JNull) raws ->
  exists calls,
    for_each ensure_string_arguments raws = Returns calls
    /\ Forall2 (fun raw tc => ensure_string_arguments raw = Returns tc)
         raws calls.
Proof.
  induction 1 as [|raw raws Hraw _ (calls & IH & IH2)].
  - exists []. split; [done|constructor].
  - destruct (ensure_string_arguments_returns raw Hraw) as [tc Htc].
    exists (tc :: calls). cbn [for_each]. rewrite Htc, IH. cbn [bind].
    split; [done|by constructor].
Qed.

(** X3. An inline JSON object whose [tool_calls] is an array without a
    [null] entry is found when it follows prose without a brace, in a text
    without a [```json] fence, and ends within the scan limit, whatever
    comes after it: the result is its [tool_calls] array, each entry
    passed through the normalization of the arguments. *)
Theorem extractToolInvocations_inline_object (config : Config) (now : Z)
    (pre body post : jsstring) (props : object) (raws : list JValue) :
  let obj := ch "{" :: body ++ [ch "}"] in
  ch "{" ∉ pre ->
  includes (js "```json") (pre ++ obj ++ post) = false ->
  (Z.of_nat (length (pre ++ obj)) <= SCAN_LIMIT config)%Z ->
  Json.parse obj = Some (JObject props) ->
  obj_get (js "tool_calls") props = Some (JArray raws) ->
  Forall (fun tc => tc <> JNull) raws ->
  exists calls,
    extractToolInvocations config now (pre ++ obj ++ post)
    = Returns (Some calls)
    /\ Forall2 (fun raw tc => ensure_string_arguments raw = Returns tc)
         raws calls.
Proof.
  intros obj Hpre Hfence Hlimit Hparse Hget Hraws.
  destruct (for_each_returns raws Hraws) as (calls & Hnorm & Hall).
  exists calls. split; [|done].
  assert (Hobj : obj = 123 :: body ++ [125]) by done. clearbody obj.
  pose proof (tool_calls_of_object obj props raws calls Hparse Hget Hnorm)
    as Hcalls.
  rewrite extractToolInvocations_nonempty by (subst obj; by destruct pre).
  assert (Hscan : exists post',
            substring0 (pre ++ obj ++ post) (SCAN_LIMIT config)
            = pre ++ obj ++ post').
  { exists (take (Z.to_nat (SCAN_LIMIT config) - length (pre ++ obj)) post).
    unfold substring0. rewrite (app_assoc pre obj post).
    rewrite take_app_ge by lia. by rewrite <- app_assoc. }
  destruct Hscan as [post' Hscan].
  rewrite matchAll_none by (by apply includes_take).
  cbn [extract_fenced]. rewrite Hscan. subst obj.
  by rewrite (extract_inline_object pre body post' calls (JObject props)).
Qed.

Lemma extractToolInvocations_inline_object_witness :
  exists calls,
    extractToolInvocations sample_config 0
      (js "Let me check. "
       ++ (ch "{" :: jsq "'tool_calls': [{'id': 'call_1', 'function': {'name': 'f', 'arguments': [1, 2]}}]" ++ [ch "}"])
       ++ js " Done {not json}.")
    = Returns (Some calls).
Proof.
  edestruct (extractToolInvocations_inline_object sample_config 0
               (js "Let me check. ")
               (jsq "'tool_calls': [{'id': 'call_1', 'function': {'name': 'f', 'arguments': [1, 2]}}]")
               (js " Done {not json}.")) as (calls & H & _).
  - apply (bool_decide_unpack _). by vm_compute.
  - by vm_compute.
  - by vm_compute.
  - vm_compute. reflexivity.
  - vm_compute. reflexivity.
  - repeat constructor; discriminate.
  - by exists calls.
Defined.

(** The same text with a [null] entry in the array yields nothing: the
    normalization throws, the candidate is dropped, and no other one
    carries [tool_calls]. *)
Lemma extractToolInvocations_null_entry :
  extractToolInvocations sample_config 0
    (jsq "see {'tool_calls':[{'id':'ok'},null]} end")
  = Returns None.
Proof. by vm_compute. Qed.

(** X4. A fenced block comes first.  When a text within the scan limit
    has a [```json] block whose content is an object with a [tool_calls]
    array without a [null] entry, no fence marker inside the object and no
    fence opener before the block, the result is that array, each entry
    passed through the normalization of the arguments, whatever the prose
    before the block holds, an inline tool-call object included. *)
Theorem extractToolInvocations_fenced_first (config : Config) (now : Z)
    (pre body post ws1 ws2 : jsstring) (props : object)
    (raws : list JValue) :
  let obj := ch "{" :: body ++ [ch "}"] in
  let text := pre ++ js "```json" ++ ws1 ++ obj ++ ws2 ++ js "```" ++ post in
  (Z.of_nat (length text) <= SCAN_LIMIT config)%Z ->
  forallb is_js_space ws1 = true ->
  forallb is_js_space ws2 = true ->
  includes (js "```") obj = false ->
  occurs_within (js "```json") (length pre) text = false ->
  Json.parse obj = Some (JObject props) ->
  obj_get (js "tool_calls") props = Some (JArray raws) ->
  Forall (fun tc => tc <> JNull) raws ->
  exists calls,
    extractToolInvocations config now text = Returns (Some calls)
    /\ Forall2 (fun raw tc => ensure_string_arguments raw = Returns tc)
         raws calls.
Proof.
  intros obj text Hlimit Hws1 Hws2 Hclose Hocc Hparse Hget Hraws.
  destruct (for_each_returns raws Hraws) as (calls & Hnorm & Hall).
  exists calls. split; [|done].
  assert (Hobj : obj = 123 :: body ++ [125]) by done. clearbody obj.
  pose proof (tool_calls_of_object obj props raws calls Hparse Hget Hnorm)
    as Hcalls.
  destruct (search_fence pre ws1 obj body ws2 post Hobj Hws1 Hws2 Hclose Hocc)
    as (m & Hm & _ & _ & Hg & _).
  fold text in Hm.
  rewrite extractToolInvocations_nonempty by (subst text; by destruct pre).
  assert (substring0 text (SCAN_LIMIT config) = text) as ->.
  { unfold substring0. apply take_ge. lia. }
  unfold Regex.matchAll, Regex.all_matches. cbn [Regex.all_matches_from].
  rewrite Hm. cbn [map extract_fenced].
  replace (<[0%nat:=Some (Regex.matched m)]> (Regex.groups m) !! 1%nat)
    with (Regex.groups m !! 1%nat)
    by (symmetry; by apply list_lookup_insert_ne).
  rewrite Hg.
  cbn [mjoin option_join]. by rewrite Hcalls.
Qed.

Lemma extractToolInvocations_fenced_first_witness :
  exists calls,
    extractToolInvocations sample_config 0
      (jsq "First {'tool_calls': [{'id': 'inline'}]} then "
       ++ js "```json" ++ nl
       ++ (ch "{" :: jsq "'tool_calls': [{'id': 'fenced'}]" ++ [ch "}"])
       ++ nl ++ js "```" ++ js " end")
    = Returns (Some calls)
    /\ Forall2 (fun raw tc => ensure_string_arguments raw = Returns tc)
         [JObject [(js "id", JString (js "fenced"))]] calls.
Proof.
  edestruct (extractToolInvocations_fenced_first sample_config 0
               (jsq "First {'tool_calls': [{'id': 'inline'}]} then ")
               (jsq "'tool_calls': [{'id': 'fenced'}]") (js " end") nl nl)
    as (calls & H & Hall).
  - by vm_compute.
  - by vm_compute.
  - by vm_compute.
  - by vm_compute.
  - by vm_compute.
  - vm_compute. reflexivity.
  - vm_compute. reflexivity.
  - repeat constructor; discriminate.
  - exists calls. split; [exact H|exact Hall].
Defined.

(** With a [null] entry in the fenced array the block is passed over and
    the inline object before it is returned. *)
Lemma extractToolInvocations_fenced_null_entry :
  extractToolInvocations sample_config 0
    (jsq "First {'tool_calls': [{'id': 'inline'}]} then "
     ++ js "```json" ++ nl ++ jsq "{'tool_calls': [{'id': 'fenced'}, null]}"
     ++ nl ++ js "```" ++ js " end")
  = Returns (Some [JObject [(js "id", JString (js "inline"))]]).
Proof. by vm_compute. Qed.

Lemma take_suffix (s s' : jsstring) :
  s' `suffix_of` s -> take (length s - length s') s ++ s' = s.
Proof.
  intros [u ->]. rewrite length_app, Nat.add_sub.
  by rewrite take_app_length.
Qed.

(** A match splits the text. *)
Lemma exec_here_split (ngroups : nat) (r : Regex.regex) (s : jsstring)
    (m : Regex.found) :
  Regex.exec_here ngroups r s = Some m ->
  Regex.before m = [] /\ s = Regex.matched m ++ Regex.after m.
Proof.
  unfold Regex.exec_here. intros H.
  apply rmatch_suffix in H as (s' & caps' & Hs' & H).
  injection H as <-. cbn [Regex.before Regex.matched Regex.after].
  split; [done|]. by rewrite take_suffix.
Qed.

Lemma search_split (ngroups : nat) (r : Regex.regex) (s : jsstring)
    (m : Regex.found) :
  Regex.search ngroups r s = Some m ->
  s = Regex.before m ++ Regex.matched m ++ Regex.after m.
Proof.
  revert m. induction s as [|c s IH]; intros m; cbn [Regex.search].
  - destruct (Regex.exec_here ngroups r []) as [m'|] eqn:E; [|done].
    intros [= <-]. apply exec_here_split in E as [-> E]. done.
  - destruct (Regex.exec_here ngroups r (c :: s)) as [m'|] eqn:E.
    + intros [= <-]. apply exec_here_split in E as [-> E]. done.
    + destruct (Regex.search ngroups r s) as [m'|] eqn:Es; [|done].
      intros [= <-]. cbn [Regex.before Regex.matched Regex.after app].
      f_equal. by apply IH.
Qed.

Lemma replace_from_sublist (fuel ngroups : nat) (r : Regex.regex)
    (f : jsstring -> Regex.captures -> jsstring) (s : jsstring) :
  (forall m groups, f m groups `sublist_of` m) ->
  Regex.replace_from fuel ngroups r f s `sublist_of` s.
Proof.
  intros Hf. revert s. induction fuel as [|fuel IH]; intros s; [done|].
  cbn [Regex.replace_from].
  destruct (Regex.search ngroups r s) as [m|] eqn:E; [|done].
  apply search_split in E. rewrite E at 1.
  apply sublist_app; [done|]. apply sublist_app; [apply Hf|].
  destruct (Regex.matched m), (Regex.after m) as [|c rest];
    first [done | by apply sublist_skip | apply IH].
Qed.

Lemma removeToolCallBlock_sublist (m : jsstring) (j : option jsstring) :
  removeToolCallBlock m j `sublist_of` m.
Proof.
  unfold removeToolCallBlock, try_catch, bind.
  destruct (JSON_parse j) as [parsed|]; [|done].
  destruct (has "tool_calls" parsed) as [[|]|]; [apply sublist_nil_l|done|done].
Qed.

Lemma remove_inline_sublist (fuel : nat) (s : jsstring) :
  remove_inline fuel s `sublist_of` s.
Proof.
  revert s. induction fuel as [|fuel IH]; intros s; [apply sublist_nil_l|].
  cbn [remove_inline]. destruct s as [|c s]; [done|].
  assert (Hkeep : (c :: remove_inline fuel s) `sublist_of` (c :: s))
    by (by apply sublist_skip).
  destruct (c =? ch "{"); [|done].
  destruct (scan_braces s 1 1 false false) as [j braceCount].
  destruct braceCount as [|n]; [|done].
  destruct (carries_tool_calls (take j (c :: s))); [|done].
  etrans; [apply IH|]. apply sublist_drop.
Qed.

Lemma trimStart_suffix (s : jsstring) : trimStart s `suffix_of` s.
Proof.
  induction s as [|c s IH]; simpl; [done|].
  destruct (is_js_space c); [by apply suffix_cons_r|done].
Qed.

Lemma trimStart_head (s : jsstring) :
  match trimStart s with
  | c :: _ => is_js_space c = false
  | [] => True
  end.
Proof.
  induction s as [|c s IH]; simpl; [done|].
  by destruct (is_js_space c) eqn:E.
Qed.

Lemma trimStart_fixed (s : jsstring) :
  match s with
  | c :: _ => is_js_space c = false
  | [] => True
  end -> trimStart s = s.
Proof. destruct s as [|c s]; simpl; [done|]. by intros ->. Qed.

Lemma trimStart_idem (s : jsstring) : trimStart (trimStart s) = trimStart s.
Proof. apply trimStart_fixed, trimStart_head. Qed.

Lemma trimEnd_prefix (s : jsstring) : trimEnd s `prefix_of` s.
Proof.
  unfold trimEnd. destruct (trimStart_suffix (rev s)) as [u Hu].
  exists (rev u). apply (f_equal (@rev N)) in Hu.
  by rewrite rev_involutive, rev_app_distr in Hu.
Qed.

Lemma trimEnd_idem (s : jsstring) : trimEnd (trimEnd s) = trimEnd s.
Proof. unfold trimEnd. by rewrite rev_involutive, trimStart_idem. Qed.

(** [trimEnd] keeps a non-space head. *)
Lemma trimEnd_head (s : jsstring) :
  match s with
  | c :: _ => is_js_space c = false
  | [] => True
  end ->
  match trimEnd s with
  | c :: _ => is_js_space c = false
  | [] => True
  end.
Proof.
  destruct s as [|c s]; [done|]. intros Hc.
  destruct (trimEnd_prefix (c :: s)) as [u Hu].
  destruct (trimEnd (c :: s)) as [|d t] eqn:E; [done|].
  by injection Hu as <- _.
Qed.

Lemma trim_idem (s : jsstring) : trim (trim s) = trim s.
Proof.
  unfold trim.
  rewrite (trimStart_fixed (trimEnd (trimStart s)))
    by apply trimEnd_head, trimStart_head.
  apply trimEnd_idem.
Qed.

Lemma trim_sublist (s : jsstring) : trim s `sublist_of` s.
Proof.
  unfold trim.
  destruct (trimEnd_prefix (trimStart s)) as [u Hu].
  destruct (trimStart_suffix s) as [v Hv].
  rewrite Hv at 2. rewrite Hu at 2.
  apply sublist_inserts_l, sublist_inserts_r. done.
Qed.

(** X6. [removeToolJsonContent] only deletes: its result is a
    subsequence of the text, code units in their order, and it has no
    white space at either end. *)
Theorem removeToolJsonContent_only_deletes (text : jsstring) :
  removeToolJsonContent text `sublist_of` text
  /\ trim (removeToolJsonContent text) = removeToolJsonContent text.
Proof.
  unfold removeToolJsonContent. split; [|apply trim_idem].
  etrans; [apply trim_sublist|]. etrans; [apply remove_inline_sublist|].
  apply replace_from_sublist. intros m groups.
  apply removeToolCallBlock_sublist.
Qed.

(** ** The preprocessor: normal form, tool catalog and hints *)

Lemma normalize_role_shape (m : Message) :
  (exists s, content (normalize_role m) = Plain s)
  /\ is_role "tool" (normalize_role m) = false
  /\ is_role "function" (normalize_role m) = false.
Proof.
  unfold normalize_role.
  destruct (is_role "tool" m || is_role "function" m) eqn:E.
  - split; [by eexists|]. by vm_compute.
  - apply orb_false_iff in E as [E1 E2]. split; [by eexists|]. done.
Qed.

Lemma normalize_role_fixed (m : Message) (s : jsstring) :
  content m = Plain s -> is_role "tool" m = false ->
  is_role "function" m = false ->
  normalize_role m = m.
Proof.
  intros Hc H1 H2. unfold normalize_role.
  unfold is_role in *. rewrite H1, H2. cbn [orb].
  rewrite Hc. by destruct m; simpl in *; subst.
Qed.

Lemma normalize_role_idem (m : Message) :
  normalize_role (normalize_role m) = normalize_role m.
Proof.
  destruct (normalize_role_shape m) as ([s Hs] & H1 & H2).
  by eapply normalize_role_fixed.
Qed.

Lemma processMessagesWithTools_map (config : Config)
    (messages : list Message) (tools : option (list Tool))
    (toolChoice : ToolChoice) :
  exists processed,
    processMessagesWithTools config messages tools toolChoice
    = map normalize_role processed.
Proof. by eexists. Qed.

(** X7. Whatever the tools and the tool choice, every message that
    [processMessagesWithTools] returns has a string content and a role other
    than "tool" and "function"; passing the result through the function
    again, without tools, changes nothing. *)
Theorem processMessagesWithTools_normalized (config : Config)
    (messages : list Message) (tools : option (list Tool))
    (toolChoice : ToolChoice) :
  Forall (fun m => (exists s, content m = Plain s)
                   /\ is_role "tool" m = false
                   /\ is_role "function" m = false)
    (processMessagesWithTools config messages tools toolChoice)
  /\ processMessagesWithTools config
       (processMessagesWithTools config messages tools toolChoice)
       None NoChoice
     = processMessagesWithTools config messages tools toolChoice.
Proof.
  destruct (processMessagesWithTools_map config messages tools toolChoice)
    as [processed ->].
  split.
  - induction processed as [|m l IH]; constructor;
      [apply normalize_role_shape|done].
  - change (processMessagesWithTools config (map normalize_role processed)
              None NoChoice)
      with (map normalize_role (map normalize_role processed)).
    induction processed as [|m l IH]; [done|].
    cbn [map]. by rewrite normalize_role_idem, IH.
Qed.

(** *** The tool prompt *)

Lemma hint_last_user_length (hint : jsstring) (l : list Message) :
  length (hint_last_user hint l) = length l.
Proof.
  unfold hint_last_user. destruct (l !! pred (length l)) as [lastMsg|]; [|done].
  destruct (is_role "user" lastMsg); [|done]. apply length_insert.
Qed.

(** The hint leaves every message but a user message at the end alone. *)
Lemma hint_last_user_other (hint : jsstring) (l : list Message) (i : nat)
    (m : Message) :
  l !! i = Some m ->
  is_role "user" m = false \/ i <> pred (length l) ->
  hint_last_user hint l !! i = Some m.
Proof.
  intros Hi Hm. unfold hint_last_user.
  destruct (l !! pred (length l)) as [lastMsg|] eqn:E; [|done].
  destruct (is_role "user" lastMsg) eqn:Hu; [|done].
  destruct (decide (i = pred (length l))) as [->|Hne].
  - destruct Hm as [Hm|Hm]; [|done]. congruence.
  - by rewrite list_lookup_insert_ne.
Qed.

Lemma hint_last_user_last (hint : jsstring) (l : list Message)
    (m : Message) :
  is_role "user" m = true ->
  hint_last_user hint (l ++ [m])
  = l ++ [with_content m (contentToString (content m) ++ hint)].
Proof.
  intros Hu. unfold hint_last_user.
  rewrite length_app. cbn [length]. rewrite Nat.add_1_r. cbn [pred].
  rewrite lookup_app_r by done. rewrite Nat.sub_diag. cbn [lookup list_lookup].
  rewrite Hu, contentToString_or_empty.
  rewrite insert_app_r_alt by done. by rewrite Nat.sub_diag.
Qed.

Lemma is_role_system_user (m : Message) :
  is_role "system" m = true ->
  is_role "user" m = false /\ is_role "tool" m = false
  /\ is_role "function" m = false.
Proof.
  unfold is_role. intros H. apply jseq_true in H. rewrite H.
  by vm_compute.
Qed.

Lemma is_role_user_other (m : Message) :
  is_role "user" m = true ->
  is_role "system" m = false /\ is_role "tool" m = false
  /\ is_role "function" m = false.
Proof.
  unfold is_role. intros H. apply jseq_true in H. rewrite H.
  by vm_compute.
Qed.

Lemma tool_branch (config : Config) (messages : list Message)
    (tools : list Tool) (toolChoice : ToolChoice) :
  TOOL_SUPPORT config = true -> is_choice "none" toolChoice = false ->
  let base := with_tool_prompt (generateToolPrompt tools) messages in
  exists processed,
    processMessagesWithTools config messages (Some tools) toolChoice
    = map normalize_role processed
    /\ (processed = base \/ exists hint, processed = hint_last_user hint base).
Proof.
  intros Hsupport Hnone base. unfold processMessagesWithTools.
  rewrite Hsupport, Hnone. cbn [andb negb].
  fold (tool_persona (generateToolPrompt tools)).
  change (if existsb (is_role "system") messages then _ else _) with base.
  destruct toolChoice as [|c|[type|] [[|c fname]|]];
    try (eexists; split; [reflexivity|by left]).
  - destruct (is_choice "required" (ChoiceString c)
              || is_choice "auto" (ChoiceString c));
      eexists; (split; [reflexivity|]); [right; by eexists|by left].
  - destruct (jseq type (js "function"));
      eexists; (split; [reflexivity|]); [right; by eexists|by left].
Qed.

Lemma tool_branch_plain (config : Config) (messages : list Message)
    (tools : list Tool) :
  TOOL_SUPPORT config = true ->
  processMessagesWithTools config messages (Some tools) NoChoice
  = map normalize_role (with_tool_prompt (generateToolPrompt tools) messages).
Proof.
  intros Hsupport. unfold processMessagesWithTools.
  by rewrite Hsupport.
Qed.

Lemma existsb_false_lookup {A} (f : A -> bool) (l : list A) (i : nat)
    (x : A) :
  existsb f l = false -> l !! i = Some x -> f x = false.
Proof.
  revert i. induction l as [|y l IH]; intros i; [done|].
  cbn [existsb]. intros H. apply orb_false_iff in H as [H1 H2].
  destruct i as [|i]; cbn [lookup list_lookup].
  - by intros [= <-].
  - by apply IH.
Qed.

Lemma with_tool_prompt_length (toolsPrompt : jsstring)
    (messages : list Message) :
  length (with_tool_prompt toolsPrompt messages)
  = if existsb (is_role "system") messages then length messages
    else S (length messages).
Proof.
  unfold with_tool_prompt.
  destruct (existsb (is_role "system") messages); [apply length_map|done].
Qed.

(** X8. Where the tool catalog goes.  With tools given, tool support on
    and a tool choice other than "none": when the request has a system
    message, the number of messages is unchanged and each system message
    keeps its place with the catalog appended to its content; when it has
    none, one message is added in front, the system message made of the
    fixed persona and the catalog. *)
Theorem processMessagesWithTools_prompt (config : Config)
    (messages : list Message) (tools : list Tool) (toolChoice : ToolChoice) :
  TOOL_SUPPORT config = true -> is_choice "none" toolChoice = false ->
  let result :=
    processMessagesWithTools config messages (Some tools) toolChoice in
  let toolsPrompt := generateToolPrompt tools in
  (if existsb (is_role "system") messages
   then length result = length messages
   else length result = S (length messages)
        /\ result !! 0%nat
           = Some (message "system" (js "你是一个有用的助手。" ++ toolsPrompt)))
  /\ forall i m,
       messages !! i = Some m -> is_role "system" m = true ->
       result !! i
       = Some (with_content m (contentToString (content m) ++ toolsPrompt)).
Proof.
  intros Hsupport Hnone result toolsPrompt.
  destruct (tool_branch config messages tools toolChoice Hsupport Hnone)
    as (processed & Hresult & Hprocessed).
  fold result in Hresult. fold toolsPrompt in Hprocessed.
  assert (Hlen : length processed
                 = length (with_tool_prompt toolsPrompt messages)).
  { destruct Hprocessed as [->|[hint ->]]; [done|].
    apply hint_last_user_length. }
  assert (Hkeep : forall i m,
            with_tool_prompt toolsPrompt messages !! i = Some m ->
            is_role "user" m = false -> processed !! i = Some m).
  { intros i m Hi Hm. destruct Hprocessed as [->|[hint ->]]; [done|].
    apply hint_last_user_other; [done|by left]. }
  rewrite Hresult, length_map, Hlen, with_tool_prompt_length.
  split.
  - destruct (existsb (is_role "system") messages) eqn:E; [done|].
    split; [done|]. rewrite list_lookup_fmap.
    rewrite (Hkeep 0%nat (tool_persona toolsPrompt)).
    + done.
    + unfold with_tool_prompt. by rewrite E.
    + by vm_compute.
  - intros i m Hi Hsys. rewrite list_lookup_fmap.
    destruct (is_role_system_user m Hsys) as (Hu & Ht & Hf).
    rewrite (Hkeep i (with_content m
                        (contentToString (content m) ++ toolsPrompt))).
    + cbn [fmap option_fmap option_map]. f_equal.
      by eapply normalize_role_fixed.
    + unfold with_tool_prompt.
      destruct (existsb (is_role "system") messages) eqn:E.
      * rewrite list_lookup_fmap, Hi. cbn [fmap option_fmap option_map].
        by rewrite Hsys, contentToString_or_empty.
      * by rewrite (existsb_false_lookup _ _ _ _ E Hi) in Hsys.
    + done.
Qed.

Lemma processMessagesWithTools_prompt_witness :
  processMessagesWithTools sample_config
    [message "user" (js "hi"); message "system" (js "Be brief.")]
    (Some []) (ChoiceString (js "auto"))
  !! 1%nat
  = Some (with_content (message "system" (js "Be brief."))
            (contentToString (content (message "system" (js "Be brief.")))
             ++ generateToolPrompt [])).
Proof.
  apply (proj2 (processMessagesWithTools_prompt sample_config
                  [message "user" (js "hi"); message "system" (js "Be brief.")]
                  [] (ChoiceString (js "auto")) eq_refl eq_refl) 1%nat);
    by vm_compute.
Defined.

Lemma with_tool_prompt_snoc (toolsPrompt : jsstring) (l : list Message)
    (m : Message) :
  is_role "system" m = false ->
  exists front,
    with_tool_prompt toolsPrompt (l ++ [m]) = front ++ [m].
Proof.
  intros Hm. unfold with_tool_prompt.
  destruct (existsb (is_role "system") (l ++ [m])).
  - rewrite map_app. cbn [map]. rewrite Hm. by eexists.
  - by exists (tool_persona toolsPrompt :: l).
Qed.

(** X9. With a tool choice of "auto" or "required" and a user message
    at the end, the result is the result without a tool choice, except that
    the content of that last message ends with the fixed hint. *)
Theorem processMessagesWithTools_hint (config : Config) (l : list Message)
    (m : Message) (tools : list Tool) (choice : jsstring) :
  TOOL_SUPPORT config = true -> is_role "user" m = true ->
  choice = js "auto" \/ choice = js "required" ->
  exists front,
    processMessagesWithTools config (l ++ [m]) (Some tools) NoChoice
    = front ++ [with_content m (contentToString (content m))]
    /\ processMessagesWithTools config (l ++ [m]) (Some tools)
         (ChoiceString choice)
       = front
         ++ [with_content m
               (contentToString (content m) ++ nl ++ nl
                ++ js "请根据需要使用提供的工具函数。")].
Proof.
  intros Hsupport Hu Hchoice.
  destruct (is_role_user_other m Hu) as (Hs & Ht & Hf).
  destruct (with_tool_prompt_snoc (generateToolPrompt tools) l m Hs)
    as [front Hfront].
  exists (map normalize_role front). split.
  - rewrite tool_branch_plain by done. rewrite Hfront, map_app. cbn [map].
    f_equal. f_equal. apply normalize_role_other. by rewrite Ht, Hf.
  - unfold processMessagesWithTools. rewrite Hsupport.
    fold (tool_persona (generateToolPrompt tools)).
    change (if existsb (is_role "system") (l ++ [m]) then _ else _)
      with (with_tool_prompt (generateToolPrompt tools) (l ++ [m])).
    assert (is_choice "none" (ChoiceString choice) = false) as ->
      by (by destruct Hchoice as [->| ->]; vm_compute).
    assert (is_choice "required" (ChoiceString choice)
            || is_choice "auto" (ChoiceString choice) = true) as ->
      by (by destruct Hchoice as [->| ->]; vm_compute).
    cbn [andb negb]. rewrite Hfront, hint_last_user_last by done.
    rewrite map_app. cbn [map]. f_equal. f_equal.
    apply (normalize_role_fixed _ (contentToString (content m) ++ nl ++ nl
                                   ++ js "请根据需要使用提供的工具函数。"));
      done.
Qed.

Lemma processMessagesWithTools_hint_witness :
  exists front,
    processMessagesWithTools sample_config
      ([message "system" (js "Be brief.")] ++ [message "user" (js "Weather?")])
      (Some []) NoChoice
    = front ++ [with_content (message "user" (js "Weather?"))
                  (contentToString (content (message "user" (js "Weather?"))))]
    /\ processMessagesWithTools sample_config
         ([message "system" (js "Be brief.")]
          ++ [message "user" (js "Weather?")])
         (Some []) (ChoiceString (js "required"))
       = front
         ++ [with_content (message "user" (js "Weather?"))
               (contentToString (content (message "user" (js "Weather?")))
                ++ nl ++ nl ++ js "请根据需要使用提供的工具函数。")].
Proof.
  apply (processMessagesWithTools_hint sample_config
           [message "system" (js "Be brief.")]
           (message "user" (js "Weather?")) [] (js "required"));
    [done|by vm_compute|by right].
Defined.

Lemma hint_last_user_none (hint : jsstring) (l : list Message) :
  (forall m, l !! pred (length l) = Some m -> is_role "user" m = false) ->
  hint_last_user hint l = l.
Proof.
  intros H. unfold hint_last_user.
  destruct (l !! pred (length l)) as [lastMsg|]; [|done].
  by rewrite (H lastMsg).
Qed.

Lemma with_tool_prompt_last (toolsPrompt : jsstring)
    (messages : list Message) (m : Message) :
  with_tool_prompt toolsPrompt messages
  !! pred (length (with_tool_prompt toolsPrompt messages)) = Some m ->
  is_role "user" m = true ->
  messages !! pred (length messages) = Some m.
Proof.
  rewrite with_tool_prompt_length. unfold with_tool_prompt.
  destruct (existsb (is_role "system") messages).
  - rewrite list_lookup_fmap.
    destruct (messages !! pred (length messages)) as [x|]; [|done].
    cbn [fmap option_fmap option_map].
    destruct (is_role "system" x) eqn:Hx.
    + intros [= <-]. unfold is_role in *. cbn [role with_content].
      intros Hu. apply jseq_true in Hx. rewrite Hx in Hu. by vm_compute in Hu.
    + by intros [= <-].
  - cbn [pred]. destruct messages as [|x l]; cbn [length lookup list_lookup].
    + intros [= <-]. by vm_compute.
    + cbn [pred]. done.
Qed.

(** X10. The tool choice touches the last message only: the result has
    as many messages as without a tool choice, agrees with it everywhere
    but at the last index, and is the same list when the request does not
    end with a user message. *)
Theorem processMessagesWithTools_choice_frame (config : Config)
    (messages : list Message) (tools : list Tool) (toolChoice : ToolChoice) :
  TOOL_SUPPORT config = true -> is_choice "none" toolChoice = false ->
  let result :=
    processMessagesWithTools config messages (Some tools) toolChoice in
  let plain_result :=
    processMessagesWithTools config messages (Some tools) NoChoice in
  length result = length plain_result
  /\ (forall i, i <> pred (length plain_result) ->
        result !! i = plain_result !! i)
  /\ ((forall m, messages !! pred (length messages) = Some m ->
         is_role "user" m = false) ->
      result = plain_result).
Proof.
  intros Hsupport Hnone result plain_result.
  destruct (tool_branch config messages tools toolChoice Hsupport Hnone)
    as (processed & Hresult & Hprocessed).
  fold result in Hresult. subst plain_result.
  rewrite tool_branch_plain by done. rewrite Hresult.
  set (base := with_tool_prompt (generateToolPrompt tools) messages) in *.
  destruct Hprocessed as [->|[hint ->]]; [done|].
  rewrite !length_map, hint_last_user_length.
  split; [done|]. split.
  - intros i Hi. rewrite !list_lookup_fmap.
    destruct (base !! i) as [x|] eqn:E.
    + rewrite (hint_last_user_other hint base i x); [done|done|by right].
    + apply lookup_ge_None in E.
      rewrite (proj2 (lookup_ge_None _ _)); [done|].
      by rewrite hint_last_user_length.
  - intros Hlast. rewrite hint_last_user_none; [done|].
    intros m Hm. destruct (is_role "user" m) eqn:Hu; [|done].
    rewrite <- Hu. apply Hlast. by eapply with_tool_prompt_last.
Qed.

Lemma processMessagesWithTools_choice_frame_witness :
  length (processMessagesWithTools sample_config
            [message "user" (js "a"); message "assistant" (js "b")]
            (Some []) (ChoiceString (js "auto")))
  = length (processMessagesWithTools sample_config
              [message "user" (js "a"); message "assistant" (js "b")]
              (Some []) NoChoice)
  /\ processMessagesWithTools sample_config
       [message "user" (js "a"); message "assistant" (js "b")]
       (Some []) (ChoiceString (js "auto"))
     = processMessagesWithTools sample_config
         [message "user" (js "a"); message "assistant" (js "b")]
         (Some []) NoChoice.
Proof.
  destruct (processMessagesWithTools_choice_frame sample_config
              [message "user" (js "a"); message "assistant" (js "b")]
              [] (ChoiceString (js "auto")) eq_refl eq_refl)
    as (H1 & _ & H3).
  split; [exact H1|]. apply H3. intros m [= <-]. by vm_compute.
Defined.

(** *** The tool catalog *)

Lemma tool_definition_cases (tool : Tool) :
  match tool_function tool with
  | Some functionSpec =>
      if jseq (tool_type tool) (js "function")
      then exists info, tool_definition tool = [info]
                        /\ startsWith
                             (js "## "
                              ++ or_else (Some (function_name functionSpec))
                                   (js "unknown")
                              ++ nl ++ js "**Purpose**: "
                              ++ or_else (description functionSpec) [])
                             info = true
      else tool_definition tool = []
  | None => tool_definition tool = []
  end.
Proof.
  unfold tool_definition.
  destruct (tool_function tool) as [functionSpec|];
    [|by destruct (jseq _ _)].
  destruct (jseq (tool_type tool) (js "function")); [|done]. cbn [negb].
  eexists. split; [reflexivity|].
  set (head := js "## " ++ or_else (Some (function_name functionSpec))
                             (js "unknown")).
  set (purpose := js "**Purpose**: " ++ or_else (description functionSpec) []).
  assert (H : forall rest,
            startsWith (head ++ nl ++ purpose)
              (join nl ([head; purpose] ++ rest)) = true).
  { intros rest. destruct rest as [|x rest]; cbn [join app].
    - apply startsWith_refl.
    - match goal with
      | |- startsWith ?p (head ++ nl ++ purpose ++ ?r) = true =>
          replace (head ++ nl ++ purpose ++ r) with (p ++ r)
            by (by rewrite <- !app_assoc)
      end.
      apply startsWith_app. }
  subst head purpose. rewrite <- !app_assoc in H.
  destruct (parameters functionSpec) as [[[[|p ps]|] req]|];
    try apply (H []).
  apply (H (_ :: _)).
Qed.

Lemma flat_map_nil {A B} (f : A -> list B) (l : list A) :
  flat_map f l = [] <-> Forall (fun x => f x = []) l.
Proof.
  induction l as [|x l IH]; cbn [flat_map].
  - split; [constructor|done].
  - split.
    + intros H. apply app_eq_nil in H as [H1 H2].
      constructor; [done|by apply IH].
    + intros H. inversion_clear H as [|? ? H1 H2].
      rewrite H1. by apply IH.
Qed.

(** X11. The catalog is empty exactly when no tool of the list is a
    function tool with a function specification: tools of another type and
    tools without [function] are passed over. *)
Theorem generateToolPrompt_empty (tools : list Tool) :
  generateToolPrompt tools = []
  <-> Forall (fun tool => jseq (tool_type tool) (js "function") = false
                          \/ tool_function tool = None) tools.
Proof.
  assert (Hdef : forall tool,
            tool_definition tool = []
            <-> jseq (tool_type tool) (js "function") = false
                \/ tool_function tool = None).
  { intros tool. pose proof (tool_definition_cases tool) as H.
    destruct (tool_function tool) as [f|]; [|by split; [right|]].
    destruct (jseq (tool_type tool) (js "function")).
    - destruct H as (info & -> & _). split; [done|]. by intros [|].
    - split; [by left|done]. }
  assert (Hall : flat_map tool_definition tools = []
                 <-> Forall (fun tool =>
                               jseq (tool_type tool) (js "function") = false
                               \/ tool_function tool = None) tools).
  { rewrite flat_map_nil. apply Forall_iff. intros tool. apply Hdef. }
  rewrite <- Hall. unfold generateToolPrompt.
  destruct tools as [|tool tools]; [done|].
  destruct (flat_map tool_definition (tool :: tools)); [done|].
  split; [|done]. by intros H.
Qed.

Lemma includes_middle (p a b : jsstring) : includes p (a ++ p ++ b) = true.
Proof.
  apply includes_app_r. apply includes_app_l. apply includes_refl.
Qed.

Lemma includes_startsWith (p s : jsstring) :
  startsWith p s = true -> includes p s = true.
Proof. intros H. destruct s; cbn [includes]; by rewrite H. Qed.

Lemma includes_join (p sep x : jsstring) (l : list jsstring) :
  x ∈ l -> startsWith p x = true -> includes p (join sep l) = true.
Proof.
  intros Hx Hp. induction l as [|y l IH]; [by apply elem_of_nil in Hx|].
  apply elem_of_cons in Hx as [<-|Hx].
  - destruct l as [|z l]; cbn [join].
    + by apply includes_startsWith.
    + apply includes_app_l. by apply includes_startsWith.
  - destruct l as [|z l]; [by apply elem_of_nil in Hx|].
    cbn [join]. apply includes_app_r, includes_app_r. by apply IH.
Qed.

Lemma startsWith_cancel (a p s : jsstring) :
  startsWith p s = true -> startsWith (a ++ p) (a ++ s) = true.
Proof.
  intros H. induction a as [|c a IH]; cbn [app startsWith]; [done|].
  by rewrite N.eqb_refl.
Qed.

(** X12. Every function tool of the list is advertised: the catalog
    starts with the [# AVAILABLE FUNCTIONS] heading and contains the
    heading of the tool (its name, or "unknown") followed by its purpose
    line. *)
Theorem generateToolPrompt_advertises (tools : list Tool) (tool : Tool)
    (functionSpec : ToolFunction) :
  tool ∈ tools ->
  jseq (tool_type tool) (js "function") = true ->
  tool_function tool = Some functionSpec ->
  includes
    (js "## " ++ or_else (Some (function_name functionSpec)) (js "unknown")
     ++ nl ++ js "**Purpose**: " ++ or_else (description functionSpec) [])
    (generateToolPrompt tools) = true
  /\ startsWith (nl ++ nl ++ js "# AVAILABLE FUNCTIONS" ++ nl)
       (generateToolPrompt tools) = true.
Proof.
  intros Hin Htype Hspec.
  pose proof (tool_definition_cases tool) as H.
  rewrite Hspec, Htype in H. destruct H as (info & Hinfo & Hstart).
  assert (Hmem : info ∈ flat_map tool_definition tools).
  { apply list_elem_of_In, in_flat_map. exists tool.
    split; [by apply list_elem_of_In|]. rewrite Hinfo. by left. }
  unfold generateToolPrompt.
  destruct tools as [|t0 tools]; [by apply elem_of_nil in Hin|].
  destruct (flat_map tool_definition (t0 :: tools)) as [|d ds] eqn:E;
    [by apply elem_of_nil in Hmem|].
  split.
  - do 4 apply includes_app_r. apply includes_app_l.
    by eapply includes_join.
  - do 3 apply startsWith_cancel. apply startsWith_app.
Qed.

Lemma generateToolPrompt_advertises_witness :
  includes
    (js "## " ++ or_else (Some (function_name sample_function)) (js "unknown")
     ++ nl ++ js "**Purpose**: " ++ or_else (description sample_function) [])
    (generateToolPrompt
       [{| tool_type := js "retrieval"; tool_function := None |};
        sample_tool]) = true.
Proof.
  assert (Hin : sample_tool
                ∈ [{| tool_type := js "retrieval"; tool_function := None |};
                   sample_tool])
    by (by apply list_elem_of_lookup_2 with 1%nat).
  assert (Htype : jseq (tool_type sample_tool) (js "function") = true)
    by (by vm_compute).
  exact (proj1 (generateToolPrompt_advertises _ sample_tool sample_function
                  Hin Htype eq_refl)).
Defined.

(** *** The thinking prompt *)

Lemma add_to_first_system_none (messages : list Message) :
  existsb (is_role "system") messages = false ->
  add_to_first_system messages = None.
Proof.
  induction messages as [|m rest IH]; [done|].
  cbn [existsb add_to_first_system]. intros H.
  apply orb_false_iff in H as [-> H]. by rewrite IH.
Qed.

Lemma add_to_first_system_app (pre rest result : list Message) :
  existsb (is_role "system") pre = false ->
  add_to_first_system rest = Some result ->
  add_to_first_system (pre ++ rest) = Some (pre ++ result).
Proof.
  intros Hpre Hrest. induction pre as [|x pre IH]; [done|].
  cbn [existsb] in Hpre. apply orb_false_iff in Hpre as [Hx Hpre].
  cbn [app add_to_first_system]. by rewrite Hx, IH.
Qed.

(** X13. [addThinkingPromptToMessages] touches the first system
    message only.  Without a system message it puts the persona with the
    instruction in front and keeps the list; otherwise the messages before
    and after the first system message are kept as they are, later system
    messages included, and that message gets the instruction appended
    unless its content has the marker. *)
Theorem addThinkingPromptToMessages_first_system (pre : list Message) :
  existsb (is_role "system") pre = false ->
  addThinkingPromptToMessages pre
  = message "system" (js "你是一个有用的AI助手。" ++ thinkingInstruction) :: pre
  /\ forall (m : Message) (post : list Message),
       is_role "system" m = true ->
       addThinkingPromptToMessages (pre ++ m :: post)
       = pre
         ++ (if includes (js "<thinking>") (contentToString (content m))
             then m
             else with_content m
                    (contentToString (content m) ++ thinkingInstruction))
         :: post.
Proof.
  intros Hpre. split.
  - unfold addThinkingPromptToMessages.
    by rewrite add_to_first_system_none.
  - intros m post Hm. unfold addThinkingPromptToMessages.
    erewrite add_to_first_system_app; [reflexivity|done|].
    cbn [add_to_first_system]. rewrite Hm, contentToString_or_empty.
    by destruct (includes (js "<thinking>") (contentToString (content m))).
Qed.

Lemma addThinkingPromptToMessages_first_system_witness :
  addThinkingPromptToMessages
    ([message "user" (js "hi")]
     ++ message "system" (js "Be brief.")
        :: [message "system" (js "Second.")])
  = [message "user" (js "hi")]
    ++ (if includes (js "<thinking>")
             (contentToString (content (message "system" (js "Be brief."))))
        then message "system" (js "Be brief.")
        else with_content (message "system" (js "Be brief."))
               (contentToString (content (message "system" (js "Be brief.")))
                ++ thinkingInstruction))
    :: [message "system" (js "Second.")].
Proof.
  apply (proj2 (addThinkingPromptToMessages_first_system
                  [message "user" (js "hi")] ltac:(by vm_compute))).
  by vm_compute.
Defined.

(** ** Model mapping: look-up, replacement and the query functions *)

Section ModelQueriesProperties.

Import ModelMapper ModelQueries.

(** The mapping that the refresh loop builds for a model. *)
Lemma consider_mapped (config : Config) (st : Manager) (model : ZAIModel) :
  consider config (mappedUpstreamIds config) st model
  = if mapped config model then
      {| dynamicMappings :=
           <[ModelMapper.id model :=
               {| displayName :=
                    or_else (name model)
                      (or_else (display_name model) (ModelMapper.id model));
                  upstreamModelId := ModelMapper.id model;
                  upstreamModelName :=
                    or_else (name model)
                      (or_else (display_name model) (ModelMapper.id model));
                  features := no_features;
                  mcpServers := Some [];
                  ownedBy := Some (or_else (owned_by model) (js "z.ai"));
                  isBuiltin := false;
                  description :=
                    Some (js "Z.AI模型: "
                          ++ or_else (name model) (ModelMapper.id model)) |}]>
             (dynamicMappings st);
         lastUpdateTime := lastUpdateTime st |}
    else st.
Proof.
  unfold consider, mapped. cbv zeta.
  destruct (bool_decide (ModelMapper.id model ∈ mappedUpstreamIds config));
    [done|].
  destruct (is_defined (index (BUILTIN_MODEL_MAPPINGS config)
                          (ModelMapper.id model))); [done|].
  cbn [negb andb]. unfold addDynamicMapping.
  cbn [p_displayName p_upstreamModelId p_upstreamModelName p_features
       p_mcpServers p_ownedBy p_description default].
  assert (Hshown' : forall (a b : option jsstring) (i : jsstring),
            or_else (Some (or_else a (or_else b i))) i
            = or_else a (or_else b i)).
  { intros [[|]|] [[|]|] [|]; done. }
  assert (Hid : forall i : jsstring, or_else (Some i) i = i)
    by (by intros [|]).
  assert (Howner : forall o : option jsstring,
            or_else (Some (or_else o (js "z.ai"))) (js "z.ai")
            = or_else o (js "z.ai")).
  { intros [[|]|]; done. }
  assert (Hdescr : forall t d : jsstring,
            or_else (Some (js "Z.AI模型: " ++ t)) d = js "Z.AI模型: " ++ t).
  { intros t d. remember (js "Z.AI模型: ") as p eqn:Hp.
    destruct p; [by vm_compute in Hp|done]. }
  rewrite !Hshown', Hid, Howner, Hdescr. reflexivity.
Qed.

Lemma updateFromZAIModels_runs (config : Config) (now : Z)
    (zaiModels : list ZAIModel) (st : Manager) :
  (UPDATE_INTERVAL <= now - lastUpdateTime st)%Z ->
  updateFromZAIModels config now zaiModels st
  = {| dynamicMappings :=
         dynamicMappings
           (foldl (consider config (mappedUpstreamIds config))
              {| dynamicMappings := ∅; lastUpdateTime := lastUpdateTime st |}
              zaiModels);
       lastUpdateTime := now |}.
Proof.
  intros H. unfold updateFromZAIModels.
  by rewrite (proj2 (Z.ltb_ge _ _) H).
Qed.

Lemma foldl_consider_other (config : Config) (l : list ZAIModel)
    (st : Manager) (k : jsstring) :
  k ∉ map ModelMapper.id l ->
  dynamicMappings (foldl (consider config (mappedUpstreamIds config)) st l)
  !! k = dynamicMappings st !! k.
Proof.
  revert st. induction l as [|model l IH]; intros st Hk; [done|].
  cbn [map] in Hk. apply not_elem_of_cons in Hk as [Hne Hk].
  cbn [foldl]. rewrite IH by done. rewrite consider_mapped.
  destruct (mapped config model); [|done].
  cbn [dynamicMappings]. by rewrite lookup_insert_ne.
Qed.

Lemma mapped_ids_sound (m : gmap jsstring ModelMapping) (u : jsstring) :
  u ∈ map_fold (fun _ mapping (acc : gset jsstring) =>
                  {[upstreamModelId mapping]} ∪ acc) ∅ m ->
  exists k x, m !! k = Some x /\ upstreamModelId x = u.
Proof.
  revert u.
  apply (map_fold_weak_ind
           (fun (r : gset jsstring) (m : gmap jsstring ModelMapping) =>
              forall u, u ∈ r ->
                exists k x, m !! k = Some x /\ upstreamModelId x = u)).
  - intros u H. set_solver.
  - intros i y m' r Hi IH u H.
    apply elem_of_union in H as [H|H].
    + apply elem_of_singleton in H as ->. exists i, y.
      by rewrite lookup_insert_eq.
    + destruct (IH u H) as (k & x & Hk & Hx). exists k, x.
      split; [|done]. rewrite lookup_insert_ne; [done|]. congruence.
Qed.

(** The refresh maps a model unless its id is a builtin key, a name that
    objects inherit, or the upstream id of a builtin mapping. *)
Lemma mapped_spec (config : Config) (model : ZAIModel) :
  mapped config model = true
  <-> BUILTIN_MODEL_MAPPINGS config !! ModelMapper.id model = None
      /\ (ModelMapper.id model ∉ inherited_names)
      /\ forall k x, BUILTIN_MODEL_MAPPINGS config !! k = Some x ->
            upstreamModelId x <> ModelMapper.id model.
Proof.
  unfold mapped, index. rewrite andb_true_iff, !negb_true_iff.
  rewrite bool_decide_eq_false. split.
  - intros [Hids Hdef].
    destruct (BUILTIN_MODEL_MAPPINGS config !! ModelMapper.id model) eqn:E;
      [done|].
    split; [done|]. split.
    + intros Hin. by rewrite bool_decide_eq_true_2 in Hdef.
    + intros k x Hk Hx. apply Hids. rewrite <- Hx.
      by eapply mapped_ids_complete.
  - intros (Hown & Hinh & Hup). split.
    + intros Hin. apply mapped_ids_sound in Hin as (k & x & Hk & Hx).
      by eapply Hup.
    + rewrite Hown. by rewrite bool_decide_eq_false_2.
Qed.

(** What the refresh loop leaves in the dynamic set. *)
Lemma foldl_consider_invariant (config : Config)
    (R : jsstring -> ModelMapping -> Prop) (l : list ZAIModel)
    (st : Manager) :
  (forall k m, dynamicMappings st !! k = Some m -> R k m) ->
  (forall model st', model ∈ l -> mapped config model = true ->
     forall m,
       dynamicMappings
         (consider config (mappedUpstreamIds config) st' model)
       !! ModelMapper.id model = Some m ->
       R (ModelMapper.id model) m) ->
  forall k m,
    dynamicMappings (foldl (consider config (mappedUpstreamIds config)) st l)
    !! k = Some m ->
    R k m.
Proof.
  revert st. induction l as [|model l IH]; intros st Hst Hl; [done|].
  cbn [foldl]. apply IH.
  - intros k m. destruct (decide (k = ModelMapper.id model)) as [->|Hne].
    + destruct (mapped config model) eqn:Hm.
      * apply Hl; [left|done].
      * rewrite consider_mapped, Hm. apply Hst.
    + rewrite consider_mapped. destruct (mapped config model); [|apply Hst].
      cbn [dynamicMappings]. rewrite lookup_insert_ne by done. apply Hst.
  - intros model' st' Hin. apply Hl. by right.
Qed.

(** X14. A model of the observed list whose id is no builtin key, no
    upstream id of a builtin mapping and no inherited property name
    resolves, after a refresh that runs, to a mapping onto itself: the
    upstream id is the id, the name is the last such entry's [name],
    [display_name] or id, and there are no features and no MCP servers. *)
Theorem refreshed_model_resolves (config : Config) (now : Z) (st : Manager)
    (before : list ZAIModel) (model : ZAIModel) (after : list ZAIModel) :
  (UPDATE_INTERVAL <= now - lastUpdateTime st)%Z ->
  BUILTIN_MODEL_MAPPINGS config !! ModelMapper.id model = None ->
  ModelMapper.id model ∉ inherited_names ->
  (forall k x, BUILTIN_MODEL_MAPPINGS config !! k = Some x ->
     upstreamModelId x <> ModelMapper.id model) ->
  ModelMapper.id model ∉ map ModelMapper.id after ->
  let shown :=
    or_else (name model)
      (or_else (display_name model) (ModelMapper.id model)) in
  let st' :=
    updateFromZAIModels config now (before ++ model :: after) st in
  getMappingByModelId config st' (ModelMapper.id model)
  = Own {| displayName := shown;
           upstreamModelId := ModelMapper.id model;
           upstreamModelName := shown;
           features := no_features;
           mcpServers := Some [];
           ownedBy := Some (or_else (owned_by model) (js "z.ai"));
           isBuiltin := false;
           description :=
             Some (js "Z.AI模型: "
                   ++ or_else (name model) (ModelMapper.id model)) |}
  /\ getUpstreamConfig config st' (ModelMapper.id model)
     = Some (Some {| c_upstreamModelId := ModelMapper.id model;
                     c_upstreamModelName := shown;
                     c_features := no_features;
                     c_mcpServers := [] |}).
Proof.
  intros Httl Hown Hinh Hup Hlast shown st'.
  assert (Hmapped : mapped config model = true) by (by apply mapped_spec).
  assert (Hres : getMappingByModelId config st' (ModelMapper.id model)
                 = Own {| displayName := shown;
                          upstreamModelId := ModelMapper.id model;
                          upstreamModelName := shown;
                          features := no_features;
                          mcpServers := Some [];
                          ownedBy :=
                            Some (or_else (owned_by model) (js "z.ai"));
                          isBuiltin := false;
                          description :=
                            Some (js "Z.AI模型: "
                                  ++ or_else (name model)
                                       (ModelMapper.id model)) |}).
  { subst st'. rewrite updateFromZAIModels_runs by done.
    unfold getMappingByModelId, index, getMappings. cbn [dynamicMappings].
    rewrite foldl_app. cbn [foldl].
    erewrite lookup_union_Some_l; [reflexivity|].
    rewrite foldl_consider_other by done.
    rewrite consider_mapped, Hmapped. cbn [dynamicMappings].
    by rewrite lookup_insert_eq. }
  split; [done|]. unfold getUpstreamConfig. by rewrite Hres.
Qed.

Lemma refreshed_model_resolves_witness :
  getUpstreamConfig sample_config
    (updateFromZAIModels sample_config 1000000
       ([{| ModelMapper.id := js "glm-x"; name := Some (js "old name");
            display_name := None; owned_by := None |}]
        ++ {| ModelMapper.id := js "glm-x"; name := None;
              display_name := Some (js "GLM X"); owned_by := None |}
           :: [{| ModelMapper.id := js "GLM-4.5"; name := None;
                  display_name := None; owned_by := None |}])
       initial)
    (ModelMapper.id
       {| ModelMapper.id := js "glm-x"; name := None;
          display_name := Some (js "GLM X"); owned_by := None |})
  = Some (Some {| c_upstreamModelId :=
                    ModelMapper.id
                      {| ModelMapper.id := js "glm-x"; name := None;
                         display_name := Some (js "GLM X");
                         owned_by := None |};
                  c_upstreamModelName :=
                    or_else
                      (name {| ModelMapper.id := js "glm-x"; name := None;
                               display_name := Some (js "GLM X");
                               owned_by := None |})
                      (or_else
                         (display_name
                            {| ModelMapper.id := js "glm-x"; name := None;
                               display_name := Some (js "GLM X");
                               owned_by := None |})
                         (ModelMapper.id
                            {| ModelMapper.id := js "glm-x"; name := None;
                               display_name := Some (js "GLM X");
                               owned_by := None |}));
                  c_features := no_features;
                  c_mcpServers := [] |}).
Proof.
  refine (proj2 (refreshed_model_resolves sample_config 1000000 initial
                   [{| ModelMapper.id := js "glm-x";
                       name := Some (js "old name");
                       display_name := None; owned_by := None |}]
                   {| ModelMapper.id := js "glm-x"; name := None;
                      display_name := Some (js "GLM X"); owned_by := None |}
                   [{| ModelMapper.id := js "GLM-4.5"; name := None;
                       display_name := None; owned_by := None |}]
                   _ _ _ _ _)).
  - by vm_compute.
  - by vm_compute.
  - apply (bool_decide_unpack _). by vm_compute.
  - intros k x Hk Hx.
    assert (H : js "glm-x" ∈ mappedUpstreamIds sample_config).
    { cbn [ModelMapper.id] in Hx. rewrite <- Hx.
      by eapply mapped_ids_complete. }
    revert H. apply (bool_decide_unpack _). by vm_compute.
  - apply (bool_decide_unpack _). by vm_compute.
Defined.

Lemma foldl_consider_time (config : Config) (l : list ZAIModel)
    (d : gmap jsstring ModelMapping) (t1 t2 : Z) :
  dynamicMappings
    (foldl (consider config (mappedUpstreamIds config))
       {| dynamicMappings := d; lastUpdateTime := t1 |} l)
  = dynamicMappings
      (foldl (consider config (mappedUpstreamIds config))
         {| dynamicMappings := d; lastUpdateTime := t2 |} l).
Proof.
  revert d. induction l as [|model l IH]; intros d; [done|].
  cbn [foldl]. rewrite !consider_mapped.
  destruct (mapped config model); cbn [dynamicMappings lastUpdateTime];
    apply IH.
Qed.

Lemma rebuilt_entries (config : Config) (zaiModels : list ZAIModel)
    (t : Z) (k : jsstring) (m : ModelMapping) :
  dynamicMappings
    (foldl (consider config (mappedUpstreamIds config))
       {| dynamicMappings := ∅; lastUpdateTime := t |} zaiModels)
  !! k = Some m ->
  (exists model, (model ∈ zaiModels) /\ ModelMapper.id model = k)
  /\ dynamic_entry config k m.
Proof.
  apply (foldl_consider_invariant config
           (fun k m =>
              (exists model, (model ∈ zaiModels) /\ ModelMapper.id model = k)
              /\ dynamic_entry config k m)).
  - intros k' m' H. cbn [dynamicMappings] in H. by rewrite lookup_empty in H.
  - intros model st' Hin Hmapped m'. rewrite consider_mapped, Hmapped.
    cbn [dynamicMappings]. rewrite lookup_insert_eq. intros [= <-].
    apply mapped_spec in Hmapped as (Hown & Hinh & _).
    split; [by exists model|]. done.
Qed.

(** X15. A refresh that runs replaces the dynamic set: the new time is
    recorded, the new set depends on the observed list alone, not on the
    manager before, and each of its entries comes from a model of the list,
    under its id, outside the builtin keys, flagged as not builtin and
    without features or MCP servers. *)
Theorem updateFromZAIModels_replaces (config : Config) (now : Z)
    (zaiModels : list ZAIModel) (st : Manager) :
  (UPDATE_INTERVAL <= now - lastUpdateTime st)%Z ->
  let st' := updateFromZAIModels config now zaiModels st in
  lastUpdateTime st' = now
  /\ (forall now2 st2,
        (UPDATE_INTERVAL <= now2 - lastUpdateTime st2)%Z ->
        dynamicMappings (updateFromZAIModels config now2 zaiModels st2)
        = dynamicMappings st')
  /\ forall k m,
       dynamicMappings st' !! k = Some m ->
       (exists model, (model ∈ zaiModels) /\ ModelMapper.id model = k)
       /\ BUILTIN_MODEL_MAPPINGS config !! k = None
       /\ (k ∉ inherited_names)
       /\ upstreamModelId m = k
       /\ isBuiltin m = false
       /\ features m = no_features
       /\ mcpServers m = Some [].
Proof.
  intros Httl st'. subst st'. rewrite updateFromZAIModels_runs by done.
  cbn [lastUpdateTime dynamicMappings]. split; [done|]. split.
  - intros now2 st2 Httl2. rewrite updateFromZAIModels_runs by done.
    cbn [dynamicMappings]. apply foldl_consider_time.
  - intros k m H. by apply rebuilt_entries in H.
Qed.

Lemma updateFromZAIModels_replaces_witness :
  dynamicMappings
    (updateFromZAIModels sample_config 2000000
       [{| ModelMapper.id := js "glm-y"; name := None; display_name := None;
           owned_by := None |}]
       (updateFromZAIModels sample_config 1000000
          [{| ModelMapper.id := js "glm-x"; name := None;
              display_name := None; owned_by := None |}]
          initial))
  !! js "glm-x" = None.
Proof.
  destruct (dynamicMappings
              (updateFromZAIModels sample_config 2000000
                 [{| ModelMapper.id := js "glm-y"; name := None;
                     display_name := None; owned_by := None |}]
                 (updateFromZAIModels sample_config 1000000
                    [{| ModelMapper.id := js "glm-x"; name := None;
                        display_name := None; owned_by := None |}]
                    initial))
            !! js "glm-x") as [m|] eqn:E; [|done].
  exfalso.
  apply (proj2 (proj2 (updateFromZAIModels_replaces sample_config 2000000
                         [{| ModelMapper.id := js "glm-y"; name := None;
                             display_name := None; owned_by := None |}]
                         (updateFromZAIModels sample_config 1000000
                            [{| ModelMapper.id := js "glm-x"; name := None;
                                display_name := None; owned_by := None |}]
                            initial)
                         ltac:(by vm_compute)))) in E
    as ((model & Hin & Hid) & _).
  apply list_elem_of_singleton in Hin as ->. by vm_compute in Hid.
Defined.

(** After any run of refreshes every dynamic mapping is one that a
    refresh built. *)
Lemma refreshes_entries (config : Config)
    (calls : list (Z * list ZAIModel)) (k : jsstring) (m : ModelMapping) :
  dynamicMappings (refreshes config calls initial) !! k = Some m ->
  dynamic_entry config k m.
Proof.
  assert (H : forall st,
            (forall k m, dynamicMappings st !! k = Some m ->
               dynamic_entry config k m) ->
            forall k m,
              dynamicMappings (refreshes config calls st) !! k = Some m ->
              dynamic_entry config k m).
  { induction calls as [|[now zaiModels] calls IH]; intros st Hst; [done|].
    cbn [refreshes foldl]. apply IH. cbn [fst snd].
    unfold updateFromZAIModels.
    destruct (now - lastUpdateTime st <? UPDATE_INTERVAL)%Z; [done|].
    cbn [dynamicMappings]. intros k' m' Hk.
    by apply rebuilt_entries in Hk as [_ Hk]. }
  apply H. intros k' m' Hk. unfold initial in Hk.
  cbn [dynamicMappings] in Hk. by rewrite lookup_empty in Hk.
Qed.

(** How a model id resolves: to its builtin mapping, to a dynamic one, to
    an inherited function, or not at all. *)
Lemma getMappingByModelId_cases (config : Config)
    (calls : list (Z * list ZAIModel)) (modelId : jsstring) :
  let st := refreshes config calls initial in
  match getMappingByModelId config st modelId with
  | Own m =>
      BUILTIN_MODEL_MAPPINGS config !! modelId = Some m
      \/ (dynamicMappings st !! modelId = Some m
          /\ dynamic_entry config modelId m)
  | Inherited =>
      BUILTIN_MODEL_MAPPINGS config !! modelId = None
      /\ (modelId ∈ inherited_names)
  | Undefined =>
      BUILTIN_MODEL_MAPPINGS config !! modelId = None
      /\ (modelId ∉ inherited_names)
  end.
Proof.
  intros st. unfold getMappingByModelId, index, getMappings.
  destruct (dynamicMappings st !! modelId) as [m|] eqn:Ed.
  - rewrite (lookup_union_Some_l _ _ _ _ Ed). right. split; [done|].
    by eapply refreshes_entries.
  - rewrite lookup_union_r by done.
    destruct (BUILTIN_MODEL_MAPPINGS config !! modelId) as [m|] eqn:Eb.
    + by left.
    + by case_bool_decide.
Qed.

(** X16. A property name that every object inherits ([toString],
    [constructor], ...) passes for a model id unless the builtin set has it
    as a key: [hasModel] is true, [getUpstreamConfig] returns a
    configuration without features, [modelSupportsFeature] throws, and an
    authorized chat completion for it ends in the internal-error answer
    instead of the unsupported-model answer. *)
Theorem inherited_name_resolves (config : Config)
    (calls : list (Z * list ZAIModel)) (modelId : jsstring) :
  modelId ∈ inherited_names ->
  BUILTIN_MODEL_MAPPINGS config !! modelId = None ->
  let st := refreshes config calls initial in
  hasModel config st modelId = true
  /\ getUpstreamConfig config st modelId = Some None
  /\ (forall name, modelSupportsFeature config st modelId name
                   = Throws TypeError)
  /\ getModelMcpServers config st modelId = []
  /\ forall authorization request chatId msgId datetime,
       Route.authorized config authorization = None ->
       Route.model request = modelId ->
       Route.chat_completions config st authorization request chatId msgId
         datetime
       = Route.InternalError.
Proof.
  intros Hinh Hown st.
  pose proof (getMappingByModelId_cases config calls modelId) as H.
  cbv zeta in H. fold st in H.
  assert (Hres : getMappingByModelId config st modelId = Inherited).
  { destruct (getMappingByModelId config st modelId) as [m| |].
    - destruct H as [H|[_ (_ & H & _)]]; [congruence|done].
    - done.
    - by destruct H as [_ H]. }
  unfold hasModel, getUpstreamConfig, modelSupportsFeature,
    getModelMcpServers.
  rewrite Hres. repeat split; try done.
  intros authorization request chatId msgId datetime Hauth Hmodel.
  unfold Route.chat_completions, getUpstreamConfig.
  by rewrite Hauth, Hmodel, Hres.
Qed.

Lemma inherited_name_resolves_witness :
  Route.chat_completions sample_config
    (refreshes sample_config
       [(1000000%Z,
         [{| ModelMapper.id := js "toString"; name := None;
             display_name := None; owned_by := None |}])]
       initial)
    None
    {| Route.model := js "toString";
       Route.messages := [message "user" (js "hi")];
       Route.stream := false; Route.tools := None;
       Route.tool_choice := NoChoice |}
    (js "chat-1") (js "msg-1") (js "2025-01-01 00:00:00")
  = Route.InternalError.
Proof.
  apply (inherited_name_resolves sample_config
           [(1000000%Z,
             [{| ModelMapper.id := js "toString"; name := None;
                 display_name := None; owned_by := None |}])]
           (js "toString")).
  - apply (bool_decide_unpack _). by vm_compute.
  - by vm_compute.
  - done.
  - done.
Defined.

(** X17. After any run of refreshes a model id outside the builtin
    keys that resolves to a mapping has no feature and no MCP server, and
    its upstream id is the id itself. *)
Theorem dynamic_model_features (config : Config)
    (calls : list (Z * list ZAIModel)) (modelId : jsstring)
    (mapping : ModelMapping) :
  let st := refreshes config calls initial in
  BUILTIN_MODEL_MAPPINGS config !! modelId = None ->
  getMappingByModelId config st modelId = Own mapping ->
  (forall name, modelSupportsFeature config st modelId name = Returns false)
  /\ getModelMcpServers config st modelId = []
  /\ getUpstreamConfig config st modelId
     = Some (Some {| c_upstreamModelId := modelId;
                     c_upstreamModelName := upstreamModelName mapping;
                     c_features := no_features;
                     c_mcpServers := [] |})
  /\ isBuiltin mapping = false.
Proof.
  intros st Hown Hres.
  pose proof (getMappingByModelId_cases config calls modelId) as H.
  cbv zeta in H. fold st in H. rewrite Hres in H.
  destruct H as [H|[_ (_ & _ & Hid & Hb & Hf & Hm)]]; [congruence|].
  unfold modelSupportsFeature, getModelMcpServers, getUpstreamConfig.
  rewrite Hres, Hid, Hb, Hf, Hm. repeat split; try done.
  by intros [| |].
Qed.

Lemma dynamic_model_features_witness :
  getModelMcpServers sample_config
    (refreshes sample_config
       [(1000000%Z,
         [{| ModelMapper.id := js "glm-x"; name := None;
             display_name := None; owned_by := None |}])]
       initial)
    (js "glm-x") = [].
Proof.
  eapply (dynamic_model_features sample_config
            [(1000000%Z,
              [{| ModelMapper.id := js "glm-x"; name := None;
                  display_name := None; owned_by := None |}])]
            (js "glm-x")).
  - by vm_compute.
  - vm_compute. reflexivity.
Defined.
End ModelQueriesProperties.

(** ** The chat-completion route: keys, models and messages *)



(** X20. What an authorized request meets by its model id: a key of the
    merged mappings goes upstream, always as a stream, under the upstream
    id and name of its mapping and with its MCP servers; any other id is
    answered with 400 and the unsupported-model text, unless it is an
    inherited property name, which ends in the internal-error answer. *)
Theorem chat_completions_by_model (config : Config)
    (st : ModelMapper.Manager) (authorization : option jsstring)
    (request : Route.OpenAIRequest) (chatId msgId datetime : jsstring) :
  Route.authorized config authorization = None ->
  match ModelMapper.getMappings config st !! Route.model request with
  | Some mapping =>
      exists upstreamReq hasTools,
        Route.chat_completions config st authorization request chatId msgId
          datetime
        = Route.CallUpstream upstreamReq hasTools (Route.stream request)
        /\ Route.u_stream upstreamReq = true
        /\ Route.u_model upstreamReq = ModelMapper.upstreamModelId mapping
        /\ Route.item_id (Route.u_model_item upstreamReq)
           = ModelMapper.upstreamModelId mapping
        /\ Route.item_name (Route.u_model_item upstreamReq)
           = ModelMapper.upstreamModelName mapping
        /\ Route.u_mcp_servers upstreamReq
           = default [] (ModelMapper.mcpServers mapping)
  | None =>
      Route.chat_completions config st authorization request chatId msgId
        datetime
      = if bool_decide (Route.model request ∈ ModelMapper.inherited_names)
        then Route.InternalError
        else Route.Respond 400
               (js "Unsupported model: " ++ Route.model request)
  end.
Proof.
  intros Hauth. unfold Route.chat_completions. rewrite Hauth.
  unfold ModelMapper.getUpstreamConfig, ModelMapper.getMappingByModelId,
    ModelMapper.index.
  destruct (ModelMapper.getMappings config st !! Route.model request)
    as [mapping|].
  - eexists _, _. split; [reflexivity|]. done.
  - by case_bool_decide.
Qed.

Lemma chat_completions_by_model_witness :
  Route.chat_completions sample_config ModelMapper.initial None
    {| Route.model := js "gpt-4";
       Route.messages := [message "user" (js "hi")];
       Route.stream := false; Route.tools := None;
       Route.tool_choice := NoChoice |}
    (js "chat-1") (js "msg-1") (js "2025-01-01 00:00:00")
  = Route.Respond 400 (js "Unsupported model: gpt-4").
Proof.
  pose proof (chat_completions_by_model sample_config ModelMapper.initial None
                {| Route.model := js "gpt-4";
                   Route.messages := [message "user" (js "hi")];
                   Route.stream := false; Route.tools := None;
                   Route.tool_choice := NoChoice |}
                (js "chat-1") (js "msg-1") (js "2025-01-01 00:00:00")
                eq_refl) as H.
  vm_compute in H. vm_compute. exact H.
Defined.

(** *** The messages that go upstream *)

Lemma normalize_role_system (m : Message) :
  is_role "system" (normalize_role m) = is_role "system" m.
Proof.
  unfold normalize_role.
  destruct (is_role "tool" m || is_role "function" m) eqn:E; [|done].
  change (is_role "system" _) with false at 1. symmetry.
  unfold is_role in *.
  destruct (jseq (role m) (js "system")) eqn:Hs; [|done].
  apply jseq_true in Hs. rewrite Hs in E. by vm_compute in E.
Qed.

Lemma existsb_normalize_role (l : list Message) :
  existsb (is_role "system") (map normalize_role l)
  = existsb (is_role "system") l.
Proof.
  induction l as [|m l IH]; [done|].
  cbn [map existsb]. by rewrite normalize_role_system, IH.
Qed.

Lemma existsb_hint_last_user (hint : jsstring) (l : list Message) :
  existsb (is_role "system") (hint_last_user hint l)
  = existsb (is_role "system") l.
Proof.
  unfold hint_last_user.
  destruct (l !! pred (length l)) as [lastMsg|] eqn:E; [|done].
  destruct (is_role "user" lastMsg) eqn:Hu; [|done].
  destruct (is_role_user_other lastMsg Hu) as (Hs & _).
  revert E. generalize (pred (length l)). intros i. revert i.
  induction l as [|x l IH]; intros i; [done|].
  destruct i as [|i]; cbn [lookup list_lookup insert list_insert existsb].
  - by intros [= ->].
  - intros E. f_equal. exact (IH i E).
Qed.

Lemma existsb_with_tool_prompt (toolsPrompt : jsstring)
    (messages : list Message) :
  existsb (is_role "system") (with_tool_prompt toolsPrompt messages) = true.
Proof.
  unfold with_tool_prompt.
  assert (Hmap : forall l : list Message,
            existsb (is_role "system")
              (map (fun m =>
                      if is_role "system" m
                      then with_content m
                             (contentToString (or_empty (content m))
                              ++ toolsPrompt)
                      else m) l)
            = existsb (is_role "system") l).
  { induction l as [|m l IH]; [done|].
    cbn [map existsb]. rewrite IH.
    destruct (is_role "system" m) eqn:Hm; [|by rewrite Hm].
    change (is_role "system" (with_content m _)) with (is_role "system" m).
    by rewrite Hm. }
  destruct (existsb (is_role "system") messages) eqn:E; [|done].
  by rewrite Hmap.
Qed.

(** The preprocessor adds a system message only in the tool branch and
    only when the request has none. *)
Lemma processMessagesWithTools_system (config : Config)
    (messages : list Message) (tools : option (list Tool))
    (toolChoice : ToolChoice) :
  let result := processMessagesWithTools config messages tools toolChoice in
  (existsb (is_role "system") result = true
   /\ length result
      = (length messages
         + if existsb (is_role "system") messages then 0 else 1)%nat)
  \/ (existsb (is_role "system") result
      = existsb (is_role "system") messages
      /\ length result = length messages).
Proof.
  intros result.
  assert (Hplain : processMessagesWithTools config messages None toolChoice
                   = map normalize_role messages) by done.
  destruct tools as [tools|];
    [|right; subst result; rewrite Hplain;
      by rewrite existsb_normalize_role, length_map].
  destruct (TOOL_SUPPORT config) eqn:Hsupport;
    [|right; subst result; unfold processMessagesWithTools;
      rewrite Hsupport; by rewrite existsb_normalize_role, length_map].
  destruct (is_choice "none" toolChoice) eqn:Hnone;
    [right; subst result; unfold processMessagesWithTools;
     rewrite Hsupport, Hnone;
     by rewrite existsb_normalize_role, length_map|].
  left.
  destruct (tool_branch config messages tools toolChoice Hsupport Hnone)
    as (processed & Hresult & Hprocessed).
  fold result in Hresult. rewrite Hresult.
  rewrite existsb_normalize_role, length_map.
  destruct Hprocessed as [->|[hint ->]].
  - rewrite existsb_with_tool_prompt, with_tool_prompt_length.
    split; [done|]. destruct (existsb _ messages); lia.
  - rewrite existsb_hint_last_user, hint_last_user_length.
    rewrite existsb_with_tool_prompt, with_tool_prompt_length.
    split; [done|]. destruct (existsb _ messages); lia.
Qed.

Lemma addThinkingPromptToMessages_length (messages : list Message) :
  length (addThinkingPromptToMessages messages)
  = (length messages
     + if existsb (is_role "system") messages then 0 else 1)%nat.
Proof.
  unfold addThinkingPromptToMessages.
  destruct (add_to_first_system messages) as [result|] eqn:E.
  - revert result E. induction messages as [|m l IH]; intros result; [done|].
    cbn [add_to_first_system existsb].
    destruct (is_role "system" m).
    + destruct (negb _); intros [= <-]; cbn [length orb]; lia.
    + destruct (add_to_first_system l) as [l'|]; [|done].
      intros [= <-]. cbn [length orb]. by rewrite (IH l').
  - assert (existsb (is_role "system") messages = false) as ->.
    { revert E. induction messages as [|m l IH]; [done|].
      cbn [add_to_first_system existsb].
      destruct (is_role "system" m); [by destruct (negb _)|].
      destruct (add_to_first_system l); [done|]. intros _. by apply IH. }
    cbn [length]. lia.
Qed.

Lemma addThinkingPromptToMessages_roles (P : jsstring -> Prop)
    (messages : list Message) :
  P (js "system") ->
  Forall (fun m => P (role m)) messages ->
  Forall (fun m => P (role m)) (addThinkingPromptToMessages messages).
Proof.
  intros Hsys Hall. unfold addThinkingPromptToMessages.
  destruct (add_to_first_system messages) as [result|] eqn:E;
    [|by constructor].
  revert result E. induction Hall as [|m l Hm Hl IH]; intros result; [done|].
  cbn [add_to_first_system].
  destruct (is_role "system" m).
  - destruct (negb _); intros [= <-]; by constructor.
  - destruct (add_to_first_system l) as [l'|]; [|done].
    intros [= <-]. constructor; [done|]. by apply IH.
Qed.

(** X21. In every upstream request no message has the role "tool" or
    "function", and the number of messages is that of the request, plus one
    when the request has no system message. *)
Theorem upstream_messages_shape (config : Config) (st : ModelMapper.Manager)
    (authorization : option jsstring) (request : Route.OpenAIRequest)
    (chatId msgId datetime : jsstring) (upstreamReq : Route.UpstreamRequest)
    (hasTools streaming : bool) :
  Route.chat_completions config st authorization request chatId msgId datetime
  = Route.CallUpstream upstreamReq hasTools streaming ->
  Forall (fun m => jseq (Route.m_role m) (js "tool") = false
                   /\ jseq (Route.m_role m) (js "function") = false)
    (Route.u_messages upstreamReq)
  /\ length (Route.u_messages upstreamReq)
     = (length (Route.messages request)
        + if existsb (is_role "system") (Route.messages request)
          then 0 else 1)%nat.
Proof.
  intros H. unfold Route.chat_completions in H.
  destruct (Route.authorized config authorization) as [refusal|] eqn:Hauth.
  { apply authorized_refusal in Hauth as [error ->]. done. }
  destruct (ModelMapper.getUpstreamConfig config st (Route.model request))
    as [[c|]|]; [|done|done].
  injection H as <- _ _. cbn [Route.u_messages].
  unfold processMessagesWithThinking.
  set (processed := processMessagesWithTools config (Route.messages request)
                      (Route.tools request) (Route.tool_choice request)).
  split.
  - assert (Hroles : Forall (fun m => jseq (role m) (js "tool") = false
                                      /\ jseq (role m) (js "function") = false)
                       (addThinkingPromptToMessages processed)).
    { apply (addThinkingPromptToMessages_roles
               (fun r => jseq r (js "tool") = false
                         /\ jseq r (js "function") = false));
        [by vm_compute|].
      subst processed.
      destruct (processMessagesWithTools_map config (Route.messages request)
                  (Route.tools request) (Route.tool_choice request))
        as [l ->].
      induction l as [|m l IH]; constructor; [|done].
      by destruct (normalize_role_shape m) as (_ & H1 & H2). }
    induction Hroles as [|m l Hm Hl IH]; constructor; done.
  - rewrite length_map, addThinkingPromptToMessages_length.
    destruct (processMessagesWithTools_system config (Route.messages request)
                (Route.tools request) (Route.tool_choice request))
      as [[Hs Hl]|[Hs Hl]]; fold processed in Hs, Hl; rewrite Hs, Hl.
    + lia.
    + done.
Qed.

Lemma upstream_messages_shape_witness :
  exists upstreamReq,
    Route.chat_completions sample_config ModelMapper.initial None
      {| Route.model := js "GLM-4.5";
         Route.messages :=
           [message "user" (js "hi"); message "tool" (js "42")];
         Route.stream := false; Route.tools := Some [];
         Route.tool_choice := NoChoice |}
      (js "chat-1") (js "msg-1") (js "2025-01-01 00:00:00")
    = Route.CallUpstream upstreamReq false false
    /\ length (Route.u_messages upstreamReq) = 3%nat.
Proof.
  eexists. split; [by vm_compute|].
  exact (proj2 (upstream_messages_shape sample_config ModelMapper.initial
                  None
                  {| Route.model := js "GLM-4.5";
                     Route.messages :=
                       [message "user" (js "hi"); message "tool" (js "42")];
                     Route.stream := false; Route.tools := Some [];
                     Route.tool_choice := NoChoice |}
                  (js "chat-1") (js "msg-1") (js "2025-01-01 00:00:00")
                  _ false false eq_refl)).
Defined.

(** ** The model listing *)

Section ListingProperties.

Import ModelMapper ModelQueries.

Lemma creation_order_from (acc l : list jsstring) :
  NoDup acc ->
  NoDup (foldl (fun acc k => if bool_decide (k ∈ acc) then acc
                             else acc ++ [k]) acc l)
  /\ forall x,
       x ∈ foldl (fun acc k => if bool_decide (k ∈ acc) then acc
                               else acc ++ [k]) acc l
       <-> x ∈ acc \/ x ∈ l.
Proof.
  revert acc. induction l as [|k l IH]; intros acc Hacc.
  - split; [done|]. intros x. rewrite elem_of_nil. tauto.
  - cbn [foldl]. case_bool_decide as Hk.
    + destruct (IH acc Hacc) as [Hnd Hin]. split; [done|].
      intros x. rewrite Hin, elem_of_cons.
      split; [tauto|]. intros [H|[->|H]]; tauto.
    + assert (Hacc' : NoDup (acc ++ [k])).
      { apply list.NoDup_app. split; [done|]. split.
        - intros x Hx Hx'. apply list_elem_of_singleton in Hx'. by subst.
        - apply NoDup_singleton. }
      destruct (IH _ Hacc') as [Hnd Hin]. split; [done|].
      intros x. rewrite Hin, elem_of_app, list_elem_of_singleton, elem_of_cons.
      tauto.
Qed.

Lemma creation_order_NoDup (l : list jsstring) : NoDup (creation_order l).
Proof. apply creation_order_from. constructor. Qed.

Lemma elem_of_creation_order (l : list jsstring) (x : jsstring) :
  x ∈ creation_order l <-> x ∈ l.
Proof.
  unfold creation_order.
  destruct (creation_order_from [] l (NoDup_nil_2)) as [_ H].
  rewrite H, elem_of_nil. tauto.
Qed.

Lemma insert_index_perm {A} (n : N) (x : A) (l : list (N * A)) :
  Json.insert_index n x l ≡ₚ (n, x) :: l.
Proof.
  induction l as [|[m y] l IH]; cbn [Json.insert_index]; [done|].
  destruct (n <? m); [done|]. rewrite IH. apply Permutation_swap.
Qed.

Lemma enumerate_perm {A} (o : list (jsstring * A)) : Json.enumerate o ≡ₚ o.
Proof.
  unfold Json.enumerate. induction o as [|[k v] o IH]; [done|].
  cbn [foldr fst]. rewrite filter_cons. cbn [fst].
  destruct (Json.array_index k) as [n|] eqn:E.
  - rewrite decide_False by done. rewrite insert_index_perm.
    cbn [map snd app]. by rewrite IH.
  - rewrite decide_True by done. rewrite <- Permutation_middle. by rewrite IH.
Qed.

Lemma own_keys_perm (created : list jsstring) : own_keys created ≡ₚ created.
Proof.
  unfold own_keys. rewrite enumerate_perm. rewrite map_map. cbn [fst].
  by rewrite map_id.
Qed.

Lemma getAvailableModelIds_spec (config : Config) (om : Ordered) :
  NoDup (getAvailableModelIds config om)
  /\ forall k,
       k ∈ getAvailableModelIds config om
       <-> k ∈ BUILTIN_KEYS config \/ k ∈ dynamicKeys om.
Proof.
  unfold getAvailableModelIds. split.
  - rewrite own_keys_perm. apply creation_order_NoDup.
  - intros k. rewrite own_keys_perm, elem_of_creation_order, elem_of_app.
    by rewrite !own_keys_perm.
Qed.

Lemma elem_of_BUILTIN_KEYS (config : Config) (k : jsstring) :
  k ∈ BUILTIN_KEYS config
  <-> is_Some (BUILTIN_MODEL_MAPPINGS config !! k).
Proof.
  unfold BUILTIN_KEYS, BUILTIN_MODEL_MAPPINGS.
  rewrite elem_of_creation_order.
  rewrite !lookup_insert_is_Some', lookup_empty, is_Some_alt.
  rewrite !elem_of_cons, elem_of_nil.
  split; intros H; repeat (destruct H as [H|H]; [subst; tauto|]); tauto.
Qed.

Lemma foldl_consider_dom (config : Config) (l : list ZAIModel)
    (st : Manager) (k : jsstring) :
  is_Some
    (dynamicMappings (foldl (consider config (mappedUpstreamIds config)) st l)
     !! k)
  <-> is_Some (dynamicMappings st !! k)
      \/ k ∈ map ModelMapper.id (filter (mapped config) l).
Proof.
  revert st. induction l as [|model l IH]; intros st.
  - cbn [foldl map]. rewrite filter_nil. cbn [map]. rewrite elem_of_nil. tauto.
  - cbn [foldl]. rewrite IH, consider_mapped, filter_cons.
    destruct (mapped config model) eqn:Hm.
    + rewrite decide_True by done. cbn [map dynamicMappings].
      rewrite lookup_insert_is_Some', elem_of_cons. split.
      * intros [[H|H]|H]; [right; left; by symmetry|by left|right; by right].
      * intros [H|[H|H]]; [left; by right|left; left; by symmetry|by right].
    + by destruct (decide _) as [[]|].
Qed.

Lemma updateOrdered_agree (config : Config) (now : Z)
    (zaiModels : list ZAIModel) (om : Ordered) :
  keys_agree om -> keys_agree (updateOrdered config now zaiModels om).
Proof.
  intros Hom k. unfold updateOrdered, updateFromZAIModels.
  cbn [state dynamicKeys].
  destruct (now - lastUpdateTime (state om) <? UPDATE_INTERVAL)%Z;
    [apply Hom|].
  cbn [dynamicMappings]. rewrite elem_of_creation_order.
  fold (mappedUpstreamIds config). rewrite foldl_consider_dom.
  cbn [dynamicMappings]. rewrite lookup_empty, is_Some_alt. tauto.
Qed.

Lemma refreshes_ordered_agree (config : Config)
    (calls : list (Z * list ZAIModel)) :
  keys_agree (refreshes_ordered config calls initial_ordered).
Proof.
  assert (H : forall om, keys_agree om ->
                keys_agree (refreshes_ordered config calls om)).
  { unfold refreshes_ordered.
    induction calls as [|call calls IH]; intros om Hom; [done|].
    cbn [foldl]. apply IH. by apply updateOrdered_agree. }
  apply H. intros k. cbn [initial_ordered dynamicKeys state initial
    dynamicMappings]. rewrite elem_of_nil, lookup_empty, is_Some_alt. tauto.
Qed.

(** The manager of the ordered state is the manager of the map model. *)
Lemma refreshes_ordered_state (config : Config)
    (calls : list (Z * list ZAIModel)) (om : Ordered) :
  state (refreshes_ordered config calls om)
  = refreshes config calls (state om).
Proof.
  unfold refreshes_ordered, refreshes. revert om.
  induction calls as [|call calls IH]; intros om; [done|].
  cbn [foldl]. by rewrite IH.
Qed.

Lemma listed_ids (config : Config) (now : Z) (om : Ordered) :
  keys_agree om ->
  map l_id (mappingsToZAIModels config now om)
  = getAvailableModelIds config om.
Proof.
  intros Hom. unfold mappingsToZAIModels. cbv zeta.
  assert (Hall : forall k, k ∈ getAvailableModelIds config om ->
            is_Some (getMappings config (state om) !! k)).
  { intros k Hk. apply getAvailableModelIds_spec in Hk as [Hk|Hk].
    - apply elem_of_BUILTIN_KEYS in Hk. unfold getMappings.
      apply lookup_union_is_Some. by right.
    - apply Hom in Hk. unfold getMappings.
      apply lookup_union_is_Some. by left. }
  induction (getAvailableModelIds config om) as [|k ids IH]; [done|].
  cbn [omap list_omap].
  destruct (Hall k ltac:(left)) as [mapping ->].
  cbn [fmap option_fmap option_map map]. f_equal.
  apply IH. intros k' Hk'. apply Hall. by right.
Qed.
End ListingProperties.

Section ListingTheorems.

Import ModelMapper ModelQueries.

Lemma builtin_key_resolves (config : Config)
    (calls : list (Z * list ZAIModel)) (k : jsstring)
    (mapping : ModelMapping) :
  BUILTIN_MODEL_MAPPINGS config !! k = Some mapping ->
  getMappingByModelId config (refreshes config calls initial) k = Own mapping.
Proof.
  intros Hk.
  assert (Hd : disjoint_from_builtin config (refreshes config calls initial)).
  { apply refreshes_disjoint. intros k' x _. cbn [initial dynamicMappings].
    by rewrite !lookup_empty. }
  destruct (Hd k mapping Hk) as [H1 _].
  unfold getMappingByModelId, index, getMappings.
  by rewrite lookup_union_r, Hk.
Qed.

Lemma listed_models (config : Config) (now : Z) (om : Ordered)
    (model : ListedModel) :
  model ∈ mappingsToZAIModels config now om ->
  exists mapping,
    getMappings config (state om) !! l_id model = Some mapping
    /\ model = to_listed (now / 1000) (l_id model) mapping.
Proof.
  unfold mappingsToZAIModels. cbv zeta. intros H.
  apply list_elem_of_omap in H as (k & _ & H).
  destruct (getMappings config (state om) !! k) as [mapping|] eqn:E; [|done].
  injection H as <-. cbn [l_id to_listed]. by exists mapping.
Qed.

(** X18. After any run of refreshes [mappingsToZAIModels] lists the
    keys of the merged mappings in the order of [getAvailableModelIds],
    each once; a model id is listed exactly when the merged mappings have
    it, and each listed model is built from the mapping its id resolves
    to. *)
Theorem mappingsToZAIModels_listing (config : Config)
    (calls : list (Z * list ZAIModel)) (now : Z) :
  let om := refreshes_ordered config calls initial_ordered in
  let listed := mappingsToZAIModels config now om in
  map l_id listed = getAvailableModelIds config om
  /\ NoDup (map l_id listed)
  /\ (forall k,
        k ∈ map l_id listed
        <-> is_Some (getMappings config (refreshes config calls initial) !! k))
  /\ forall model,
       model ∈ listed ->
       exists mapping,
         getMappingByModelId config (refreshes config calls initial)
           (l_id model) = Own mapping
         /\ model = to_listed (now / 1000) (l_id model) mapping.
Proof.
  intros om listed.
  pose proof (refreshes_ordered_agree config calls) as Hagree. fold om in Hagree.
  pose proof (refreshes_ordered_state config calls initial_ordered) as Hstate.
  fold om in Hstate. cbn [initial_ordered state] in Hstate.
  pose proof (listed_ids config now om Hagree) as Hids. fold listed in Hids.
  destruct (getAvailableModelIds_spec config om) as [Hnd Hin].
  split; [done|]. rewrite Hids. split; [done|]. split.
  - intros k. rewrite Hin, elem_of_BUILTIN_KEYS, (Hagree k), Hstate.
    unfold getMappings. rewrite lookup_union_is_Some. tauto.
  - intros model Hmodel. subst listed.
    apply listed_models in Hmodel as (mapping & Hmap & Hmodel).
    exists mapping. split; [|done].
    unfold getMappingByModelId, index. by rewrite <- Hstate, Hmap.
Qed.

Lemma getAvailableModelIds_order :
  getAvailableModelIds sample_config
    (refreshes_ordered sample_config
       [(1000000%Z,
         [{| ModelMapper.id := js "glm-x"; name := None;
             display_name := None; owned_by := None |};
          {| ModelMapper.id := js "42"; name := None;
             display_name := None; owned_by := None |};
          {| ModelMapper.id := js "GLM-4.5"; name := None;
             display_name := None; owned_by := None |}])]
       initial_ordered)
  = [js "42"; js "GLM-4.5"; js "GLM-4.5-Thinking"; js "GLM-4.5-Search";
     js "GLM-4.5-Air"; js "GLM-4.6"; js "GLM-4.6-Thinking";
     js "GLM-4.6-Search"; js "glm-x"].
Proof. by vm_compute. Qed.

Lemma default_ids_builtin (config : Config) (k : jsstring) :
  k ∈ [PRIMARY_MODEL config; THINKING_MODEL config; SEARCH_MODEL config;
       AIR_MODEL config; PRIMARY_MODEL_NEW config; THINKING_MODEL_NEW config;
       SEARCH_MODEL_NEW config] ->
  is_Some (BUILTIN_MODEL_MAPPINGS config !! k).
Proof.
  intros H. apply elem_of_BUILTIN_KEYS. unfold BUILTIN_KEYS.
  by apply elem_of_creation_order.
Qed.

(** X23. [getDefaultModels] lists the seven configured model names;
    each entry is named by its id, dated [now / 1000] and owned by "z.ai",
    and after any run of refreshes its id resolves to a builtin
    mapping. *)
Theorem getDefaultModels_builtin (config : Config) (now : Z)
    (calls : list (Z * list ZAIModel)) :
  map l_id (ModelFetcher.getDefaultModels config now)
  = [PRIMARY_MODEL config; THINKING_MODEL config; SEARCH_MODEL config;
     AIR_MODEL config; PRIMARY_MODEL_NEW config; THINKING_MODEL_NEW config;
     SEARCH_MODEL_NEW config]
  /\ forall model,
       model ∈ ModelFetcher.getDefaultModels config now ->
       l_name model = l_id model
       /\ l_created model = (now / 1000)%Z
       /\ l_owned_by model = js "z.ai"
       /\ exists mapping,
            BUILTIN_MODEL_MAPPINGS config !! l_id model = Some mapping
            /\ isBuiltin mapping = true
            /\ getMappingByModelId config (refreshes config calls initial)
                 (l_id model) = Own mapping.
Proof.
  split; [done|]. intros model Hmodel.
  unfold ModelFetcher.getDefaultModels in Hmodel. cbv zeta in Hmodel.
  apply list_elem_of_fmap in Hmodel as (k & -> & Hk). cbn [l_name l_id
    l_created l_owned_by]. repeat split.
  destruct (default_ids_builtin config k Hk) as [mapping Hmapping].
  exists mapping. split; [done|]. split; [|by apply builtin_key_resolves].
  unfold BUILTIN_MODEL_MAPPINGS in Hmapping.
  repeat (apply lookup_insert_Some in Hmapping
            as [[_ <-]|[_ Hmapping]]; [done|]).
  by rewrite lookup_empty in Hmapping.
Qed.

(** The ordered state after [getAvailableModels] is one that refreshes
    reach. *)
Lemma getAvailableModels_state (config : Config)
    (calls : list (Z * list ZAIModel)) (nowUpdate nowList : Z)
    (latestModels : list ZAIModel) :
  exists calls',
    (ModelFetcher.getAvailableModels config nowUpdate nowList latestModels
       (refreshes_ordered config calls initial_ordered)).2
    = refreshes_ordered config calls' initial_ordered.
Proof.
  unfold ModelFetcher.getAvailableModels. cbn [snd].
  destruct latestModels as [|model rest]; [by exists calls|].
  exists (calls ++ [(nowUpdate, model :: rest)]).
  unfold refreshes_ordered. by rewrite foldl_app.
Qed.

Lemma imap_entry_ids (g : nat -> ListedModel -> Z)
    (h : ListedModel -> jsstring) (l : list ListedModel) :
  map ModelsRoute.e_id
    (imap (fun i model =>
             {| ModelsRoute.e_id := l_id model;
                ModelsRoute.e_created := g i model;
                ModelsRoute.e_owned_by := h model |}) l)
  = map l_id l.
Proof.
  revert g. induction l as [|x l IH]; intros g; [done|].
  cbn [imap map ModelsRoute.e_id]. f_equal.
  exact (IH (fun i => g (S i))).
Qed.

(** X22. What [/models] lists, [/chat/completions] accepts.  The ids
    of the answer are those of [getAvailableModelIds] in its order, each
    resolves to a mapping in the manager that [getAvailableModels] leaves
    behind, and the owner shown is the mapping's or "z.ai"; the entries of
    the fallback answer are builtin models of that manager, dated by the
    fallback clock. *)
Theorem models_are_accepted (config : Config)
    (calls : list (Z * list ZAIModel)) (nowUpdate nowList : Z)
    (latestModels : list ZAIModel) (later : nat -> Z) (nowFallback : Z) :
  let result :=
    ModelFetcher.getAvailableModels config nowUpdate nowList latestModels
      (refreshes_ordered config calls initial_ordered) in
  let st := state result.2 in
  map ModelsRoute.e_id
    (ModelsRoute.models config (Some result.1) later nowFallback)
  = getAvailableModelIds config result.2
  /\ (forall entry,
        entry ∈ ModelsRoute.models config (Some result.1) later nowFallback ->
        exists mapping,
          getMappingByModelId config st (ModelsRoute.e_id entry)
          = Own mapping
          /\ ModelsRoute.e_owned_by entry
             = or_else (ownedBy mapping) (js "z.ai"))
  /\ (forall entry,
        entry ∈ ModelsRoute.models config None later nowFallback ->
        ModelsRoute.e_created entry = (nowFallback / 1000)%Z
        /\ ModelsRoute.e_owned_by entry = js "z.ai"
        /\ exists mapping,
             BUILTIN_MODEL_MAPPINGS config !! ModelsRoute.e_id entry
             = Some mapping
             /\ getMappingByModelId config st (ModelsRoute.e_id entry)
                = Own mapping).
Proof.
  intros result st.
  destruct (getAvailableModels_state config calls nowUpdate nowList
              latestModels) as [calls' Hcalls].
  fold result in Hcalls.
  assert (Hst : st = refreshes config calls' initial).
  { subst st. rewrite Hcalls. apply refreshes_ordered_state. }
  assert (Hlist : result.1
                  = mappingsToZAIModels config nowList result.2) by done.
  pose proof (refreshes_ordered_agree config calls') as Hagree.
  rewrite <- Hcalls in Hagree.
  split; [|split].
  - rewrite <- (listed_ids config nowList result.2 Hagree), <- Hlist.
    unfold ModelsRoute.models.
    apply (imap_entry_ids
             (fun i model => if (l_created model =? 0)%Z
                             then (later i / 1000)%Z else l_created model)).
  - intros entry Hentry. unfold ModelsRoute.models in Hentry.
    apply elem_of_lookup_imap_1 in Hentry as (i & model & -> & Hi).
    apply list_elem_of_lookup_2 in Hi. rewrite Hlist in Hi.
    apply listed_models in Hi as (mapping & Hmap & Hmodel).
    exists mapping. cbn [ModelsRoute.e_id ModelsRoute.e_owned_by]. split.
    + unfold getMappingByModelId, index. subst st. by rewrite Hmap.
    + rewrite Hmodel. cbn [l_owned_by to_listed].
      by destruct (ownedBy mapping) as [[|c o]|].
  - intros entry Hentry. unfold ModelsRoute.models in Hentry.
    cbv zeta in Hentry.
    apply list_elem_of_fmap in Hentry as (k & -> & Hk).
    cbn [ModelsRoute.e_id ModelsRoute.e_created ModelsRoute.e_owned_by].
    split; [done|]. split; [done|].
    destruct (default_ids_builtin config k Hk) as [mapping Hmapping].
    exists mapping. split; [done|]. rewrite Hst.
    by apply builtin_key_resolves.
Qed.
End ListingTheorems.

(** ** When extraction throws *)

Lemma search_literal_none (ngroups : nat) (p : jsstring) (r : Regex.regex)
    (s : jsstring) :
  includes p s = false ->
  Regex.search ngroups (Regex.Seq (Regex.Text p) r) s = None.
Proof.
  induction s as [|c s IH]; cbn [includes Regex.search]; intros H;
    apply orb_false_iff in H as [H1 H2];
    unfold Regex.exec_here; cbn [Regex.rmatch]; rewrite rmatch_Text, H1.
  - done.
  - by rewrite IH.
Qed.

Lemma phrase_shape :
  exists r,
    FUNCTION_CALL_PATTERN = Regex.Seq (Regex.Text (js "调用函数")) r.
Proof. by eexists. Qed.

(** X24. [extractToolInvocations] throws only through the natural-language
    fallback: on a text that does not contain the phrase start 调用函数 it
    returns, a list or [null], whatever the JSON in the text looks like. *)
Theorem extractToolInvocations_returns (config : Config) (now : Z)
    (text : jsstring) :
  includes (js "调用函数") text = false ->
  exists result, extractToolInvocations config now text = Returns result.
Proof.
  intros H. unfold extractToolInvocations.
  destruct text as [|c text]; [by eexists|].
  destruct (extract_fenced _) as [toolCalls|]; [by eexists|].
  destruct (extract_inline _) as [toolCalls|]; [by eexists|].
  exists None. unfold extract_natural, Regex.match_global, Regex.all_matches.
  cbn [Regex.all_matches_from].
  destruct phrase_shape as [r ->].
  by rewrite search_literal_none by (by apply includes_take).
Qed.

Lemma extractToolInvocations_returns_witness :
  exists result,
    extractToolInvocations sample_config 0
      (jsq "{'tool_calls': [null, {'function': 7}]} and {'tool_calls': 3}")
    = Returns result.
Proof.
  apply (extractToolInvocations_returns sample_config 0
           (jsq "{'tool_calls': [null, {'function': 7}]} and {'tool_calls': 3}")).
  by vm_compute.
Defined.

(** ** An empty tools array *)

(** C8. An empty [tools] array is not treated as no tools: with tool
    support on and a tool choice other than "none", a request without a
    system message gets the persona system message in front, with an empty
    catalog, so the result is not the role-normalized request; and a tool
    choice of "auto" or "required" appends the directive to the last user
    message.  The test [tools && ...] holds for an empty array, while
    [generateToolPrompt] and the route's [hasTools] count it as no
    tools. *)
Theorem processMessagesWithTools_empty_tools_array (config : Config)
    (messages : list Message) (toolChoice : ToolChoice) :
  TOOL_SUPPORT config = true -> is_choice "none" toolChoice = false ->
  existsb (is_role "system") messages = false ->
  let result := processMessagesWithTools config messages (Some []) toolChoice in
  result !! 0%nat = Some (message "system" (js "你是一个有用的助手。"))
  /\ length result = S (length messages)
  /\ result <> map normalize_role messages.
Proof.
  intros Hsupport Hnone Hsys result.
  destruct (tool_branch config messages [] toolChoice Hsupport Hnone)
    as (processed & Hresult & Hprocessed).
  fold result in Hresult.
  change (generateToolPrompt []) with (@nil N) in Hprocessed.
  assert (Hbase : with_tool_prompt [] messages
                  = message "system" (js "你是一个有用的助手。") :: messages).
  { unfold with_tool_prompt, tool_persona. rewrite Hsys.
    by rewrite app_nil_r. }
  rewrite Hbase in Hprocessed.
  assert (Hlen : length result = S (length messages)).
  { rewrite Hresult, length_map.
    destruct Hprocessed as [->|[hint ->]];
      [done|by rewrite hint_last_user_length]. }
  split; [|split; [done|]].
  - rewrite Hresult, list_lookup_fmap.
    assert (processed !! 0%nat
            = Some (message "system" (js "你是一个有用的助手。"))) as ->.
    { destruct Hprocessed as [->|[hint ->]]; [done|].
      apply hint_last_user_other; [done|left; by vm_compute]. }
    done.
  - intros Heq. rewrite Heq, length_map in Hlen. lia.
Qed.

Lemma processMessagesWithTools_empty_tools_array_witness :
  processMessagesWithTools sample_config [message "user" (js "hi")]
    (Some []) (ChoiceString (js "auto"))
  = [message "system" (js "你是一个有用的助手。");
     message "user" (js "hi" ++ nl ++ nl ++ js "请根据需要使用提供的工具函数。")]
  /\ processMessagesWithTools sample_config [message "user" (js "hi")]
       (Some []) (ChoiceString (js "auto"))
     <> map normalize_role [message "user" (js "hi")].
Proof.
  split; [by vm_compute|].
  apply (processMessagesWithTools_empty_tools_array sample_config
           [message "user" (js "hi")] (ChoiceString (js "auto")));
    by vm_compute.
Defined.

(** ** Where the returned tool calls come from *)

Section Pieces.
Context {A : Type}.

Lemma pieces_of_insert (whole s s1 : jsstring) (caps : Regex.captures)
    (n : nat) :
  s `suffix_of` whole -> s1 `suffix_of` s -> pieces_of whole caps ->
  pieces_of whole (<[n := Some (take (length s - length s1) s)]> caps).
Proof.
  intros [w ->] [u ->] Hcaps i x Hi.
  apply list_lookup_insert_Some in Hi as [(_ & Hx & _)|[_ Hi]];
    [|by eapply Hcaps].
  injection Hx as <-. exists w, s1.
  rewrite length_app, Nat.add_sub, take_app_length. done.
Qed.

Lemma iterate_pieces (whole : jsstring) (greedy : bool)
    (body : @Regex.matcher A) (k : Regex.continuation) :
  (forall s caps k' a,
     s `suffix_of` whole -> pieces_of whole caps ->
     body s caps k' = Some a ->
     exists s' caps',
       s' `suffix_of` s /\ pieces_of whole caps' /\ k' s' caps' = Some a) ->
  forall fuel s caps a,
    s `suffix_of` whole -> pieces_of whole caps ->
    Regex.iterate greedy body k fuel s caps = Some a ->
    exists s' caps',
      s' `suffix_of` s /\ pieces_of whole caps' /\ k s' caps' = Some a.
Proof.
  intros Hbody. induction fuel as [|fuel IH]; intros s caps a Hs Hcaps H;
    [done|].
  cbn [Regex.iterate] in H.
  assert (Hagain :
    body s caps
      (fun s1 c1 => if (length s1 <? length s)%nat
                    then Regex.iterate greedy body k fuel s1 c1 else None)
    = Some a ->
    exists s' caps',
      s' `suffix_of` s /\ pieces_of whole caps' /\ k s' caps' = Some a).
  { intros E. apply Hbody in E as (s1 & c1 & Hs1 & Hc1 & E); [|done|done].
    destruct (length s1 <? length s)%nat; [|done].
    apply IH in E as (s' & caps' & Hs' & Hc' & E); [|by etrans|done].
    exists s', caps'. split; [by etrans|done]. }
  destruct greedy; unfold Regex.orElse in H.
  - destruct (body s caps _) eqn:E.
    + injection H as ->. by apply Hagain.
    + by exists s, caps.
  - destruct (k s caps) eqn:E.
    + injection H as ->. by exists s, caps.
    + by apply Hagain.
Qed.

(** A pattern hands on a suffix of its input and captures that are pieces
    of the whole text. *)
Lemma rmatch_pieces (whole : jsstring) (r : Regex.regex) (s : jsstring)
    (caps : Regex.captures) (k : Regex.continuation) (a : A) :
  s `suffix_of` whole -> pieces_of whole caps ->
  Regex.rmatch r s caps k = Some a ->
  exists s' caps',
    s' `suffix_of` s /\ pieces_of whole caps' /\ k s' caps' = Some a.
Proof.
  revert s caps k a.
  induction r as [|c| |cs|r1 IH1 r2 IH2|r1 IH1 r2 IH2|greedy r IH|n r IH];
    intros s caps k a Hs Hcaps H; cbn [Regex.rmatch] in H.
  - by exists s, caps.
  - destruct s as [|x s1]; [done|]. destruct (x =? c); [|done].
    exists s1, caps. split; [by apply suffix_cons_r|done].
  - destruct s as [|x s1]; [done|].
    exists s1, caps. split; [by apply suffix_cons_r|done].
  - destruct s as [|x s1]; [done|]. destruct (Regex.in_class cs x); [|done].
    exists s1, caps. split; [by apply suffix_cons_r|done].
  - apply IH1 in H as (s1 & c1 & Hs1 & Hc1 & H); [|done|done].
    apply IH2 in H as (s2 & c2 & Hs2 & Hc2 & H); [|by etrans|done].
    exists s2, c2. split; [by etrans|done].
  - unfold Regex.orElse in H. destruct (Regex.rmatch r1 s caps k) eqn:E.
    + injection H as ->. by apply IH1 in E.
    + by apply IH2 in H.
  - eapply iterate_pieces; [|done|done|exact H]. intros. by eapply IH.
  - apply IH in H as (s1 & c1 & Hs1 & Hc1 & H); [|done|done].
    eexists s1, _. split; [done|]. split; [|exact H].
    by apply pieces_of_insert.
Qed.

End Pieces.

Lemma pieces_of_cons (c : N) (s : jsstring) (caps : Regex.captures) :
  pieces_of s caps -> pieces_of (c :: s) caps.
Proof.
  intros H i x Hi. destruct (H i x Hi) as (before & after & ->).
  by exists (c :: before), after.
Qed.

Lemma pieces_of_suffix (whole s : jsstring) (caps : Regex.captures) :
  s `suffix_of` whole -> pieces_of s caps -> pieces_of whole caps.
Proof.
  intros [w ->] H i x Hi. destruct (H i x Hi) as (before & after & ->).
  exists (w ++ before), after. by rewrite <- app_assoc.
Qed.

Lemma exec_here_pieces (ngroups : nat) (r : Regex.regex) (s : jsstring)
    (m : Regex.found) :
  Regex.exec_here ngroups r s = Some m -> pieces_of s (Regex.groups m).
Proof.
  unfold Regex.exec_here. intros H.
  apply (rmatch_pieces s) in H as (s' & caps' & _ & Hc & H); [|done|].
  - by injection H as <-.
  - intros i x Hi. apply lookup_replicate in Hi as [Hi _]. done.
Qed.

Lemma search_pieces (ngroups : nat) (r : Regex.regex) (s : jsstring)
    (m : Regex.found) :
  Regex.search ngroups r s = Some m ->
  pieces_of s (Regex.groups m) /\ Regex.after m `suffix_of` s.
Proof.
  intros H. split.
  - revert m H. induction s as [|c s IH]; intros m; cbn [Regex.search].
    + destruct (Regex.exec_here ngroups r []) as [m'|] eqn:E; [|done].
      intros [= <-]. by eapply exec_here_pieces.
    + destruct (Regex.exec_here ngroups r (c :: s)) as [m'|] eqn:E.
      * intros [= <-]. by eapply exec_here_pieces.
      * destruct (Regex.search ngroups r s) as [m'|] eqn:Es; [|done].
        intros [= <-]. cbn [Regex.groups]. by apply pieces_of_cons, IH.
  - apply search_split in H.
    exists (Regex.before m ++ Regex.matched m). by rewrite <- app_assoc.
Qed.

Lemma all_matches_pieces (fuel ngroups : nat) (r : Regex.regex)
    (whole s : jsstring) :
  s `suffix_of` whole ->
  Forall (fun m => pieces_of whole (Regex.groups m))
    (Regex.all_matches_from fuel ngroups r s).
Proof.
  revert s. induction fuel as [|fuel IH]; intros s Hs;
    cbn [Regex.all_matches_from]; [done|].
  destruct (Regex.search ngroups r s) as [m|] eqn:E; [|done].
  apply search_pieces in E as [Hm Hafter].
  constructor; [by eapply pieces_of_suffix|].
  destruct (Regex.matched m), (Regex.after m) as [|c rest] eqn:Ea;
    try done; apply IH.
  - etrans; [|exact Hs]. etrans; [|exact Hafter]. by apply suffix_cons_r.
  - by etrans.
  - by etrans.
Qed.

(** A capture of [matchAll] is a piece of the text. *)
Lemma matchAll_pieces (ngroups : nat) (r : Regex.regex) (s : jsstring) :
  Forall (fun m => forall x, m !! 1%nat = Some (Some x) ->
                     exists before after, s = before ++ x ++ after)
    (Regex.matchAll ngroups r s).
Proof.
  unfold Regex.matchAll, Regex.all_matches.
  pose proof (all_matches_pieces (S (length s)) ngroups r s s
                ltac:(done)) as H.
  induction H as [|m l Hm Hl IH]; cbn [map]; constructor; [|done].
  intros x Hx. apply (Hm 1%nat).
  by apply list_lookup_insert_Some in Hx as [(? & _)|[_ Hx]].
Qed.

Lemma extract_fenced_source (jsonBlocks : list (list (option jsstring)))
    (calls : list JValue) :
  extract_fenced jsonBlocks = Some calls ->
  exists m src,
    m ∈ jsonBlocks /\ m !! 1%nat = Some (Some src)
    /\ tool_calls_of (Some src) = Returns (Some calls).
Proof.
  induction jsonBlocks as [|m rest IH]; cbn [extract_fenced]; [done|].
  destruct (try_catch (tool_calls_of (mjoin (m !! 1%nat))) None)
    as [toolCalls|] eqn:E.
  - intros [= <-]. apply try_tool_calls_of in E.
    destruct (m !! 1%nat) as [[src|]|] eqn:Em; try done.
    exists m, src. split; [left|done].
  - intros H. destruct (IH H) as (m' & src & Hin & Hm & Hc).
    exists m', src. split; [by right|done].
Qed.

Lemma extract_inline_source (s : jsstring) (calls : list JValue) :
  extract_inline s = Some calls ->
  exists before src after,
    s = before ++ src ++ after
    /\ tool_calls_of (Some src) = Returns (Some calls).
Proof.
  induction s as [|c s IH]; cbn [extract_inline]; [done|].
  assert (Hrest : extract_inline s = Some calls ->
            exists before src after,
              c :: s = before ++ src ++ after
              /\ tool_calls_of (Some src) = Returns (Some calls)).
  { intros H. destruct (IH H) as (before & src & after & -> & Hc).
    by exists (c :: before), src, after. }
  destruct (c =? ch "{"); [|done].
  destruct (scan_braces s 1 1 false false) as [j braceCount].
  destruct braceCount as [|n]; [|done].
  destruct (try_catch (tool_calls_of (Some (take j (c :: s)))) None)
    as [toolCalls|] eqn:E; [|done].
  intros [= <-]. apply try_tool_calls_of in E.
  exists [], (take j (c :: s)), (drop j (c :: s)).
  split; [by rewrite take_drop|done].
Qed.

(** C3, as amended. Every list that [extractToolInvocations] returns is the
    [tool_calls] array of a JSON object that stands in the scanned text (a
    contiguous piece of its first [SCAN_LIMIT] code units), each entry
    passed through the normalization: where [function.arguments] was
    truthy, it is now a string, the JSON text of the value unless that was
    a string already.  Hence a truthy [function.arguments] of a returned
    entry is a string. *)
Theorem returned_truthy_arguments_are_strings (config : Config) (now : Z)
    (text : jsstring) (calls : list JValue) :
  extractToolInvocations config now text = Returns (Some calls) ->
  (exists before src after props raws,
     substring0 text (SCAN_LIMIT config) = before ++ src ++ after
     /\ Json.parse src = Some (JObject props)
     /\ obj_get (js "tool_calls") props = Some (JArray raws)
     /\ Forall2
          (fun raw tc =>
             ensure_string_arguments raw = Returns tc
             /\ forall a, arguments_of raw = Some a -> truthy a = true ->
                  arguments_of tc
                  = Some (if is_string a then a
                          else JString (Json.stringify a)))
          raws calls)
  /\ Forall (fun tc => forall a, arguments_of tc = Some a ->
                         truthy a = true -> is_string a = true) calls.
Proof.
  intros H.
  assert (Hsrc : exists before src after,
            substring0 text (SCAN_LIMIT config) = before ++ src ++ after
            /\ tool_calls_of (Some src) = Returns (Some calls)).
  { unfold extractToolInvocations in H.
    destruct text as [|c text]; [done|].
    destruct (extract_fenced _) as [toolCalls|] eqn:E1.
    { injection H as ->.
      apply extract_fenced_source in E1 as (m & src & Hin & Hm & Hc).
      pose proof (matchAll_pieces 1 TOOL_CALL_FENCE_PATTERN
                    (substring0 (c :: text) (SCAN_LIMIT config))) as Hall.
      rewrite Forall_forall in Hall. apply list_elem_of_In in Hin.
      destruct (Hall m Hin src Hm) as (before & after & Hs).
      by exists before, src, after. }
    destruct (extract_inline _) as [toolCalls|] eqn:E2.
    { injection H as ->. by apply extract_inline_source in E2. }
    rewrite extract_natural_cases in H.
    by destruct (Regex.match_global 2 FUNCTION_CALL_PATTERN _)
      as [[|m0 [|m1 [|m2 ms]]]|]. }
  destruct Hsrc as (before & src & after & Htext & Hsrc).
  apply tool_calls_of_result in Hsrc
    as (src' & props & raws & [= <-] & Hp & Hg & Hall).
  split.
  - exists before, src, after, props, raws. repeat split; try done.
    clear H Hp Hg. induction Hall as [|raw tc raws calls E _ IH];
      [by constructor|].
    constructor; [|done].
    split; [done|]. by apply (ensure_string_arguments_spec raw tc E).
  - clear H Hp Hg. induction Hall as [|raw tc raws calls E _ IH];
      [by constructor|].
    constructor; [|done].
    by apply (ensure_string_arguments_spec raw tc E).
Qed.

Lemma returned_truthy_arguments_are_strings_witness :
  extractToolInvocations sample_config 0
    (jsq "{'tool_calls': [{'function': {'name': 'f', 'arguments': {'a': 1}}}]}")
  = Returns
      (Some [JObject
               [(js "function",
                 JObject [(js "name", JString (js "f"));
                          (js "arguments", JString (jsq "{'a':1}"))])]])
  /\ Forall (fun tc => forall a, arguments_of tc = Some a ->
                         truthy a = true -> is_string a = true)
       [JObject
          [(js "function",
            JObject [(js "name", JString (js "f"));
                     (js "arguments", JString (jsq "{'a':1}"))])]].
Proof.
  assert (E : extractToolInvocations sample_config 0
                (jsq "{'tool_calls': [{'function': {'name': 'f', 'arguments': {'a': 1}}}]}")
              = Returns
                  (Some [JObject
                           [(js "function",
                             JObject [(js "name", JString (js "f"));
                                      (js "arguments",
                                       JString (jsq "{'a':1}"))])]]))
    by (by vm_compute).
  split; [exact E|].
  exact (proj2 (returned_truthy_arguments_are_strings sample_config 0 _ _ E)).
Defined.
